(** * SMICP: Merkle anchoring, proof verification and two-phase commit

    A shallow embedding of the protocol engine of the repository:
    - the Fabric chaincodes [AnchorRegistryChaincode],
      [SidechainVerifierChaincode] and [ScimpCoordinatorChaincode];
    - their EVM ports, the contracts [AnchorRegistry], [SidechainVerifier]
      and [ScimpCoordinator].

    Ledger state is a finite map from keys to stored documents; a chaincode
    call is a function from a world state to a result and a world state: the
    writes a call made before a [throw] are in the world it returns, as they
    are in the write set of the stub.  The peer commits the writes of a
    transaction that returns and none of a transaction that throws
    ([Chaincode.submit]); the calls of the anchor registry and of the
    verifier throw only before their first write.  An EVM call that reverts
    leaves the storage as it was. *)

From Stdlib Require Import NArith ZArith List Ascii String Lia Bool.
From stdpp Require Import base option list strings gmap.

Local Open Scope string_scope.
Local Open Scope list_scope.

(** ** SHA-256 (FIPS 180-4), the digest behind [crypto.createHash('sha256')]
       and Solidity's [sha256] *)

Module Sha256.
Local Open Scope N_scope.

Definition mask32 : N := 4294967295.

Definition add32 (x y : N) : N := N.land (x + y) mask32.

Definition rotr (n x : N) : N :=
  N.lor (N.shiftr x n) (N.land (N.shiftl x (32 - n)) mask32).

Definition not32 (x : N) : N := N.lxor x mask32.

Definition ch (x y z : N) : N := N.lxor (N.land x y) (N.land (not32 x) z).

Definition maj (x y z : N) : N :=
  N.lxor (N.lxor (N.land x y) (N.land x z)) (N.land y z).

Definition bsig0 (x : N) : N := N.lxor (N.lxor (rotr 2 x) (rotr 13 x)) (rotr 22 x).
Definition bsig1 (x : N) : N := N.lxor (N.lxor (rotr 6 x) (rotr 11 x)) (rotr 25 x).
Definition ssig0 (x : N) : N := N.lxor (N.lxor (rotr 7 x) (rotr 18 x)) (N.shiftr x 3).
Definition ssig1 (x : N) : N := N.lxor (N.lxor (rotr 17 x) (rotr 19 x)) (N.shiftr x 10).

(** Round constants: fractional parts of the cube roots of the first 64
    primes, in decimal. *)
Definition round_constants : list N :=
  [ 1116352408; 1899447441; 3049323471; 3921009573;
    961987163; 1508970993; 2453635748; 2870763221;
    3624381080; 310598401; 607225278; 1426881987;
    1925078388; 2162078206; 2614888103; 3248222580;
    3835390401; 4022224774; 264347078; 604807628;
    770255983; 1249150122; 1555081692; 1996064986;
    2554220882; 2821834349; 2952996808; 3210313671;
    3336571891; 3584528711; 113926993; 338241895;
    666307205; 773529912; 1294757372; 1396182291;
    1695183700; 1986661051; 2177026350; 2456956037;
    2730485921; 2820302411; 3259730800; 3345764771;
    3516065817; 3600352804; 4094571909; 275423344;
    430227734; 506948616; 659060556; 883997877;
    958139571; 1322822218; 1537002063; 1747873779;
    1955562222; 2024104815; 2227730452; 2361852424;
    2428436474; 2756734187; 3204031479; 3329325298 ].

Record regs := Regs { ra : N; rb : N; rc : N; rd : N; re : N; rf : N; rg : N; rh : N }.

(** Initial hash value: fractional parts of the square roots of the first
    eight primes. *)
Definition initial_regs : regs :=
  Regs 1779033703 3144134277 1013904242 2773480762
       1359893119 2600822924 528734635 1541459225.

(** Big-endian bytes of a number. *)
Fixpoint be_bytes (count : nat) (x : N) : list N :=
  match count with
  | O => []
  | S c => N.land (N.shiftr x (8 * N.of_nat c)) 255 :: be_bytes c x
  end.

Definition pad (msg : list N) : list N :=
  let len := N.of_nat (length msg) in
  let zeros := (64 - ((len + 9) mod 64)) mod 64 in
  msg ++ 128 :: repeat 0 (N.to_nat zeros) ++ be_bytes 8 (8 * len).

Fixpoint words_of_bytes (bs : list N) : list N :=
  match bs with
  | b0 :: b1 :: b2 :: b3 :: rest =>
      (N.shiftl b0 24 + N.shiftl b1 16 + N.shiftl b2 8 + b3) :: words_of_bytes rest
  | _ => []
  end.

(** Message schedule, most recent word first. *)
Fixpoint extend (count : nat) (rev_w : list N) : list N :=
  match count with
  | O => rev_w
  | S c =>
      let at_ i := nth i rev_w 0 in
      let next := add32 (add32 (ssig1 (at_ 1%nat)) (at_ 6%nat))
                        (add32 (ssig0 (at_ 14%nat)) (at_ 15%nat)) in
      extend c (next :: rev_w)
  end.

Definition schedule (block : list N) : list N := rev (extend 48 (rev block)).

Definition round (r : regs) (kw : N * N) : regs :=
  let t1 := add32 (add32 (add32 (rh r) (bsig1 (re r))) (ch (re r) (rf r) (rg r)))
                  (add32 kw.1 kw.2) in
  let t2 := add32 (bsig0 (ra r)) (maj (ra r) (rb r) (rc r)) in
  Regs (add32 t1 t2) (ra r) (rb r) (rc r) (add32 (rd r) t1) (re r) (rf r) (rg r).

Definition compress (h : regs) (block : list N) : regs :=
  let r := fold_left round (combine round_constants (schedule block)) h in
  Regs (add32 (ra h) (ra r)) (add32 (rb h) (rb r)) (add32 (rc h) (rc r))
       (add32 (rd h) (rd r)) (add32 (re h) (re r)) (add32 (rf h) (rf r))
       (add32 (rg h) (rg r)) (add32 (rh h) (rh r)).

Fixpoint blocks (fuel : nat) (ws : list N) : list (list N) :=
  match fuel, ws with
  | S f, _ :: _ => firstn 16 ws :: blocks f (skipn 16 ws)
  | _, _ => []
  end.

Definition digest_bytes (r : regs) : list N :=
  flat_map (be_bytes 4) [ra r; rb r; rc r; rd r; re r; rf r; rg r; rh r].

(** [sha256 msg]: the 32 digest bytes of the byte string [msg]. *)
Definition sha256 (msg : list N) : list N :=
  let ws := words_of_bytes (pad msg) in
  digest_bytes (fold_left compress (blocks (length ws) ws) initial_regs).

(** Bytes of a string and lower-case hexadecimal, as [digest('hex')]. *)
Definition bytes_of_string (s : string) : list N :=
  map N_of_ascii (list_ascii_of_string s).

Definition hex_digit (n : N) : ascii :=
  if n <? 10 then ascii_of_N (48 + n) else ascii_of_N (87 + n).

Fixpoint hex (bs : list N) : string :=
  match bs with
  | [] => EmptyString
  | b :: rest => String (hex_digit (b / 16)) (String (hex_digit (b mod 16)) (hex rest))
  end.

(** [crypto.createHash('sha256').update(s).digest('hex')] *)
Definition sha256_hex (s : string) : string := hex (sha256 (bytes_of_string s)).

End Sha256.

(** ** The Fabric ledger stub

    [ctx.stub] is a key/value store.  [getState] of a key that was never
    written yields an empty [Buffer]: an object, hence truthy, of length 0
    (the source tests [!buffer || buffer.length === 0]), whose text is the
    empty string, on which [JSON.parse] throws a [SyntaxError].  It is
    modelled as [None]; stored documents are kept parsed, since every value
    the chaincodes read back is the [JSON.parse] of what they wrote with
    [JSON.stringify].  [setEvent] and [console.log] write nothing that a later
    call reads and are left out. *)

Module Chaincode.

Inductive result (E A : Type) : Type :=
  | Ok (a : A)
  | Throw (e : E).
Arguments Ok {E A} a.
Arguments Throw {E A} e.

(** A chaincode call over a world of documents [V], throwing errors [E]. *)
Definition Tx (V E A : Type) : Type := gmap string V → result E A * gmap string V.

Definition ret {V E A} (a : A) : Tx V E A := λ w, (Ok a, w).

Definition throw {V E A} (e : E) : Tx V E A := λ w, (Throw e, w).

Definition bind {V E A B} (m : Tx V E A) (k : A → Tx V E B) : Tx V E B :=
  λ w, match m w with
       | (Ok a, w') => k a w'
       | (Throw e, w') => (Throw e, w')
       end.

Definition getState {V E} (key : string) : Tx V E (option V) :=
  λ w, (Ok (w !! key), w).

Definition putState {V E} (key : string) (v : V) : Tx V E unit :=
  λ w, (Ok tt, <[key := v]> w).

(** A transaction submitted to the ledger ([submitTransaction] of the
    gateway): the writes of a call that returns are committed, those of a
    call that throws are discarded. *)
Definition submit {V E A} (m : Tx V E A) : Tx V E A :=
  λ w, match m w with
       | (Ok a, w') => (Ok a, w')
       | (Throw e, _) => (Throw e, w)
       end.

(** The value a call returned, if it returned. *)
Definition returned {E A} (r : result E A) : option A :=
  match r with
  | Ok a => Some a
  | Throw _ => None
  end.

(** The transaction context: the clock read by [new Date()] in
    milliseconds (one reading serves the whole call, and a time stored with
    [toISOString] reads back as the same number), the transaction id and the
    caller's identity. *)
Record Context := { now : Z; txID : string; clientID : string }.

(** A JavaScript string is falsy exactly when it is empty. *)
Definition falsy (s : string) : bool := String.eqb s "".

(** [parseInt] on an optionally signed run of decimal digits; [None] is
    [NaN].  (Leading white space and the [0x] prefix are not modelled.) *)
Definition digit_of (c : ascii) : option Z :=
  let n := Z.of_N (N_of_ascii c) in
  if ((48 <=? n) && (n <=? 57))%Z then Some (n - 48)%Z else None.

Fixpoint parse_digits (acc : option Z) (s : string) : option Z :=
  match s with
  | EmptyString => acc
  | String c rest =>
      match digit_of c with
      | Some d => parse_digits (Some (10 * default 0 acc + d)%Z) rest
      | None => acc
      end
  end.

Definition parseInt (s : string) : option Z :=
  match s with
  | String "-" rest => Z.opp <$> parse_digits None rest
  | String "+" rest => parse_digits None rest
  | _ => parse_digits None s
  end.

End Chaincode.

Declare Scope tx_scope.
Delimit Scope tx_scope with tx.
Notation "'let!' x ':=' m 'in' k" := (Chaincode.bind m (λ x, k))
  (at level 10, x pattern, m at level 100, k at level 200) : tx_scope.
Notation "m ';;;' k" := (Chaincode.bind m (λ _, k))
  (at level 100, k at level 200, right associativity) : tx_scope.

(** ** Plain JavaScript objects used as tables

    An object built by [JSON.parse] or by the literal [{}] has the members of
    the text as its own properties and [Object.prototype] as its prototype.
    A read [o[key]] yields the own property when there is one, and otherwise
    what [Object.prototype] holds under that name: a function for eleven
    names and, for [__proto__], the prototype itself; all of them are truthy.
    An assignment [o[key] = v] writes an own property, except for
    [__proto__] on an object that has no such own property: the inherited
    setter then replaces the prototype and no own property is created, so
    that [JSON.stringify] shows nothing of it. *)

Module JsObject.

(** The property names of [Object.prototype]. *)
Definition inherited : list string :=
  ["constructor"; "__defineGetter__"; "__defineSetter__"; "hasOwnProperty";
   "__lookupGetter__"; "__lookupSetter__"; "isPrototypeOf";
   "propertyIsEnumerable"; "toString"; "valueOf"; "__proto__"; "toLocaleString"].

Inductive property (V : Type) : Type :=
  | Own (v : V)
  | Inherited
  | Undefined.
Arguments Own {V} v.
Arguments Inherited {V}.
Arguments Undefined {V}.

(** [o[key]] *)
Definition get {V} (o : gmap string V) (key : string) : property V :=
  match o !! key with
  | Some v => Own v
  | None => if bool_decide (key ∈ inherited) then Inherited else Undefined
  end.

(** [o[key] = v], for [v] an object, as [JSON.stringify] sees [o]
    afterwards. *)
Definition set {V} (o : gmap string V) (key : string) (v : V) : gmap string V :=
  match o !! key with
  | Some _ => <[key := v]> o
  | None => if bool_decide (key = "__proto__") then o else <[key := v]> o
  end.

End JsObject.

(** ** Merkle proof verification *)

(** *** The MerkleEngine contract of the specification

    A proof is an ordered list of [{siblingHash, isLeftSibling}]; the root is
    recomputed from the leaf by hashing [(sibling, acc)] when the sibling is
    on the left and [(acc, sibling)] when it is on the right.  [node l r] is
    the digest of the concatenation of [l] and [r] in the representation of
    hashes at hand. *)

Module MerkleSpec.

Record MerkleStep (H : Type) := { siblingHash : H; isLeftSibling : bool }.
Arguments siblingHash {H} _.
Arguments isLeftSibling {H} _.

Section Recompute.

Context {H : Type} (node : H → H → H).

Definition recompute_step (acc : H) (e : MerkleStep H) : H :=
  if isLeftSibling e then node (siblingHash e) acc else node acc (siblingHash e).

Definition recompute_root (leafHash : H) (proof : list (MerkleStep H)) : H :=
  fold_left recompute_step proof leafHash.

End Recompute.

(** Hashes as hexadecimal text, digest of the concatenated text. *)
Definition node_hex (l r : string) : string := Sha256.sha256_hex (l +:+ r).

(** Hashes as 32-byte words, digest of the concatenated bytes. *)
Definition node_bytes (l r : list N) : list N := Sha256.sha256 (l ++ r).

Definition spec_verifyProof (leafHash : string) (proof : list (MerkleStep string))
    (expectedRoot : string) : bool :=
  String.eqb (recompute_root node_hex leafHash proof) expectedRoot.

End MerkleSpec.

(** ** Fabric chaincode: [SidechainVerifierChaincode] *)

Module SidechainVerifierChaincode.
Import Chaincode.
Local Open Scope tx_scope.

(** A proof element as parsed from the [merkleProof] JSON argument. *)
Record ProofElement := { hash : string; left : bool }.

(** One turn of the loop of [verifyMerkleProof]. *)
Definition step (computedHash : string) (proofElement : ProofElement) : string :=
  if left proofElement
  then Sha256.sha256_hex (computedHash +:+ hash proofElement)
  else Sha256.sha256_hex (hash proofElement +:+ computedHash).

Definition verifyMerkleProof (leaf : string) (proof : list ProofElement)
    (root : string) : bool :=
  let computedHash := fold_left step proof leaf in
  String.eqb computedHash root.

(** The step of the specification's proof a proof element stands for.  The
    source documents a true [left] as "current element is on the left": the
    sibling is then the right one, and it is the left one when the flag is
    false. *)
Definition step_of (proofElement : ProofElement) : MerkleSpec.MerkleStep string :=
  {| MerkleSpec.siblingHash := hash proofElement;
     MerkleSpec.isLeftSibling := negb (left proofElement) |}.

(** [rootInfo]; [blockNumber] is [parseInt(blockNumber)]. *)
Record TrustedRoot := {
  sourceChain : string;
  blockNumber : option Z;
  merkleRoot : string;
  timestamp : Z;
  proof : string;
  status : string;
  verifiedTransactions : list string
}.

Record VerificationRecord := {
  transactionHash : string;
  vr_sourceChain : string;
  vr_blockNumber : option Z;
  transactionData : string;
  vr_timestamp : Z;
  verifier : string;
  vr_status : string
}.

Record Config := {
  chainId : string; trustedMainchain : string;
  trustedChains : list string; configStatus : string
}.

(** Documents of the verifier's world state: [CONFIG], the table
    [TRUSTED_ROOTS] keyed by [<sourceChain>:<blockNumber>], and one record per
    verified transaction under [verification~<transactionHash>]. *)
Inductive Doc :=
  | DConfig (c : Config)
  | DTrustedRoots (table : gmap string TrustedRoot)
  | DVerification (r : VerificationRecord).

Abbreviation World := (gmap string Doc).

Inductive Error :=
  | RootArgumentsRequired
  | AllParametersRequired
  | NoTrustedRoot (sourceChain blockNumber : string)
  | InvalidProofFormat
  | ProofVerificationFailed
  | VerificationNotFound (transactionHash : string)
  | RuntimeError.

Abbreviation M := (Tx Doc Error).

(** A JSON-encoded call argument: [Parsed v] when [JSON.parse] yields [v],
    [Malformed] when it throws. *)
Inductive Json (A : Type) := Parsed (v : A) | Malformed.
Arguments Parsed {A} v.
Arguments Malformed {A}.

Definition rootKey (sourceChain blockNumber : string) : string :=
  sourceChain +:+ ":" +:+ blockNumber.

Definition verificationKey (transactionHash : string) : string :=
  "verification~" +:+ transactionHash.

Definition readTrustedRoots : M (gmap string TrustedRoot) :=
  let! buffer := getState "TRUSTED_ROOTS" in
  match buffer with
  | Some (DTrustedRoots table) => ret table
  | _ => throw RuntimeError
  end.

(** [initLedger], with [process.env.CHAIN_ID || 'sidechain1'] passed in. *)
Definition initLedger (chain : string) : M unit :=
  putState "CONFIG"
    (DConfig {| chainId := chain; trustedMainchain := "mainchain";
                trustedChains := []; configStatus := "ACTIVE" |}) ;;;
  putState "TRUSTED_ROOTS" (DTrustedRoots ∅).

Definition setTrustedRoot (ctx : Context) (sourceChain blockNumber merkleRoot : string)
    (proof : Json string) : M TrustedRoot :=
  if falsy sourceChain || falsy blockNumber || falsy merkleRoot
  then throw RootArgumentsRequired else
  let! trustedRoots := readTrustedRoots in
  let! proof := match proof with
                | Parsed p => ret p
                | Malformed => throw RuntimeError
                end in
  let rootInfo :=
    {| sourceChain := sourceChain; blockNumber := parseInt blockNumber;
       merkleRoot := merkleRoot; timestamp := now ctx; proof := proof;
       status := "TRUSTED"; verifiedTransactions := [] |} in
  putState "TRUSTED_ROOTS"
    (DTrustedRoots (<[rootKey sourceChain blockNumber := rootInfo]> trustedRoots)) ;;;
  ret rootInfo.

(** [trustedRoot.verifiedTransactions.push(transactionHash)] *)
Definition push_verified (transactionHash : string) (r : TrustedRoot) : TrustedRoot :=
  {| sourceChain := sourceChain r; blockNumber := blockNumber r;
     merkleRoot := merkleRoot r; timestamp := timestamp r; proof := proof r;
     status := status r;
     verifiedTransactions := verifiedTransactions r ++ [transactionHash] |}.

(** [merkleProof] is [None] when the argument is missing or the empty
    string. *)
Definition verifyTransaction (ctx : Context)
    (sourceChain blockNumber transactionData : string)
    (merkleProof : option (Json (list ProofElement))) : M VerificationRecord :=
  match merkleProof with
  | None => throw AllParametersRequired
  | Some merkleProof =>
    if falsy sourceChain || falsy blockNumber || falsy transactionData
    then throw AllParametersRequired else
    let! trustedRoots := readTrustedRoots in
    match trustedRoots !! rootKey sourceChain blockNumber with
    | None => throw (NoTrustedRoot sourceChain blockNumber)
    | Some trustedRoot =>
      match merkleProof with
      | Malformed => throw InvalidProofFormat
      | Parsed proof =>
        let transactionHash :=
          Sha256.sha256_hex transactionData in
        let isValid := verifyMerkleProof transactionHash proof (merkleRoot trustedRoot) in
        if negb isValid then throw ProofVerificationFailed else
        let verificationRecord :=
          {| transactionHash := transactionHash; vr_sourceChain := sourceChain;
             vr_blockNumber := parseInt blockNumber;
             transactionData := transactionData; vr_timestamp := now ctx;
             verifier := clientID ctx; vr_status := "VERIFIED" |} in
        putState (verificationKey transactionHash) (DVerification verificationRecord) ;;;
        putState "TRUSTED_ROOTS"
          (DTrustedRoots
             (<[rootKey sourceChain blockNumber := push_verified transactionHash trustedRoot]>
                trustedRoots)) ;;;
        ret verificationRecord
      end
    end
  end.

Definition getVerificationRecord (transactionHash : string) : M VerificationRecord :=
  let! recordBuffer := getState (verificationKey transactionHash) in
  match recordBuffer with
  | None => throw (VerificationNotFound transactionHash)
  | Some (DVerification r) => ret r
  | Some _ => throw RuntimeError
  end.

Definition getTrustedRoot (sourceChain blockNumber : string) : M TrustedRoot :=
  let! trustedRoots := readTrustedRoots in
  match trustedRoots !! rootKey sourceChain blockNumber with
  | None => throw (NoTrustedRoot sourceChain blockNumber)
  | Some trustedRoot => ret trustedRoot
  end.

(** The trusted root stored for a chain and block, and the verification
    record stored for a transaction hash. *)
Definition trusted_root_at (w : World) (sourceChain blockNumber : string)
    : option TrustedRoot :=
  match w !! "TRUSTED_ROOTS" with
  | Some (DTrustedRoots table) => table !! rootKey sourceChain blockNumber
  | _ => None
  end.

Definition stored_verification (w : World) (transactionHash : string)
    : option VerificationRecord :=
  match w !! verificationKey transactionHash with
  | Some (DVerification r) => Some r
  | _ => None
  end.

End SidechainVerifierChaincode.

(** *** EVM port: [SidechainVerifier.verifyProof] *)

Module SidechainVerifierSol.

(** [bytes32] values are lists of 32 bytes; [abi.encodePacked] of two of them
    is their concatenation. *)
Abbreviation bytes32 := (list N).

(** The loop [for (uint i = 0; i < proof.length; i++)]; reading [lefts[i]]
    past the end of [lefts] reverts ([None]). *)
Fixpoint verifyProof_loop (computed : bytes32) (proof : list bytes32)
    (lefts : list bool) : option bytes32 :=
  match proof with
  | [] => Some computed
  | p :: proof' =>
      match lefts with
      | [] => None
      | l :: lefts' =>
          if l
          then verifyProof_loop (Sha256.sha256 (p ++ computed)) proof' lefts'
          else verifyProof_loop (Sha256.sha256 (computed ++ p)) proof' lefts'
      end
  end.

Definition verifyProof (leaf : bytes32) (proof : list bytes32) (lefts : list bool)
    (expectedRoot : bytes32) : option bool :=
  match verifyProof_loop leaf proof lefts with
  | Some computed => Some (bool_decide (computed = expectedRoot))
  | None => None
  end.

End SidechainVerifierSol.

(** ** Fabric chaincode: [AnchorRegistryChaincode] *)

Module AnchorRegistryChaincode.
Import Chaincode.
Local Open Scope tx_scope.

(** One entry of the [signatures] JSON array; an absent field reads as the
    empty string, which is falsy like [undefined]. *)
Record SignatureEntry := { validator : string; signature : string }.

(** [anchoredRoot]; [blockNumber] is [parseInt(blockNumber)]. *)
Record AnchoredRoot := {
  chainId : string;
  blockNumber : option Z;
  merkleRoot : string;
  timestamp : Z;
  txId : string;
  validatorSignatures : list SignatureEntry;
  metadata : string;
  status : string
}.

(** Documents of the registry's world state: [VALIDATORS],
    [REQUIRED_SIGNATURES] (kept as the text [initLedger] writes), an anchor
    under [root~<chainId>~<blockNumber>] and its index entry under
    [chain~<chainId>~<blockNumber>]. *)
Inductive Doc :=
  | DValidators (validators : list string)
  | DText (text : string)
  | DAnchor (a : AnchoredRoot).

Abbreviation World := (gmap string Doc).

Inductive Error :=
  | ArgumentsRequired
  | RootAlreadyAnchored (chainId blockNumber : string)
  | InvalidSignaturesFormat
  | NotInitialized
  | InsufficientSignatures (got : nat) (required : option Z)
  | InvalidSignatures (valid : nat)
  | RootNotFound (chainId blockNumber : string)
  | ValidatorAlreadyExists
  | RuntimeError.

Abbreviation M := (Tx Doc Error).

Inductive Json (A : Type) := Parsed (v : A) | Malformed.
Arguments Parsed {A} v.
Arguments Malformed {A}.

Definition initLedger : M unit :=
  putState "VALIDATORS"
    (DValidators ["validator1@org1.example.com"; "validator2@org2.example.com";
                  "validator3@org3.example.com"]) ;;;
  putState "REQUIRED_SIGNATURES" (DText "2").

Definition createRootKey (chainId blockNumber : string) : string :=
  "root~" +:+ chainId +:+ "~" +:+ blockNumber.

Definition createMessageHash (chainId blockNumber merkleRoot : string) : string :=
  let message := chainId +:+ ":" +:+ blockNumber +:+ ":" +:+ merkleRoot in
  Sha256.sha256_hex message.

(** [validators.includes(v)] *)
Definition includes (validators : list string) (v : string) : bool :=
  existsb (String.eqb v) validators.

(** [verifySignatures]: [expectedSig] is computed and never compared; an
    entry is kept when its validator is listed and its signature is a
    non-empty string. *)
Fixpoint verifySignatures (messageHash : string) (signatures : list SignatureEntry)
    (validators : list string) : list SignatureEntry :=
  match signatures with
  | [] => []
  | sig :: rest =>
      let validSignatures := verifySignatures messageHash rest validators in
      if negb (falsy (validator sig)) && includes validators (validator sig)
         && negb (falsy (signature sig))
      then
        let expectedSig := Sha256.sha256_hex (messageHash +:+ validator sig) in
        if (0 <? String.length (signature sig))%nat
        then sig :: validSignatures
        else validSignatures
      else validSignatures
  end.

(** [n < requiredSignatures], false when [requiredSignatures] is [NaN]. *)
Definition below (n : nat) (requiredSignatures : option Z) : bool :=
  match requiredSignatures with
  | Some r => (Z.of_nat n <? r)%Z
  | None => false
  end.

Definition anchorRoot (ctx : Context) (chainId blockNumber merkleRoot : string)
    (signatures : Json (list SignatureEntry)) (metadata : Json string)
    : M AnchoredRoot :=
  if falsy chainId || falsy blockNumber || falsy merkleRoot
  then throw ArgumentsRequired else
  let rootKey := createRootKey chainId blockNumber in
  let! existingRoot := getState rootKey in
  match existingRoot with
  | Some _ => throw (RootAlreadyAnchored chainId blockNumber)
  | None =>
    match signatures with
    | Malformed => throw InvalidSignaturesFormat
    | Parsed parsedSignatures =>
      let! validatorsBuffer := getState "VALIDATORS" in
      let! requiredSigsBuffer := getState "REQUIRED_SIGNATURES" in
      match validatorsBuffer, requiredSigsBuffer with
      | Some (DValidators validators), Some (DText required) =>
        let requiredSignatures := parseInt required in
        if below (length parsedSignatures) requiredSignatures
        then throw (InsufficientSignatures (length parsedSignatures) requiredSignatures)
        else
          let messageHash := createMessageHash chainId blockNumber merkleRoot in
          let validSignatures :=
            verifySignatures messageHash parsedSignatures validators in
          if below (length validSignatures) requiredSignatures
          then throw (InvalidSignatures (length validSignatures))
          else
            let! metadata := match metadata with
                             | Parsed m => ret m
                             | Malformed => throw RuntimeError
                             end in
            let anchoredRoot :=
              {| chainId := chainId; blockNumber := parseInt blockNumber;
                 merkleRoot := merkleRoot; timestamp := now ctx;
                 txId := txID ctx; validatorSignatures := validSignatures;
                 metadata := metadata; status := "ANCHORED" |} in
            putState rootKey (DAnchor anchoredRoot) ;;;
            let indexKey := "chain~" +:+ chainId +:+ "~" +:+ blockNumber in
            putState indexKey (DText rootKey) ;;;
            ret anchoredRoot
      | None, _ | _, None => throw NotInitialized
      | _, _ => throw RuntimeError
      end
    end
  end.

Definition getAnchoredRoot (chainId blockNumber : string) : M Doc :=
  let! rootBuffer := getState (createRootKey chainId blockNumber) in
  match rootBuffer with
  | None => throw (RootNotFound chainId blockNumber)
  | Some doc => ret doc
  end.

Definition isRootAnchored (chainId blockNumber : string) : M bool :=
  let! rootBuffer := getState (createRootKey chainId blockNumber) in
  ret (bool_decide (is_Some rootBuffer)).

Definition addValidator (validatorId : string) : M unit :=
  let! validatorsBuffer := getState "VALIDATORS" in
  match validatorsBuffer with
  | Some (DValidators validators) =>
      if includes validators validatorId then throw ValidatorAlreadyExists else
      putState "VALIDATORS" (DValidators (validators ++ [validatorId]))
  | _ => throw RuntimeError
  end.

(** The test [verifySignatures] applies to an entry. *)
Definition kept (validators : list string) (sig : SignatureEntry) : bool :=
  negb (falsy (validator sig)) && includes validators (validator sig)
  && negb (falsy (signature sig)).

(** The number of distinct validators of the current set among the signers
    of [signatures]: what a quorum counts. *)
Definition distinct_signers (validators : list string)
    (signatures : list SignatureEntry) : nat :=
  length (remove_dups
            (filter (λ v, v ∈ validators) (validator <$> signatures))).

End AnchorRegistryChaincode.

(** ** The EVM ports

    A contract call either succeeds with a value and a new storage, or
    reverts with a reason and leaves the storage as it was. *)

Module Evm.

Inductive outcome (S A : Type) : Type :=
  | Success (a : A) (s : S)
  | Revert (reason : string).
Arguments Success {S A} a s.
Arguments Revert {S A} reason.

(** [msg.sender] and [block.timestamp]. *)
Record Env := { sender : N; blockTimestamp : N }.

Definition uint256_limit : N := (2 ^ 256)%N.

(** The storage after a call: the new one, or the old one on revert. *)
Definition state_after {S A} (o : outcome S A) (st : S) : S :=
  match o with
  | Success _ st' => st'
  | Revert _ => st
  end.

End Evm.

(** *** [AnchorRegistry.sol] *)

Module AnchorRegistrySol.
Import Evm.

Section WithPrimitives.

(** The two EVM primitives the contract calls: [keccak256] from bytes to a
    32-byte word, and the precompile [ecrecover(hash, v, r, s)] returning an
    address (0 when recovery fails). *)
Context (keccak256 : list N → list N).
Context (ecrecover : list N → N → list N → list N → N).

Record Anchor := {
  root : list N;
  chainId : N;
  blockNumber : N;
  timestamp : N;
  submitter : N
}.

Definition zeroAnchor : Anchor :=
  {| root := repeat 0%N 32; chainId := 0; blockNumber := 0;
     timestamp := 0; submitter := 0 |}.

Record State := {
  anchors : gmap (list N) Anchor;
  isValidator : gmap N bool;
  requiredSignatures : N;
  validatorsList : list N
}.

(** Reading a mapping yields the zero value for an absent key. *)
Definition anchorAt (st : State) (key : list N) : Anchor :=
  default zeroAnchor (anchors st !! key).

Definition validatorAt (st : State) (a : N) : bool :=
  default false (isValidator st !! a).

Definition set_anchor (key : list N) (a : Anchor) (st : State) : State :=
  {| anchors := <[key := a]> (anchors st); isValidator := isValidator st;
     requiredSignatures := requiredSignatures st;
     validatorsList := validatorsList st |}.

(** [abi.encodePacked] of a [uint64]: eight big-endian bytes. *)
Definition packed64 (x : N) : list N := Sha256.be_bytes 8 x.

(** ["\x19Ethereum Signed Message:\n32"] *)
Definition eth_prefix : list N :=
  25%N :: Sha256.bytes_of_string "Ethereum Signed Message:" ++ [10%N; 51%N; 50%N].

Definition recoverSigner (hash sig : list N) : N :=
  if negb (length sig =? 65)%nat then 0%N else
  let r := take 32 sig in
  let s := take 32 (drop 32 sig) in
  let v := nth 64 sig 0%N in
  let v := if (v <? 27)%N then (v + 27)%N else v in
  if negb (v =? 27)%N && negb (v =? 28)%N then 0%N else
  let prefixed := keccak256 (eth_prefix ++ hash) in
  ecrecover prefixed v r s.

(** The signature loop of [anchorRoot]: [seenAddrs] holds the first
    [seenCount] cells of the memory array, [valid] the running count; the
    result is [valid] when the loop ends or breaks. *)
Fixpoint count_valid (st : State) (message : list N) (signatures : list (list N))
    (seenAddrs : list N) (valid : N) : N :=
  match signatures with
  | [] => valid
  | sig :: rest =>
      if negb (length sig =? 65)%nat then count_valid st message rest seenAddrs valid else
      let signer := recoverSigner message sig in
      if (signer =? 0)%N then count_valid st message rest seenAddrs valid else
      if negb (validatorAt st signer) then count_valid st message rest seenAddrs valid else
      let already := existsb (N.eqb signer) seenAddrs in
      if already then count_valid st message rest seenAddrs valid else
      let seenAddrs := seenAddrs ++ [signer] in
      let valid := (valid + 1)%N in
      if (requiredSignatures st <=? valid)%N then valid
      else count_valid st message rest seenAddrs valid
  end.

Definition anchorKey (chainId blockNumber : N) : list N :=
  keccak256 (packed64 chainId ++ packed64 blockNumber).

Definition anchorMessage (chainId blockNumber : N) (merkleRoot : list N) : list N :=
  keccak256 (packed64 chainId ++ packed64 blockNumber ++ merkleRoot).

Definition anchorRoot (env : Env) (chainId blockNumber : N) (merkleRoot : list N)
    (signatures : list (list N)) (st : State) : outcome State unit :=
  let key := anchorKey chainId blockNumber in
  if negb (timestamp (anchorAt st key) =? 0)%N
  then Revert "root already anchored for this chain/block" else
  if negb (requiredSignatures st <=? N.of_nat (length signatures))%N
  then Revert "not enough signatures" else
  let message := anchorMessage chainId blockNumber merkleRoot in
  let valid := count_valid st message signatures [] 0%N in
  if negb (requiredSignatures st <=? valid)%N
  then Revert "insufficient valid signatures" else
  Success tt
    (set_anchor key
       {| root := merkleRoot; chainId := chainId; blockNumber := blockNumber;
          timestamp := blockTimestamp env; submitter := sender env |} st).

Definition getAnchor (chainId blockNumber : N) (st : State) : list N * N * N :=
  let a := anchorAt st (anchorKey chainId blockNumber) in
  (root a, timestamp a, submitter a).

(** The validators of the current set that signed [message], one entry per
    signature that recovers to a listed validator. *)
Definition valid_signers (st : State) (message : list N)
    (signatures : list (list N)) : list N :=
  filter (λ a, a ≠ 0%N ∧ validatorAt st a = true)
         (recoverSigner message <$> signatures).

(** The distinct signers still to be counted once the addresses in [seen]
    have been: listed validators recovered from [signatures] that are not in
    [seen]. *)
Definition fresh (st : State) (message : list N) (seen : list N)
    (signatures : list (list N)) : gset N :=
  list_to_set (filter (λ a, a ∉ seen) (valid_signers st message signatures)).

End WithPrimitives.

End AnchorRegistrySol.

(** ** Fabric chaincode: [ScimpCoordinatorChaincode] *)

Module ScimpCoordinatorChaincode.
Import Chaincode.
Local Open Scope tx_scope.

Module Status.
Inductive t := PREPARING | PREPARED | COMMITTED | ABORTED | COMPLETED.
Definition eqb (a b : t) : bool :=
  match a, b with
  | PREPARING, PREPARING | PREPARED, PREPARED | COMMITTED, COMMITTED
  | ABORTED, ABORTED | COMPLETED, COMPLETED => true
  | _, _ => false
  end.
End Status.

Module Preparation.
Inductive status := WAITING | PREPARED.
(** [{status, timestamp, data}] *)
Record t := { status_of : status; timestamp : option Z; data : option string }.
End Preparation.

Module Confirmation.
Inductive status := PENDING | CONFIRMED.
(** [{status, timestamp}] *)
Record t := { status_of : status; timestamp : option Z }.
End Confirmation.

Module Phase.
Inductive t := PREPARE | COMMIT | COMPLETED.
End Phase.

(** The epoch object.  [timeout] is [None] when [parseInt] gave [NaN] or an
    infinite number, which [JSON.stringify] stores as [null]; the fields
    added by [commit], [abortEpoch] and [confirmCommit] are [None] until
    then. *)
Record Epoch := {
  epochId : string;
  status : Status.t;
  participants : list string;
  preparations : gmap string Preparation.t;
  votes : gmap string (option string);
  startTime : Z;
  timeout : option Z;
  coordinator : string;
  metadata : string;
  phase : Phase.t;
  commitTime : option Z;
  commitConfirmations : option (gmap string Confirmation.t);
  abortTime : option Z;
  abortReason : option string;
  completionTime : option Z
}.

Definition set_preparations (f : gmap string Preparation.t → gmap string Preparation.t)
    (e : Epoch) : Epoch :=
  {| epochId := epochId e; status := status e; participants := participants e;
     preparations := f (preparations e); votes := votes e;
     startTime := startTime e; timeout := timeout e; coordinator := coordinator e;
     metadata := metadata e; phase := phase e; commitTime := commitTime e;
     commitConfirmations := commitConfirmations e; abortTime := abortTime e;
     abortReason := abortReason e; completionTime := completionTime e |}.

Definition set_status (s : Status.t) (e : Epoch) : Epoch :=
  {| epochId := epochId e; status := s; participants := participants e;
     preparations := preparations e; votes := votes e;
     startTime := startTime e; timeout := timeout e; coordinator := coordinator e;
     metadata := metadata e; phase := phase e; commitTime := commitTime e;
     commitConfirmations := commitConfirmations e; abortTime := abortTime e;
     abortReason := abortReason e; completionTime := completionTime e |}.

Definition set_phase (p : Phase.t) (e : Epoch) : Epoch :=
  {| epochId := epochId e; status := status e; participants := participants e;
     preparations := preparations e; votes := votes e;
     startTime := startTime e; timeout := timeout e; coordinator := coordinator e;
     metadata := metadata e; phase := p; commitTime := commitTime e;
     commitConfirmations := commitConfirmations e; abortTime := abortTime e;
     abortReason := abortReason e; completionTime := completionTime e |}.

Definition set_commit (t : Z) (c : gmap string Confirmation.t) (e : Epoch) : Epoch :=
  {| epochId := epochId e; status := status e; participants := participants e;
     preparations := preparations e; votes := votes e;
     startTime := startTime e; timeout := timeout e; coordinator := coordinator e;
     metadata := metadata e; phase := phase e; commitTime := Some t;
     commitConfirmations := Some c; abortTime := abortTime e;
     abortReason := abortReason e; completionTime := completionTime e |}.

Definition set_confirmations (c : gmap string Confirmation.t) (e : Epoch) : Epoch :=
  {| epochId := epochId e; status := status e; participants := participants e;
     preparations := preparations e; votes := votes e;
     startTime := startTime e; timeout := timeout e; coordinator := coordinator e;
     metadata := metadata e; phase := phase e; commitTime := commitTime e;
     commitConfirmations := Some c; abortTime := abortTime e;
     abortReason := abortReason e; completionTime := completionTime e |}.

Definition set_abort (t : Z) (reason : string) (e : Epoch) : Epoch :=
  {| epochId := epochId e; status := status e; participants := participants e;
     preparations := preparations e; votes := votes e;
     startTime := startTime e; timeout := timeout e; coordinator := coordinator e;
     metadata := metadata e; phase := phase e; commitTime := commitTime e;
     commitConfirmations := commitConfirmations e; abortTime := Some t;
     abortReason := Some reason; completionTime := completionTime e |}.

Definition set_completionTime (t : Z) (e : Epoch) : Epoch :=
  {| epochId := epochId e; status := status e; participants := participants e;
     preparations := preparations e; votes := votes e;
     startTime := startTime e; timeout := timeout e; coordinator := coordinator e;
     metadata := metadata e; phase := phase e; commitTime := commitTime e;
     commitConfirmations := commitConfirmations e; abortTime := abortTime e;
     abortReason := abortReason e; completionTime := Some t |}.

(** The coordinator configuration written by [initLedger]. *)
Record Config := {
  coordinatorId : string; maxParticipants : Z; defaultTimeout : Z; configStatus : string
}.

(** Documents of the coordinator's world state: [CONFIG], the epoch tables
    [ACTIVE_EPOCHS], [COMPLETED_EPOCHS], [ABORTED_EPOCHS], and one record per
    epoch under [epoch~<epochId>]. *)
Inductive Doc :=
  | DConfig (c : Config)
  | DEpochs (table : gmap string Epoch)
  | DEpoch (e : Epoch).

Abbreviation World := (gmap string Doc).

(** The messages of the [Error]s the chaincode throws, and [RuntimeError]
    for what the JavaScript runtime throws ([TypeError] on a property of
    [undefined], [SyntaxError] from [JSON.parse]). *)
Inductive Error :=
  | ArgumentsRequired
  | InvalidParticipantsFormat
  | NoParticipants
  | EpochAlreadyExists (epochId : string)
  | EpochNotFound (epochId : string)
  | CannotPrepare (epochId : string) (s : Status.t)
  | NotAParticipant (participantId epochId : string)
  | AlreadyPrepared (participantId epochId : string)
  | EpochTimedOut (epochId : string)
  | CannotCommit (epochId : string) (s : Status.t)
  | NotAllPrepared
  | CommittedEpochNotFound (epochId : string)
  | NotCommitted (epochId : string)
  | RuntimeError.

Abbreviation M := (Tx Doc Error).

(** A JSON-encoded call argument: [Parsed v] when [JSON.parse] yields [v],
    [Malformed] when it throws. *)
Inductive Json (A : Type) := Parsed (v : A) | Malformed.
Arguments Parsed {A} v.
Arguments Malformed {A}.

Definition epochKey (epochId : string) : string := "epoch~" +:+ epochId.

(** [JSON.parse((await getState(key)).toString())] of an epoch table: the
    text of an unwritten key is empty and [JSON.parse] throws. *)
Definition readTable (key : string) : M (gmap string Epoch) :=
  let! buffer := getState key in
  match buffer with
  | Some (DEpochs table) => ret table
  | _ => throw RuntimeError
  end.

(** [JSON.parse((await getState(key) || Buffer.from('{}')).toString())]: the
    empty [Buffer] of an unwritten key is truthy, so the default is never
    taken and [JSON.parse] throws on the empty text, as in [readTable]. *)
Definition readTableOrEmpty (key : string) : M (gmap string Epoch) :=
  let! buffer := getState key in
  match buffer with
  | None => throw RuntimeError
  | Some (DEpochs table) => ret table
  | Some _ => throw RuntimeError
  end.

(** [getState(`epoch~${epochId}`)] followed by the not-found test and
    [JSON.parse]. *)
Definition readEpoch (epochId : string) : M Epoch :=
  let! epochBuffer := getState (epochKey epochId) in
  match epochBuffer with
  | None => throw (EpochNotFound epochId)
  | Some (DEpoch epoch) => ret epoch
  | Some _ => throw RuntimeError
  end.

Definition parseJson {A} (text : Json A) : M A :=
  match text with
  | Parsed v => ret v
  | Malformed => throw RuntimeError
  end.

Definition initLedger : M unit :=
  putState "CONFIG"
    (DConfig {| coordinatorId := "scimp-coordinator"; maxParticipants := 10;
                defaultTimeout := 300000; configStatus := "ACTIVE" |}) ;;;
  putState "ACTIVE_EPOCHS" (DEpochs ∅).

(** The preparation state every participant starts with. *)
Definition waiting : Preparation.t :=
  {| Preparation.status_of := Preparation.WAITING;
     Preparation.timestamp := None;
     Preparation.data := None |}.

(** The loop initialising [preparations]: [epoch.preparations[participant] =
    {...}], which for the participant [__proto__] replaces the prototype and
    stores nothing. *)
Definition initial_preparations (participantList : list string)
    : gmap string Preparation.t :=
  fold_left (λ acc participant, JsObject.set acc participant waiting)
    participantList ∅.

(** The loop's [epoch.votes[participant] = null]: for [__proto__] the first
    assignment sets the prototype of [votes] to [null]; the name is an
    ordinary one from then on, and a later assignment creates the own
    property.  The flag tells whether the prototype has been set to [null]. *)
Definition initial_votes (participantList : list string) : gmap string (option string) :=
  (fold_left
     (λ '(acc, bare) participant,
        if bool_decide (participant = "__proto__") && negb bare
        then (acc, true)
        else (<[participant := None]> acc, bare))
     participantList (∅, false)).1.

(** [beginEpoch]; [timeout] is the number [parseInt(timeout)] yields, as
    [JSON.stringify] keeps it: [None] when it is [NaN] or infinite, which is
    stored as [null]. *)
Definition beginEpoch (ctx : Context) (epochId : string)
    (participants : option (Json (list string))) (timeout : option Z)
    (metadata : Json string) : M Epoch :=
  match participants with
  | None => throw ArgumentsRequired
  | Some participants =>
    if falsy epochId then throw ArgumentsRequired else
    match participants with
    | Malformed => throw InvalidParticipantsFormat
    | Parsed participantList =>
      if (length participantList =? 0)%nat then throw NoParticipants else
      let! activeEpochs := readTable "ACTIVE_EPOCHS" in
      (* if (activeEpochs[epochId]) *)
      match JsObject.get activeEpochs epochId with
      | JsObject.Own _ | JsObject.Inherited => throw (EpochAlreadyExists epochId)
      | JsObject.Undefined =>
        let! metadata := parseJson metadata in
        let epoch :=
          {| epochId := epochId; status := Status.PREPARING;
             participants := participantList;
             preparations := initial_preparations participantList;
             votes := initial_votes participantList;
             startTime := now ctx; timeout := timeout;
             coordinator := clientID ctx; metadata := metadata;
             phase := Phase.PREPARE; commitTime := None;
             commitConfirmations := None; abortTime := None;
             abortReason := None; completionTime := None |} in
        putState "ACTIVE_EPOCHS" (DEpochs (JsObject.set activeEpochs epochId epoch)) ;;;
        putState (epochKey epochId) (DEpoch epoch) ;;;
        ret epoch
      end
    end
  end.

(** [epoch.participants.every(p => epoch.preparations[p].status ===
    'PREPARED')]: stops at the first participant that is not prepared.  An
    inherited member has no [status], and the test is false; [None] when
    [epoch.preparations[p]] is [undefined] (a [TypeError]). *)
Fixpoint every_prepared (preparations : gmap string Preparation.t)
    (ps : list string) : option bool :=
  match ps with
  | [] => Some true
  | p :: rest =>
      match JsObject.get preparations p with
      | JsObject.Undefined => None
      | JsObject.Own {| Preparation.status_of := Preparation.PREPARED |} =>
          every_prepared preparations rest
      | JsObject.Own _ | JsObject.Inherited => Some false
      end
  end.

Definition allPrepared (epoch : Epoch) : M bool :=
  match every_prepared (preparations epoch) (participants epoch) with
  | Some b => ret b
  | None => throw RuntimeError
  end.

(** [now.getTime() - startTime.getTime() > epoch.timeout]; a [null] timeout
    compares as 0. *)
Definition timedOut (ctx : Context) (epoch : Epoch) : bool :=
  (now ctx - startTime epoch >? default 0 (timeout epoch))%Z.

(** [abortEpoch]: no test of the current status. *)
Definition abortEpoch (ctx : Context) (epochId reason : string) : M Epoch :=
  let! epoch := readEpoch epochId in
  let epoch :=
    set_abort (now ctx) reason (set_phase Phase.COMPLETED (set_status Status.ABORTED epoch)) in
  putState (epochKey epochId) (DEpoch epoch) ;;;
  let! activeEpochs := readTable "ACTIVE_EPOCHS" in
  putState "ACTIVE_EPOCHS" (DEpochs (delete epochId activeEpochs)) ;;;
  let! abortedEpochs := readTableOrEmpty "ABORTED_EPOCHS" in
  putState "ABORTED_EPOCHS" (DEpochs (JsObject.set abortedEpochs epochId epoch)) ;;;
  ret epoch.

(** [abort(ctx, epochId, reason = 'MANUAL_ABORT')] *)
Definition abort (ctx : Context) (epochId : string) (reason : option string) : M Epoch :=
  abortEpoch ctx epochId (default "MANUAL_ABORT" reason).

Record PrepareResult := {
  pr_epochId : string; pr_participantId : string;
  pr_status : Preparation.status; pr_allPrepared : bool
}.

Definition prepare (ctx : Context) (epochId participantId : string)
    (preparationData : Json string) : M PrepareResult :=
  if falsy epochId || falsy participantId then throw ArgumentsRequired else
  let! epoch := readEpoch epochId in
  if negb (Status.eqb (status epoch) Status.PREPARING)
  then throw (CannotPrepare epochId (status epoch)) else
  if negb (bool_decide (participantId ∈ participants epoch))
  then throw (NotAParticipant participantId epochId) else
  (* epoch.preparations[participantId].status !== 'WAITING' *)
  match JsObject.get (preparations epoch) participantId with
  | JsObject.Undefined => throw RuntimeError
  | JsObject.Inherited
  | JsObject.Own {| Preparation.status_of := Preparation.PREPARED |} =>
      throw (AlreadyPrepared participantId epochId)
  | JsObject.Own {| Preparation.status_of := Preparation.WAITING |} =>
    if timedOut ctx epoch
    then abortEpoch ctx epochId "TIMEOUT" ;;; throw (EpochTimedOut epochId)
    else
      let! data := parseJson preparationData in
      let epoch :=
        set_preparations
          (insert participantId
             {| Preparation.status_of := Preparation.PREPARED;
                Preparation.timestamp := Some (now ctx);
                Preparation.data := Some data |}) epoch in
      let! allPrepared := allPrepared epoch in
      let epoch :=
        if allPrepared
        then set_phase Phase.COMMIT (set_status Status.PREPARED epoch)
        else epoch in
      putState (epochKey epochId) (DEpoch epoch) ;;;
      let! activeEpochs := readTable "ACTIVE_EPOCHS" in
      putState "ACTIVE_EPOCHS" (DEpochs (JsObject.set activeEpochs epochId epoch)) ;;;
      ret {| pr_epochId := epochId; pr_participantId := participantId;
             pr_status := Preparation.PREPARED; pr_allPrepared := allPrepared |}
  end.

(** The loop initialising [commitConfirmations]. *)
Definition initial_confirmations (participants : list string)
    : gmap string Confirmation.t :=
  fold_left
    (λ acc participant,
       JsObject.set acc participant
         {| Confirmation.status_of := Confirmation.PENDING;
            Confirmation.timestamp := None |})
    participants ∅.

Definition commit (ctx : Context) (epochId : string) : M Epoch :=
  if falsy epochId then throw ArgumentsRequired else
  let! epoch := readEpoch epochId in
  if negb (Status.eqb (status epoch) Status.PREPARED)
  then throw (CannotCommit epochId (status epoch)) else
  let! allPrepared := allPrepared epoch in
  if negb allPrepared then throw NotAllPrepared else
  let epoch :=
    set_commit (now ctx) (initial_confirmations (participants epoch))
      (set_phase Phase.COMPLETED (set_status Status.COMMITTED epoch)) in
  putState (epochKey epochId) (DEpoch epoch) ;;;
  let! activeEpochs := readTable "ACTIVE_EPOCHS" in
  putState "ACTIVE_EPOCHS" (DEpochs (delete epochId activeEpochs)) ;;;
  let! completedEpochs := readTableOrEmpty "COMPLETED_EPOCHS" in
  putState "COMPLETED_EPOCHS" (DEpochs (JsObject.set completedEpochs epochId epoch)) ;;;
  ret epoch.

(** [epoch.participants.every(p => epoch.commitConfirmations[p].status ===
    'CONFIRMED')].  [replaced] tells that the assignment before it has made
    the confirmation just written the prototype of [commitConfirmations]
    (the caller was [__proto__]): a name that is not an own property is then
    looked up in that object, whose members are [status] and [timestamp],
    before [Object.prototype], and [__proto__] reads as that object, which
    is confirmed. *)
Fixpoint every_confirmed (confirmations : gmap string Confirmation.t)
    (replaced : bool) (ps : list string) : option bool :=
  match ps with
  | [] => Some true
  | p :: rest =>
      match confirmations !! p with
      | Some {| Confirmation.status_of := Confirmation.CONFIRMED |} =>
          every_confirmed confirmations replaced rest
      | Some _ => Some false
      | None =>
          if replaced && bool_decide (p = "__proto__")
          then every_confirmed confirmations replaced rest
          else if bool_decide (p ∈ JsObject.inherited)
                  || (replaced && bool_decide (p ∈ ["status"; "timestamp"]))
          then Some false
          else None
      end
  end.

Record ConfirmResult := {
  cr_epochId : string; cr_participantId : string;
  cr_confirmed : bool; cr_allConfirmed : bool
}.

Definition confirmCommit (ctx : Context) (epochId participantId : string)
    : M ConfirmResult :=
  let! completedEpochs := readTableOrEmpty "COMPLETED_EPOCHS" in
  match JsObject.get completedEpochs epochId with
  | JsObject.Undefined => throw (CommittedEpochNotFound epochId)
  | JsObject.Inherited =>
      (* a member of Object.prototype: truthy, and its [status] is undefined *)
      throw (NotCommitted epochId)
  | JsObject.Own epoch =>
    if negb (Status.eqb (status epoch) Status.COMMITTED)
    then throw (NotCommitted epochId) else
    match commitConfirmations epoch with
    | None => throw RuntimeError
    | Some confirmations =>
      (* if (epoch.commitConfirmations[participantId]) { ... = {...} } *)
      let confirmed :=
        {| Confirmation.status_of := Confirmation.CONFIRMED;
           Confirmation.timestamp := Some (now ctx) |} in
      let '(confirmations, replaced) :=
        match JsObject.get confirmations participantId with
        | JsObject.Own _ => (<[participantId := confirmed]> confirmations, false)
        | JsObject.Inherited =>
            (JsObject.set confirmations participantId confirmed,
             bool_decide (participantId = "__proto__"))
        | JsObject.Undefined => (confirmations, false)
        end in
      let epoch := set_confirmations confirmations epoch in
      match every_confirmed confirmations replaced (participants epoch) with
      | None => throw RuntimeError
      | Some allConfirmed =>
        let epoch :=
          if allConfirmed
          then set_completionTime (now ctx) (set_status Status.COMPLETED epoch)
          else epoch in
        putState "COMPLETED_EPOCHS" (DEpochs (<[epochId := epoch]> completedEpochs)) ;;;
        putState (epochKey epochId) (DEpoch epoch) ;;;
        ret {| cr_epochId := epochId; cr_participantId := participantId;
               cr_confirmed := true; cr_allConfirmed := allConfirmed |}
      end
    end
  end.

(** What [getEpochStatus] returns: the text of an epoch, or, for an epoch id
    that names a member of [Object.prototype], the [JSON.stringify] of that
    member: [{}] for [__proto__] and [undefined] for a function. *)
Inductive StatusReply :=
  | EpochReply (epoch : Epoch)
  | EmptyObjectReply
  | UndefinedReply.

Definition getEpochStatus (epochId : string) : M StatusReply :=
  let! activeEpochs := readTable "ACTIVE_EPOCHS" in
  match JsObject.get activeEpochs epochId with
  | JsObject.Own epoch => ret (EpochReply epoch)
  | JsObject.Inherited =>
      ret (if bool_decide (epochId = "__proto__") then EmptyObjectReply
           else UndefinedReply)
  | JsObject.Undefined =>
    let! epochBuffer := getState (epochKey epochId) in
    match epochBuffer with
    | Some (DEpoch epoch) => ret (EpochReply epoch)
    | Some _ => throw RuntimeError
    | None => throw (EpochNotFound epochId)
    end
  end.

(** [cleanupTimeouts]: walks the entries of the [ACTIVE_EPOCHS] table read at
    the start and aborts the timed-out ones.  The table's entries are taken
    in the order of [map_to_list]. *)
Fixpoint cleanup_loop (ctx : Context) (entries : list (string * Epoch))
    (timedOutEpochs : list string) : M (list string) :=
  match entries with
  | [] => ret timedOutEpochs
  | (epochId, epoch) :: rest =>
      if timedOut ctx epoch
      then abortEpoch ctx epochId "TIMEOUT" ;;;
           cleanup_loop ctx rest (timedOutEpochs ++ [epochId])
      else cleanup_loop ctx rest timedOutEpochs
  end.

Definition cleanupTimeouts (ctx : Context) : M (list string) :=
  let! activeEpochs := readTable "ACTIVE_EPOCHS" in
  cleanup_loop ctx (map_to_list activeEpochs) [].

(** A transaction submitted to the contract. *)
Inductive Call :=
  | CallInitLedger
  | CallBeginEpoch (ctx : Context) (epochId : string)
      (participants : option (Json (list string))) (timeout : option Z)
      (metadata : Json string)
  | CallPrepare (ctx : Context) (epochId participantId : string)
      (preparationData : Json string)
  | CallCommit (ctx : Context) (epochId : string)
  | CallAbort (ctx : Context) (epochId : string) (reason : option string)
  | CallConfirmCommit (ctx : Context) (epochId participantId : string)
  | CallCleanupTimeouts (ctx : Context).

(** The ledger after the transaction: its writes when the call returns, the
    ledger as it was when the call throws. *)
Definition run (c : Call) (w : World) : World :=
  match c with
  | CallInitLedger => (submit initLedger w).2
  | CallBeginEpoch ctx epochId participants timeout metadata =>
      (submit (beginEpoch ctx epochId participants timeout metadata) w).2
  | CallPrepare ctx epochId participantId preparationData =>
      (submit (prepare ctx epochId participantId preparationData) w).2
  | CallCommit ctx epochId => (submit (commit ctx epochId) w).2
  | CallAbort ctx epochId reason => (submit (abort ctx epochId reason) w).2
  | CallConfirmCommit ctx epochId participantId =>
      (submit (confirmCommit ctx epochId participantId) w).2
  | CallCleanupTimeouts ctx => (submit (cleanupTimeouts ctx) w).2
  end.

(** The ledger after a sequence of transactions on the initialised ledger. *)
Definition after (calls : list Call) : World :=
  fold_left (λ w c, run c w) calls (initLedger ∅).2.

(** The record stored for an epoch under [epoch~<epochId>]. *)
Definition stored_epoch (w : World) (epochId : string) : option Epoch :=
  match w !! epochKey epochId with
  | Some (DEpoch epoch) => Some epoch
  | _ => None
  end.

(** The [ACTIVE_EPOCHS] table of a ledger. *)
Definition active_epochs (w : World) : gmap string Epoch :=
  match w !! "ACTIVE_EPOCHS" with
  | Some (DEpochs table) => table
  | _ => ∅
  end.

(** Some entry of the table has timed out at the time of [ctx]. *)
Definition some_timed_out (ctx : Context) (table : gmap string Epoch) : bool :=
  existsb (λ entry, timedOut ctx entry.2) (map_to_list table).

(** The preparation status recorded for a participant. *)
Definition preparation_of (e : Epoch) (participantId : string)
    : option Preparation.status :=
  Preparation.status_of <$> preparations e !! participantId.

(** What every transaction keeps true of the ledger: [ACTIVE_EPOCHS] holds a
    table, [COMPLETED_EPOCHS] and [ABORTED_EPOCHS] are unwritten, every
    document under [epoch~<epochId>] is an epoch record and [epochId] is not
    the name of a member of [Object.prototype], every epoch record is in
    state [PREPARING] or [PREPARED], and every entry of [ACTIVE_EPOCHS] is
    the record stored for its id. *)
Definition is_table (d : option Doc) : Prop := ∃ table, d = Some (DEpochs table).

Definition preparing_or_prepared (e : Epoch) : Prop :=
  status e = Status.PREPARING ∨ status e = Status.PREPARED.

Definition ledger_ok (w : World) : Prop :=
  is_table (w !! "ACTIVE_EPOCHS")
  ∧ w !! "COMPLETED_EPOCHS" = None
  ∧ w !! "ABORTED_EPOCHS" = None
  ∧ (∀ epochId d, w !! epochKey epochId = Some d →
       (epochId ∉ JsObject.inherited) ∧ ∃ e, d = DEpoch e)
  ∧ (∀ key e, w !! key = Some (DEpoch e) → preparing_or_prepared e)
  ∧ ∀ epochId e, active_epochs w !! epochId = Some e →
      stored_epoch w epochId = Some e.

End ScimpCoordinatorChaincode.
(** *** [ScimpCoordinator.sol] *)

Module ScimpCoordinatorSol.
Import Evm.

Inductive EpochStatus := NONE | PREPARING | PREPARED | COMMITTED | ABORTED | COMPLETED.

Definition status_eqb (a b : EpochStatus) : bool :=
  match a, b with
  | NONE, NONE | PREPARING, PREPARING | PREPARED, PREPARED
  | COMMITTED, COMMITTED | ABORTED, ABORTED | COMPLETED, COMPLETED => true
  | _, _ => false
  end.

(** The [Epoch] struct; the two mappings read 0 for an absent address. *)
Record Epoch := {
  id : list N;
  status : EpochStatus;
  coordinator : N;
  participants : list N;
  startTime : N;
  timeout : N;
  preparationState : gmap N N;
  commitConfirmation : gmap N N;
  exists_ : bool
}.

Definition zeroEpoch : Epoch :=
  {| id := repeat 0%N 32; status := NONE; coordinator := 0; participants := [];
     startTime := 0; timeout := 0; preparationState := ∅;
     commitConfirmation := ∅; exists_ := false |}.

Record State := {
  epochs : gmap (list N) Epoch;
  activeEpochKeys : list (list N)
}.

Definition set_status (s : EpochStatus) (e : Epoch) : Epoch :=
  {| id := id e; status := s; coordinator := coordinator e;
     participants := participants e; startTime := startTime e;
     timeout := timeout e; preparationState := preparationState e;
     commitConfirmation := commitConfirmation e; exists_ := exists_ e |}.

Definition set_preparationState (a : N) (v : N) (e : Epoch) : Epoch :=
  {| id := id e; status := status e; coordinator := coordinator e;
     participants := participants e; startTime := startTime e;
     timeout := timeout e; preparationState := <[a := v]> (preparationState e);
     commitConfirmation := commitConfirmation e; exists_ := exists_ e |}.

Definition set_commitConfirmation (a : N) (v : N) (e : Epoch) : Epoch :=
  {| id := id e; status := status e; coordinator := coordinator e;
     participants := participants e; startTime := startTime e;
     timeout := timeout e; preparationState := preparationState e;
     commitConfirmation := <[a := v]> (commitConfirmation e); exists_ := exists_ e |}.

(** [e.participants.push(p); e.preparationState[p] = 0;
    e.commitConfirmation[p] = 0] *)
Definition add_participant (e : Epoch) (p : N) : Epoch :=
  {| id := id e; status := status e; coordinator := coordinator e;
     participants := participants e ++ [p]; startTime := startTime e;
     timeout := timeout e; preparationState := <[p := 0%N]> (preparationState e);
     commitConfirmation := <[p := 0%N]> (commitConfirmation e);
     exists_ := exists_ e |}.

Definition preparedAt (e : Epoch) (a : N) : N := default 0%N (preparationState e !! a).
Definition confirmedAt (e : Epoch) (a : N) : N := default 0%N (commitConfirmation e !! a).

Section WithKeccak.

Context (keccak256 : list N → list N).

Definition epochKey (epochId : string) : list N :=
  keccak256 (Sha256.bytes_of_string epochId).

Definition epochAt (st : State) (key : list N) : Epoch :=
  default zeroEpoch (epochs st !! key).

Definition set_epoch (key : list N) (e : Epoch) (st : State) : State :=
  {| epochs := <[key := e]> (epochs st); activeEpochKeys := activeEpochKeys st |}.

Definition beginEpoch (env : Env) (epochId : string) (participants : list N)
    (timeoutMillis : N) (st : State) : outcome State bool :=
  if negb (0 <? String.length epochId)%nat then Revert "epochId required" else
  if negb (0 <? length participants)%nat then Revert "at least one participant" else
  let key := epochKey epochId in
  if exists_ (epochAt st key) then Revert "epoch already exists" else
  if (uint256_limit <=? blockTimestamp env * 1000)%N then Revert "panic: overflow" else
  let e := epochAt st key in
  let e :=
    {| id := key; status := PREPARING; coordinator := sender env;
       participants := ScimpCoordinatorSol.participants e;
       startTime := (blockTimestamp env * 1000)%N; timeout := timeoutMillis;
       preparationState := preparationState e;
       commitConfirmation := commitConfirmation e; exists_ := true |} in
  let e := fold_left add_participant participants e in
  Success true
    {| epochs := <[key := e]> (epochs st);
       activeEpochKeys := activeEpochKeys st ++ [key] |}.

(** [for (...) if (e.participants[i] == msg.sender) { found = true; break; }] *)
Definition isParticipant (e : Epoch) (a : N) : bool :=
  existsb (N.eqb a) (participants e).

Definition prepare (env : Env) (epochId : string) (st : State) : outcome State bool :=
  let key := epochKey epochId in
  if negb (exists_ (epochAt st key)) then Revert "epoch not found" else
  let e := epochAt st key in
  if negb (status_eqb (status e) PREPARING) then Revert "epoch not in preparing state" else
  let found := isParticipant e (sender env) in
  if negb found then Revert "sender not a participant" else
  let e := set_preparationState (sender env) 1 e in
  let allPrepared := forallb (λ p, (preparedAt e p =? 1)%N) (participants e) in
  let e := if allPrepared then set_status PREPARED e else e in
  Success true (set_epoch key e st).

Definition commit (env : Env) (epochId : string) (st : State) : outcome State bool :=
  let key := epochKey epochId in
  if negb (exists_ (epochAt st key)) then Revert "epoch not found" else
  let e := epochAt st key in
  if negb (coordinator e =? sender env)%N then Revert "only coordinator can commit" else
  if negb (status_eqb (status e) PREPARED) then Revert "epoch not prepared" else
  Success true (set_epoch key (set_status COMMITTED e) st).

(** [abort]: only the existence of the epoch is required. *)
Definition abort (env : Env) (epochId reason : string) (st : State)
    : outcome State bool :=
  let key := epochKey epochId in
  if negb (exists_ (epochAt st key)) then Revert "epoch not found" else
  let e := epochAt st key in
  Success true (set_epoch key (set_status ABORTED e) st).

Definition confirmCommit (env : Env) (epochId : string) (st : State)
    : outcome State bool :=
  let key := epochKey epochId in
  if negb (exists_ (epochAt st key)) then Revert "epoch not found" else
  let e := epochAt st key in
  if negb (status_eqb (status e) COMMITTED) then Revert "epoch not committed" else
  let found := isParticipant e (sender env) in
  if negb found then Revert "sender not a participant" else
  let e := set_commitConfirmation (sender env) 1 e in
  let allConfirmed := forallb (λ p, (confirmedAt e p =? 1)%N) (participants e) in
  let e := if allConfirmed then set_status COMPLETED e else e in
  Success true (set_epoch key e st).

End WithKeccak.

End ScimpCoordinatorSol.

(** ** Scenarios: the runs the evaluations of the claims start from *)

Module Scenario.
Import Chaincode.

Definition ctx_at (t : Z) : Context :=
  {| now := t; txID := "tx"; clientID := "coordinator" |}.

(** The coordinator chaincode: epoch e1 with participants A and B and a
    timeout of 1000 ms, begun at time 0 on the initialised ledger. *)
Module Coordinator.
Import ScimpCoordinatorChaincode.

Definition begin_e1 : Call :=
  CallBeginEpoch (ctx_at 0) "e1" (Some (Parsed ["A"; "B"])) (Some 1000%Z) (Parsed "{}").
Definition prepare_A : Call := CallPrepare (ctx_at 100) "e1" "A" (Parsed "{}").
Definition prepare_B : Call := CallPrepare (ctx_at 200) "e1" "B" (Parsed "{}").

Definition w_begun : World := after [begin_e1].
Definition w_one_prepared : World := after [begin_e1; prepare_A].
Definition w_prepared : World := after [begin_e1; prepare_A; prepare_B].

(** [initLedger] submitted again once e1 is PREPARED. *)
Definition w_reinitialised : World :=
  after [begin_e1; prepare_A; prepare_B; CallInitLedger].

End Coordinator.

(** The EVM coordinator, with SHA-256 standing in for [keccak256]: the
    account 1 begins epoch e1 for the participants 2 and 3 at block time 0
    with a timeout of 1000 ms. *)
Module CoordinatorSol.
Import Evm ScimpCoordinatorSol.

Definition hash : list N → list N := Sha256.sha256.
Definition env (who time : N) : Env := {| sender := who; blockTimestamp := time |}.
Definition s_empty : State := {| epochs := ∅; activeEpochKeys := [] |}.
Definition s_begun : State :=
  state_after (beginEpoch hash (env 1 0) "e1" [2%N; 3%N] 1000 s_empty) s_empty.
Definition s_one_prepared : State :=
  state_after (prepare hash (env 2 1) "e1" s_begun) s_begun.
Definition s_prepared : State :=
  state_after (prepare hash (env 3 1) "e1" s_one_prepared) s_one_prepared.
Definition s_committed : State :=
  state_after (commit hash (env 1 1) "e1" s_prepared) s_prepared.
Definition s_confirmed_2 : State :=
  state_after (confirmCommit hash (env 2 1) "e1" s_committed) s_committed.
Definition s_completed : State :=
  state_after (confirmCommit hash (env 3 1) "e1" s_confirmed_2) s_confirmed_2.

(** The status of epoch e1. *)
Definition status_e1 (st : State) : EpochStatus :=
  status (epochAt st (epochKey hash "e1")).

End CoordinatorSol.

(** The verifier chaincode: the root of the two-leaf tree over the
    transactions tx-1 and tx-2, in the chaincode's own convention, is trusted
    for block 1000 of chainA; tx-1 is then verified against it. *)
Module Verifier.
Import SidechainVerifierChaincode.

Definition leaf : string := Sha256.sha256_hex "tx-1".
Definition sibling : string := Sha256.sha256_hex "tx-2".
Definition root : string := Sha256.sha256_hex (leaf +:+ sibling).
Definition proof_of_tx1 : list ProofElement := [ {| hash := sibling; left := true |} ].

Definition v_trusted : World :=
  (setTrustedRoot (ctx_at 0) "chainA" "1000" root (Parsed "{}")
     (initLedger "sidechain1" ∅).2).2.

Definition verify_tx1 : M VerificationRecord :=
  verifyTransaction (ctx_at 10) "chainA" "1000" "tx-1" (Some (Parsed proof_of_tx1)).

Definition v_once : World := (verify_tx1 v_trusted).2.
Definition v_twice : World := (verify_tx1 v_once).2.

End Verifier.

End Scenario.

(** ** [AnchorRegistryChaincode]: the validator set, the index and the
    ledgers the contract reaches *)

Module AnchorRegistryLedger.
Import Chaincode AnchorRegistryChaincode.
Local Open Scope tx_scope.

(** [getValidators]: the stored document as it is; [toString] of a missing
    value throws. *)
Definition getValidators : M Doc :=
  let! validatorsBuffer := getState "VALIDATORS" in
  match validatorsBuffer with
  | Some doc => ret doc
  | None => throw RuntimeError
  end.

(** [`chain~${chainId}~${blockNumber}`], the index key of [anchorRoot]. *)
Definition indexKey (chainId blockNumber : string) : string :=
  "chain~" +:+ chainId +:+ "~" +:+ blockNumber.

(** The transactions that write to the ledger.  ([getAnchoredRoot],
    [isRootAnchored] and [getValidators] only read.) *)
Inductive Call :=
  | CallInitLedger
  | CallAnchorRoot (ctx : Context) (chainId blockNumber merkleRoot : string)
      (signatures : Json (list SignatureEntry)) (metadata : Json string)
  | CallAddValidator (validatorId : string).

Definition run (c : Call) (w : World) : World :=
  match c with
  | CallInitLedger => (initLedger w).2
  | CallAnchorRoot ctx chainId blockNumber merkleRoot signatures metadata =>
      (anchorRoot ctx chainId blockNumber merkleRoot signatures metadata w).2
  | CallAddValidator validatorId => (addValidator validatorId w).2
  end.

(** The ledger after a sequence of calls on the empty ledger. *)
Definition after (calls : list Call) : World :=
  fold_left (λ w c, run c w) calls ∅.

(** A string without the separator [~]. *)
Fixpoint tilde_free (s : string) : bool :=
  match s with
  | EmptyString => true
  | String c rest => negb (Ascii.eqb c "~") && tilde_free rest
  end.

(** What holds of every anchor the contract stores. *)
Definition anchor_ok (a : AnchoredRoot) : Prop :=
  status a = "ANCHORED"
  ∧ (2 ≤ length (validatorSignatures a))%nat
  ∧ Forall (λ sig, validator sig ≠ "" ∧ signature sig ≠ "") (validatorSignatures a).

Definition anchors_ok (w : World) : Prop :=
  (w !! "REQUIRED_SIGNATURES" = None ∨ w !! "REQUIRED_SIGNATURES" = Some (DText "2"))
  ∧ ∀ key a, w !! key = Some (DAnchor a) →
      anchor_ok a
      ∧ ∃ chainId blockNumber,
          key = createRootKey chainId blockNumber
          ∧ w !! indexKey chainId blockNumber = Some (DText key).

(** The validator list of a ledger, when it has one. *)
Definition validators_of (w : World) : option (list string) :=
  match w !! "VALIDATORS" with
  | Some (DValidators validators) => Some validators
  | _ => None
  end.

End AnchorRegistryLedger.

(** ** The demonstration script's signatures ([demo_multichain_2pc.js])

    [generateValidatorSignatures] maps every validator name to an entry whose
    signature is [this.merkle.sha256] of a text; that helper belongs to the
    Merkle library and is a parameter here.  The [timestamp] field of an entry
    is not read by the chaincode. *)

Module ScimpDemo.
Import AnchorRegistryChaincode.

Section WithSha.

Context (sha256 : string → string).

Definition generateValidatorSignatures (chainId blockNumber merkleRoot : string)
    (validators : list string) : list SignatureEntry :=
  map (λ validator,
         {| validator := validator;
            signature := sha256 (chainId +:+ ":" +:+ blockNumber +:+ ":" +:+ merkleRoot
                                 +:+ ":" +:+ validator) |})
      validators.

(** The default of [anchorRootOnMainchain(batch, validators = [...])]. *)
Definition default_validators : list string :=
  ["validator1"; "validator2"; "validator3"].

(** The arguments [anchorRootOnMainchain] passes to [anchorRoot]. *)
Definition anchorRootOnMainchain (ctx : Chaincode.Context)
    (chainId blockNumber root : string) (validators : list string) : M AnchoredRoot :=
  let signatures := generateValidatorSignatures chainId blockNumber root validators in
  anchorRoot ctx chainId blockNumber root (Parsed signatures) (Parsed "{}").

End WithSha.

End ScimpDemo.
(** *** [AnchorRegistry.sol]: the constructor and the validator set *)

Module AnchorRegistryAdmin.
Import Evm AnchorRegistrySol.

(** The storage of a contract before its constructor runs. *)
Definition emptyState : State :=
  {| anchors := ∅; isValidator := ∅; requiredSignatures := 0; validatorsList := [] |}.

(** [isValidator[v] = true; validatorsList.push(v)] *)
Definition register (st : State) (v : N) : State :=
  {| anchors := anchors st; isValidator := <[v := true]> (isValidator st);
     requiredSignatures := requiredSignatures st;
     validatorsList := validatorsList st ++ [v] |}.

(** The loop of the constructor over [_validators]. *)
Fixpoint constructor_loop (_validators : list N) (st : State) : outcome State unit :=
  match _validators with
  | [] => Success tt st
  | v :: rest =>
      if (v =? 0)%N then Revert "invalid validator" else
      constructor_loop rest (if negb (validatorAt st v) then register st v else st)
  end.

Definition constructor (_validators : list N) (_requiredSignatures : N)
    : outcome State unit :=
  if negb (0 <? length _validators)%nat then Revert "must provide validators" else
  if negb ((0 <? _requiredSignatures)%N
           && (_requiredSignatures <=? N.of_nat (length _validators))%N)
  then Revert "invalid required signatures" else
  constructor_loop _validators
    {| anchors := anchors emptyState; isValidator := isValidator emptyState;
       requiredSignatures := _requiredSignatures;
       validatorsList := validatorsList emptyState |}.

(** [require(v != address(0))] carries no message. *)
Definition addValidator (v : N) (st : State) : outcome State unit :=
  if (v =? 0)%N then Revert "" else
  Success tt (if negb (validatorAt st v) then register st v else st).

(** The linear search of [removeValidator]: [rest] is
    [validatorsList[i..]]; at the first [i] with [validatorsList[i] == v] the
    last element is copied to [i], the list is popped and the loop breaks. *)
Fixpoint removeValidator_loop (validatorsList : list N) (i : nat) (rest : list N)
    (v : N) : list N :=
  match rest with
  | [] => validatorsList
  | x :: rest' =>
      if (x =? v)%N
      then removelast (<[i := List.last validatorsList 0%N]> validatorsList)
      else removeValidator_loop validatorsList (S i) rest' v
  end.

Definition removeValidator (v : N) (st : State) : outcome State unit :=
  if validatorAt st v
  then Success tt
         {| anchors := anchors st; isValidator := <[v := false]> (isValidator st);
            requiredSignatures := requiredSignatures st;
            validatorsList :=
              removeValidator_loop (validatorsList st) 0 (validatorsList st) v |}
  else Success tt st.

Definition validators (st : State) : list N := validatorsList st.

(** The validator set is well formed: the list has no repetition, never holds
    the zero address, and lists exactly the addresses flagged in
    [isValidator]. *)
Definition validators_ok (st : State) : Prop :=
  NoDup (validatorsList st)
  ∧ (0%N ∉ validatorsList st)
  ∧ ∀ a, a ∈ validatorsList st ↔ validatorAt st a = true.

(** The calls that write to the storage of a deployed registry. *)
Inductive Call :=
  | CallAnchorRoot (env : Env) (chainId blockNumber : N) (merkleRoot : list N)
      (signatures : list (list N))
  | CallAddValidator (v : N)
  | CallRemoveValidator (v : N).

Section WithPrimitives.

Context (keccak256 : list N → list N).
Context (ecrecover : list N → N → list N → list N → N).

Definition run (c : Call) (st : State) : State :=
  match c with
  | CallAnchorRoot env chainId blockNumber merkleRoot signatures =>
      state_after
        (anchorRoot keccak256 ecrecover env chainId blockNumber merkleRoot signatures st) st
  | CallAddValidator v => state_after (addValidator v st) st
  | CallRemoveValidator v => state_after (removeValidator v st) st
  end.

(** The storage of a registry deployed with [constructor(_validators,
    _requiredSignatures)], after a sequence of calls. *)
Definition after (_validators : list N) (_requiredSignatures : N) (calls : list Call)
    : State :=
  fold_left (λ st c, run c st) calls
    (state_after (constructor _validators _requiredSignatures) emptyState).

End WithPrimitives.

End AnchorRegistryAdmin.
(** ** [SidechainVerifierChaincode]: batches and the ledgers the contract
    reaches *)

Module SidechainVerifierLedger.
Import Chaincode SidechainVerifierChaincode.
Local Open Scope tx_scope.

(** An element of [batch.transactions]; [merkleProof] is [None] when the
    field is absent, and [JSON.stringify(undefined)] is then [undefined]. *)
Record BatchTransaction := {
  bt_sourceChain : string;
  bt_blockNumber : string;
  bt_transactionData : string;
  bt_merkleProof : option (list ProofElement)
}.

(** The parsed [batchData]: [batchId] is the empty string when absent,
    [transactions] is [None] when absent. *)
Record Batch := {
  batchId : string;
  transactions : option (list BatchTransaction)
}.

(** [{success: true, result}] or [{success: false, error, transaction}] *)
Inductive BatchResult :=
  | Verified (result : VerificationRecord)
  | Failed (error : Error) (transaction : BatchTransaction).

Definition success (r : BatchResult) : bool :=
  match r with
  | Verified _ => true
  | Failed _ _ => false
  end.

Record BatchReport := {
  br_batchId : string;
  totalTransactions : nat;
  successfulVerifications : nat;
  failedVerifications : nat;
  results : list BatchResult
}.

(** What [verifyTransactionBatch] itself throws: the parse error, and the
    [TypeError] of iterating over a missing [transactions]. *)
Inductive BatchError := InvalidBatchDataFormat | NotIterable.

(** The call [this.verifyTransaction(ctx, tx.sourceChain, tx.blockNumber,
    tx.transactionData, JSON.stringify(tx.merkleProof))] of the loop. *)
Definition verifyOne (ctx : Context) (tx : BatchTransaction) : M VerificationRecord :=
  verifyTransaction ctx (bt_sourceChain tx) (bt_blockNumber tx) (bt_transactionData tx)
    (Parsed <$> bt_merkleProof tx).

(** The loop over [batch.transactions] with its [try]/[catch]. *)
Fixpoint verifyBatch_loop (ctx : Context) (txs : list BatchTransaction)
    (results : list BatchResult) : Tx Doc BatchError (list BatchResult) :=
  match txs with
  | [] => ret results
  | tx :: rest =>
      λ w, match verifyOne ctx tx w with
           | (Ok result, w') => verifyBatch_loop ctx rest (results ++ [Verified result]) w'
           | (Throw error, w') => verifyBatch_loop ctx rest (results ++ [Failed error tx]) w'
           end
  end.

(** [verifyTransactionBatch]; [randomUUID] is the value [crypto.randomUUID()]
    yields when it is called. *)
Definition verifyTransactionBatch (ctx : Context) (randomUUID : string)
    (batchData : Json Batch) : Tx Doc BatchError BatchReport :=
  match batchData with
  | Malformed => throw InvalidBatchDataFormat
  | Parsed batch =>
    match transactions batch with
    | None => throw NotIterable
    | Some txs =>
      let! results := verifyBatch_loop ctx txs [] in
      ret {| br_batchId := if falsy (batchId batch) then randomUUID else batchId batch;
             totalTransactions := length txs;
             successfulVerifications := length (List.filter success results);
             failedVerifications := length (List.filter (λ r, negb (success r)) results);
             results := results |}
    end
  end.

(** The outcome of one transaction of a batch on a given ledger. *)
Definition verdict (ctx : Context) (w : World) (tx : BatchTransaction) : BatchResult :=
  match (verifyOne ctx tx w).1 with
  | Ok result => Verified result
  | Throw error => Failed error tx
  end.

(** The transactions that write to the ledger. *)
Inductive Call :=
  | CallInitLedger (chain : string)
  | CallSetTrustedRoot (ctx : Context) (sourceChain blockNumber merkleRoot : string)
      (proof : Json string)
  | CallVerifyTransaction (ctx : Context)
      (sourceChain blockNumber transactionData : string)
      (merkleProof : option (Json (list ProofElement)))
  | CallVerifyTransactionBatch (ctx : Context) (randomUUID : string)
      (batchData : Json Batch).

Definition run (c : Call) (w : World) : World :=
  match c with
  | CallInitLedger chain => (initLedger chain w).2
  | CallSetTrustedRoot ctx sourceChain blockNumber merkleRoot proof =>
      (setTrustedRoot ctx sourceChain blockNumber merkleRoot proof w).2
  | CallVerifyTransaction ctx sourceChain blockNumber transactionData merkleProof =>
      (verifyTransaction ctx sourceChain blockNumber transactionData merkleProof w).2
  | CallVerifyTransactionBatch ctx randomUUID batchData =>
      (verifyTransactionBatch ctx randomUUID batchData w).2
  end.

(** The ledger after a sequence of calls on the empty ledger. *)
Definition after (calls : list Call) : World :=
  fold_left (λ w c, run c w) calls ∅.

(** The Merkle roots the ledger trusts, by root key; [None] when
    [TRUSTED_ROOTS] does not hold a table. *)
Definition trusted_merkle_roots (w : World) : option (gmap string string) :=
  match w !! "TRUSTED_ROOTS" with
  | Some (DTrustedRoots table) => Some (merkleRoot <$> table)
  | _ => None
  end.

(** Every hash listed in a trusted root's [verifiedTransactions] has its
    verification record, and every record is stored under the hash of the
    transaction data it holds. *)
Definition records_ok (w : World) : Prop :=
  (∀ table key trustedRoot h,
     w !! "TRUSTED_ROOTS" = Some (DTrustedRoots table) →
     table !! key = Some trustedRoot → h ∈ verifiedTransactions trustedRoot →
     ∃ r, stored_verification w h = Some r)
  ∧ ∀ key r, w !! key = Some (DVerification r) →
      key = verificationKey (transactionHash r)
      ∧ transactionHash r = Sha256.sha256_hex (transactionData r)
      ∧ vr_status r = "VERIFIED".

End SidechainVerifierLedger.
(** *** [ScimpCoordinator.sol]: the views and [cleanupTimeouts] *)

Module ScimpCoordinatorViews.
Import Evm ScimpCoordinatorSol.

Definition emptyState : State := {| epochs := ∅; activeEpochKeys := [] |}.

Definition getActiveEpochs (st : State) : list (list N) := activeEpochKeys st.

Definition getConfig : string := "scimp-coordinator-simplified".

Definition set_activeEpochKeys (keys : list (list N)) (st : State) : State :=
  {| epochs := epochs st; activeEpochKeys := keys |}.

(** [block.timestamp * 1000 - e.startTime] in checked arithmetic: [None] is
    the panic on overflow or underflow. *)
Definition elapsed (env : Env) (e : Epoch) : option N :=
  if (uint256_limit <=? blockTimestamp env * 1000)%N then None else
  if (blockTimestamp env * 1000 <? startTime e)%N then None else
  Some (blockTimestamp env * 1000 - startTime e)%N.

(** [activeEpochKeys[i] = activeEpochKeys[activeEpochKeys.length - 1];
    activeEpochKeys.pop()] *)
Definition swap_pop (i : nat) (keys : list (list N)) : list (list N) :=
  removelast (<[i := List.last keys []]> keys).

Section WithKeccak.

Context (keccak256 : list N → list N).

Definition getEpochStatus (epochId : string) (st : State)
    : outcome State (EpochStatus * N * list N) :=
  let key := epochKey keccak256 epochId in
  if negb (exists_ (epochAt st key)) then Revert "epoch not found" else
  let e := epochAt st key in
  Success (status e, coordinator e, participants e) st.

End WithKeccak.

(** The loop of [cleanupTimeouts]: [i] is the index, [removedKeys] the
    first [removed] cells of the memory array.  The loop runs while
    [i < activeEpochKeys.length]; every turn either advances [i] or pops the
    array, so [fuel] turns suffice when [fuel] is the length of the array
    minus [i].  [None] is returned when [fuel] runs out before the loop
    ends. *)
Fixpoint cleanup_loop (fuel : nat) (env : Env) (i : nat) (removedKeys : list (list N))
    (st : State) : option (outcome State (list (list N))) :=
  match activeEpochKeys st !! i with
  | None => Some (Success removedKeys st)
  | Some key =>
    match fuel with
    | O => None
    | S fuel =>
      let e := epochAt st key in
      if exists_ e && status_eqb (status e) PREPARING then
        match elapsed env e with
        | None => Some (Revert "panic")
        | Some elapsed =>
          if (timeout e <? elapsed)%N then
            let st := set_epoch key (set_status ABORTED e) st in
            let st := set_activeEpochKeys (swap_pop i (activeEpochKeys st)) st in
            cleanup_loop fuel env i (removedKeys ++ [key]) st
          else cleanup_loop fuel env (S i) removedKeys st
        end
      else cleanup_loop fuel env (S i) removedKeys st
    end
  end.

Definition cleanupTimeouts (env : Env) (st : State)
    : option (outcome State (list (list N))) :=
  cleanup_loop (length (activeEpochKeys st)) env 0 [] st.

(** An active key is expired when its epoch is still preparing past its
    timeout. *)
Definition expired (env : Env) (st : State) (key : list N) : bool :=
  let e := epochAt st key in
  exists_ e && status_eqb (status e) PREPARING
  && match elapsed env e with
     | Some elapsed => (timeout e <? elapsed)%N
     | None => false
     end.

(** The calls that write to the storage. *)
Inductive Call :=
  | CallBeginEpoch (env : Env) (epochId : string) (participants : list N)
      (timeoutMillis : N)
  | CallPrepare (env : Env) (epochId : string)
  | CallCommit (env : Env) (epochId : string)
  | CallAbort (env : Env) (epochId reason : string)
  | CallConfirmCommit (env : Env) (epochId : string)
  | CallCleanupTimeouts (env : Env).

Section Runs.

Context (keccak256 : list N → list N).

Definition run (c : Call) (st : State) : State :=
  match c with
  | CallBeginEpoch env epochId participants timeoutMillis =>
      state_after (beginEpoch keccak256 env epochId participants timeoutMillis st) st
  | CallPrepare env epochId => state_after (prepare keccak256 env epochId st) st
  | CallCommit env epochId => state_after (commit keccak256 env epochId st) st
  | CallAbort env epochId reason => state_after (abort keccak256 env epochId reason st) st
  | CallConfirmCommit env epochId =>
      state_after (confirmCommit keccak256 env epochId st) st
  | CallCleanupTimeouts env =>
      match cleanupTimeouts env st with
      | Some o => state_after o st
      | None => st
      end
  end.

(** The storage after a sequence of calls on [st], and on a freshly deployed
    coordinator. *)
Definition run_all (calls : list Call) (st : State) : State :=
  fold_left (λ st c, run c st) calls st.

Definition after (calls : list Call) : State := run_all calls emptyState.

End Runs.

(** What every call keeps true of the storage: the active keys are pairwise
    distinct and name existing epochs; an existing epoch is stored under its
    own key, has at least one participant and a status other than NONE; an
    epoch that does not exist is all zero. *)
Definition storage_ok (st : State) : Prop :=
  NoDup (activeEpochKeys st)
  ∧ (∀ key, key ∈ activeEpochKeys st → exists_ (epochAt st key) = true)
  ∧ ∀ key,
      if exists_ (epochAt st key)
      then id (epochAt st key) = key ∧ participants (epochAt st key) ≠ []
           ∧ status (epochAt st key) ≠ NONE
      else epochAt st key = zeroEpoch.

(** No step of the state machine, or one step forward: NONE to PREPARING,
    PREPARING to PREPARED or ABORTED, PREPARED to COMMITTED, COMMITTED to
    COMPLETED. *)
Definition forward (a b : EpochStatus) : bool :=
  match a, b with
  | NONE, (NONE | PREPARING)
  | PREPARING, (PREPARING | PREPARED | ABORTED)
  | PREPARED, (PREPARED | COMMITTED)
  | COMMITTED, (COMMITTED | COMPLETED)
  | ABORTED, ABORTED
  | COMPLETED, COMPLETED => true
  | _, _ => false
  end.

End ScimpCoordinatorViews.
(** ** Examples: the inputs the further properties are evaluated at *)

Module Examples.

(** The anchor registry chaincode on the ledger [initLedger] writes, with two
    of the three validators signing. *)
Module Registry.
Import Chaincode AnchorRegistryChaincode.

Definition ctx : Context := {| now := 5; txID := "tx2"; clientID := "relayer" |}.

Definition signatures : Json (list SignatureEntry) :=
  Parsed [ {| validator := "validator1@org1.example.com"; signature := "s1" |};
           {| validator := "validator2@org2.example.com"; signature := "s2" |} ].

Definition w_init : World := (initLedger ∅).2.

Definition anchor (chainId blockNumber merkleRoot : string) : M AnchoredRoot :=
  anchorRoot ctx chainId blockNumber merkleRoot signatures (Parsed "{}").

End Registry.

(** The EVM registry, with SHA-256 standing in for [keccak256] and an
    [ecrecover] that recovers the address 5 from every signature; [st_one] is
    the storage of a registry deployed with that single validator. *)
Module RegistrySol.
Import Evm AnchorRegistrySol AnchorRegistryAdmin.

Definition keccak256 : list N → list N := Sha256.sha256.
Definition ecrecover : list N → N → list N → list N → N := λ _ _ _ _, 5%N.
Definition env : Env := {| sender := 3; blockTimestamp := 1700000000 |}.
Definition st_one : State := after keccak256 ecrecover [5%N] 1 [].

End RegistrySol.

End Examples.
Example sha256_abc :
  Sha256.sha256_hex "abc"
  = "ba7816bf8f01cfea414140de5dae2223b00361a396177a9cb410ff61f20015ad".
Proof. vm_compute. reflexivity. Qed.

Example sha256_empty :
  Sha256.sha256_hex ""
  = "e3b0c44298fc1c149afbf4c8996fb92427ae41e4649b934ca495991b7852b855".
Proof. vm_compute. reflexivity. Qed.


(** * Merkle proof verification: the two verifiers against the specification *)

Section MerkleFacts.
Import MerkleSpec.

(** The chaincode's loop is the specification's recomputation on the steps
    its proof elements stand for. *)
Lemma verifyMerkleProof_step_spec acc (e : SidechainVerifierChaincode.ProofElement) :
  SidechainVerifierChaincode.step acc e
  = recompute_step node_hex acc (SidechainVerifierChaincode.step_of e).
Proof. destruct e as [s []]; reflexivity. Qed.

Lemma verifyMerkleProof_fold_spec (proof : list SidechainVerifierChaincode.ProofElement)
    leaf :
  fold_left SidechainVerifierChaincode.step proof leaf
  = recompute_root node_hex leaf (SidechainVerifierChaincode.step_of <$> proof).
Proof.
  revert leaf. induction proof as [|e proof IH]; intros leaf; [reflexivity|].
  cbn [fmap list_fmap fold_left recompute_root].
  rewrite verifyMerkleProof_step_spec. apply IH.
Qed.

(** The EVM verifier follows the specification's reading of the flag. *)
Lemma verifyProof_loop_spec (proof : list (list N)) :
  ∀ (lefts : list bool) (computed : list N),
    (length proof ≤ length lefts)%nat →
    SidechainVerifierSol.verifyProof_loop computed proof lefts
    = Some (recompute_root node_bytes computed
              (zip_with (λ p l, {| siblingHash := p; isLeftSibling := l |}) proof lefts)).
Proof.
  induction proof as [|p proof IH]; intros lefts computed Hlen; [reflexivity|].
  destruct lefts as [|l lefts]; [simpl in Hlen; lia|].
  simpl in Hlen. cbn [SidechainVerifierSol.verifyProof_loop zip_with].
  destruct l; rewrite IH by lia; reflexivity.
Qed.

Lemma verifyProof_is_spec leaf (proof : list (list N)) (lefts : list bool) root :
  (length proof ≤ length lefts)%nat →
  SidechainVerifierSol.verifyProof leaf proof lefts root
  = Some (bool_decide
            (recompute_root node_bytes leaf
               (zip_with (λ p l, {| siblingHash := p; isLeftSibling := l |}) proof lefts)
             = root)).
Proof.
  intros Hlen. unfold SidechainVerifierSol.verifyProof.
  by rewrite verifyProof_loop_spec.
Qed.

(** With fewer flags than siblings the EVM verifier reverts. *)
Lemma verifyProof_short_flags leaf (proof : list (list N)) (lefts : list bool) root :
  (length lefts < length proof)%nat →
  SidechainVerifierSol.verifyProof leaf proof lefts root = None.
Proof.
  intros Hlen. unfold SidechainVerifierSol.verifyProof.
  assert (SidechainVerifierSol.verifyProof_loop leaf proof lefts = None) as ->; [|done].
  revert lefts leaf Hlen. induction proof as [|p proof IH]; intros lefts leaf Hlen.
  - simpl in Hlen; lia.
  - destruct lefts as [|l lefts]; [reflexivity|].
    simpl in Hlen. cbn [SidechainVerifierSol.verifyProof_loop].
    destruct l; apply IH; lia.
Qed.

End MerkleFacts.

(** ** Claim C2 *)

(** C2 (code defect).  The chaincode verifier and the EVM verifier are not
    equivalent.  For the leaf, the sibling and the root of a two-leaf tree
    whose sibling is the left child, flagged as such, [verifyProof] accepts
    the proof; [verifyMerkleProof], given the same three hashes in
    hexadecimal and the same flag, rejects it: it hashes the sibling on the
    right for this flag, and it hashes the hexadecimal text of the two
    hashes, so that it rejects the proof under the opposite flag as well. *)
Theorem verifyMerkleProof_verifyProof_disagree :
  let leaf := Sha256.sha256 (Sha256.bytes_of_string "tx-1") in
  let sibling := Sha256.sha256 (Sha256.bytes_of_string "tx-2") in
  let root := Sha256.sha256 (sibling ++ leaf) in
  SidechainVerifierSol.verifyProof leaf [sibling] [true] root = Some true
  ∧ SidechainVerifierChaincode.verifyMerkleProof (Sha256.hex leaf)
      [ {| SidechainVerifierChaincode.hash := Sha256.hex sibling;
           SidechainVerifierChaincode.left := true |} ] (Sha256.hex root) = false
  ∧ SidechainVerifierChaincode.verifyMerkleProof (Sha256.hex leaf)
      [ {| SidechainVerifierChaincode.hash := Sha256.hex sibling;
           SidechainVerifierChaincode.left := false |} ] (Sha256.hex root) = false.
Proof. vm_compute. done. Qed.

(** ** Claim C3 *)

(** C3.  For every leaf hash, proof and expected root, [verifyMerkleProof]
    returns true if and only if the fold of the claim yields the expected
    root: starting from the leaf hash, each proof element contributes the
    digest of (sibling ‖ accumulator) when its flag records the sibling as
    the left one and of (accumulator ‖ sibling) when it records it as the
    right one.  Hashes are hexadecimal text and ‖ is the concatenation of the
    text; the chaincode's flag [left] says that the current element is the
    left one, so it records a left sibling when it is false. *)
Theorem verifyMerkleProof_iff_recomputed_root leaf
    (proof : list SidechainVerifierChaincode.ProofElement) root :
  SidechainVerifierChaincode.verifyMerkleProof leaf proof root
  = MerkleSpec.spec_verifyProof leaf (SidechainVerifierChaincode.step_of <$> proof) root
  ∧ (SidechainVerifierChaincode.verifyMerkleProof leaf proof root = true
     ↔ MerkleSpec.recompute_root MerkleSpec.node_hex leaf
         (SidechainVerifierChaincode.step_of <$> proof) = root).
Proof.
  unfold SidechainVerifierChaincode.verifyMerkleProof, MerkleSpec.spec_verifyProof.
  rewrite verifyMerkleProof_fold_spec. split; [reflexivity|apply String.eqb_eq].
Qed.

(** * The anchor registry *)

Section AnchorRegistryChaincodeFacts.
Import Chaincode AnchorRegistryChaincode.

Lemma falsy_false_length s : falsy s = false → (0 <? String.length s)%nat = true.
Proof. destruct s; [discriminate|reflexivity]. Qed.

(** [verifySignatures] keeps every entry that names a listed validator and
    carries a non-empty signature: it neither compares the signature with
    [expectedSig] nor looks at the entries kept before. *)
Lemma verifySignatures_filter messageHash signatures validators :
  verifySignatures messageHash signatures validators
  = List.filter (kept validators) signatures.
Proof.
  induction signatures as [|sig rest IH]; [reflexivity|].
  cbn [verifySignatures List.filter]. rewrite IH. unfold kept.
  destruct (negb (falsy (validator sig))); [|reflexivity].
  destruct (includes validators (validator sig)); [|reflexivity].
  destruct (falsy (signature sig)) eqn:Hs; [reflexivity|].
  cbn [negb andb]. by rewrite (falsy_false_length _ Hs).
Qed.

Lemma below_mono n m r : (n ≤ m)%nat → below m r = true → below n r = true.
Proof.
  unfold below. destruct r as [r|]; [|done].
  intros Hle Hm. apply Z.ltb_lt in Hm. apply Z.ltb_lt. lia.
Qed.

(** On an initialised ledger with no anchor under the key, a call with its
    arguments present succeeds exactly when the number of kept entries
    reaches [REQUIRED_SIGNATURES]. *)
Lemma anchorRoot_succeeds_iff ctx chainId blockNumber merkleRoot signatures metadata
    (w : World) validators required :
  falsy chainId = false → falsy blockNumber = false → falsy merkleRoot = false →
  w !! createRootKey chainId blockNumber = None →
  w !! "VALIDATORS" = Some (DValidators validators) →
  w !! "REQUIRED_SIGNATURES" = Some (DText required) →
  (∃ a w', anchorRoot ctx chainId blockNumber merkleRoot (Parsed signatures)
             (Parsed metadata) w = (Ok a, w'))
  ↔ below (length (List.filter (kept validators) signatures)) (parseInt required) = false.
Proof.
  intros Hc Hb Hr Hnone Hv Hq. unfold anchorRoot.
  rewrite Hc, Hb, Hr. cbn [orb].
  unfold bind, getState. rewrite Hnone, Hv, Hq.
  rewrite verifySignatures_filter.
  destruct (below (length signatures) (parseInt required)) eqn:Hall.
  - split; [intros (a & w' & [=])|].
    intros Hkept. exfalso.
    rewrite (below_mono _ _ _ (List.filter_length_le _ _) Hall) in Hkept. done.
  - destruct (below (length (List.filter (kept validators) signatures))
                    (parseInt required)) eqn:Hkept.
    + split; [intros (a & w' & [=])|done].
    + split; [done|]. intros _. unfold putState, ret. eauto.
Qed.

End AnchorRegistryChaincodeFacts.

Section AnchorRegistrySolFacts.
Import Evm AnchorRegistrySol.

Context (keccak256 : list N → list N).
Context (ecrecover : list N → N → list N → list N → N).

Lemma length_remove_dups_size (l : list N) :
  length (remove_dups l) = size (list_to_set l : gset N).
Proof.
  rewrite <- (size_list_to_set (C := gset N) (remove_dups l)) by apply NoDup_remove_dups.
  f_equal. apply set_eq. intros x.
  rewrite !elem_of_list_to_set. apply elem_of_remove_dups.
Qed.

Lemma length_remove_dups_le (l : list N) : (length (remove_dups l) ≤ length l)%nat.
Proof.
  induction l as [|x l IH]; [done|]. cbn [remove_dups].
  case_decide; cbn [length]; lia.
Qed.

Lemma recoverSigner_bad_length message sig :
  (length sig =? 65)%nat = false → recoverSigner keccak256 ecrecover message sig = 0%N.
Proof. intros H. unfold recoverSigner. by rewrite H. Qed.

Lemma existsb_eqb_elem_of (a : N) (l : list N) :
  existsb (N.eqb a) l = true ↔ a ∈ l.
Proof.
  rewrite existsb_exists. split.
  - intros (x & Hin & Heq). apply N.eqb_eq in Heq. subst. by apply list_elem_of_In.
  - intros Hin. exists a. split; [by apply list_elem_of_In|apply N.eqb_refl].
Qed.

Lemma count_valid_ge st message signatures :
  ∀ seen valid,
    (valid ≤ count_valid keccak256 ecrecover st message signatures seen valid)%N.
Proof.
  induction signatures as [|sig rest IH]; intros seen valid; cbn [count_valid]; [lia|].
  repeat case_match; try apply IH; try lia.
  etrans; [|apply IH]. lia.
Qed.

Lemma count_valid_quorum st message signatures :
  ∀ seen valid,
    (requiredSignatures st ≤ count_valid keccak256 ecrecover st message signatures seen valid
     ↔ requiredSignatures st ≤ valid + N.of_nat (size (fresh keccak256 ecrecover st message seen signatures)))%N.
Proof.
  induction signatures as [|sig rest IH]; intros seen valid.
  { cbn. unfold AnchorRegistrySol.fresh, valid_signers. cbn. rewrite size_empty. split; lia. }
  cbn [count_valid].
  assert (Hcons : valid_signers keccak256 ecrecover st message (sig :: rest)
            = filter (λ a, a ≠ 0%N ∧ validatorAt st a = true)
                (recoverSigner keccak256 ecrecover message sig
                   :: (recoverSigner keccak256 ecrecover message <$> rest))) by done.
  destruct (length sig =? 65)%nat eqn:Hlen; cbn [negb].
  2:{ rewrite IH. unfold AnchorRegistrySol.fresh. rewrite Hcons, filter_cons_False.
      - done.
      - rewrite recoverSigner_bad_length by done. intros [? _]; done. }
  set (signer := recoverSigner keccak256 ecrecover message sig) in *.
  destruct (signer =? 0)%N eqn:Hzero.
  { rewrite IH. unfold AnchorRegistrySol.fresh. rewrite Hcons, filter_cons_False; [done|].
    apply N.eqb_eq in Hzero. intros [? _]; done. }
  apply N.eqb_neq in Hzero.
  destruct (validatorAt st signer) eqn:Hval; cbn [negb].
  2:{ rewrite IH. unfold AnchorRegistrySol.fresh. rewrite Hcons, filter_cons_False; [done|].
      intros [_ ?]; congruence. }
  assert (Hfresh : fresh keccak256 ecrecover st message seen (sig :: rest)
                   = (if decide (signer ∈ seen) then ∅ else {[signer]})
                     ∪ fresh keccak256 ecrecover st message seen rest).
  { unfold AnchorRegistrySol.fresh. rewrite Hcons, filter_cons_True by done.
    fold (valid_signers keccak256 ecrecover st message rest).
    case_decide.
    - rewrite filter_cons_False by (intros ?; done). by rewrite (left_id_L ∅ (∪)).
    - by rewrite filter_cons_True. }
  destruct (existsb (N.eqb signer) seen) eqn:Hseen.
  { apply existsb_eqb_elem_of in Hseen. rewrite IH, Hfresh.
    rewrite decide_True by done. by rewrite (left_id_L ∅ (∪)). }
  assert (signer ∉ seen) as Hnotin.
  { intros Hin. apply existsb_eqb_elem_of in Hin. congruence. }
  rewrite Hfresh, decide_False by done.
  assert (Hsplit : {[signer]} ∪ fresh keccak256 ecrecover st message seen rest
                   = {[signer]} ∪ fresh keccak256 ecrecover st message (seen ++ [signer]) rest).
  { apply set_eq. intros x. unfold AnchorRegistrySol.fresh.
    rewrite !elem_of_union, !elem_of_list_to_set, !elem_of_singleton,
      !list_elem_of_filter, elem_of_app, list_elem_of_singleton.
    split.
    - intros [->|[Hx Hv]]; [by left|].
      destruct (decide (x = signer)) as [->|Hne]; [by left|right].
      split; [|done]. intros [Hs| ->]; done.
    - intros [->|[Hx Hv]]; [by left|right].
      split; [|done]. intros Hs. apply Hx. by left. }
  assert (Hsize : size ({[signer]} ∪ fresh keccak256 ecrecover st message seen rest)
                  = S (size (fresh keccak256 ecrecover st message (seen ++ [signer]) rest))).
  { rewrite Hsplit, size_union, size_singleton; [done|].
    apply disjoint_singleton_l. unfold AnchorRegistrySol.fresh.
    rewrite elem_of_list_to_set, list_elem_of_filter, elem_of_app, list_elem_of_singleton.
    intros [Hx _]. apply Hx. by right. }
  rewrite Hsize.
  destruct (requiredSignatures st <=? valid + 1)%N eqn:Hbreak.
  - apply N.leb_le in Hbreak. split; lia.
  - rewrite IH. split; lia.
Qed.

(** The EVM registry counts distinct listed validators: a call succeeds
    exactly when no anchor is stored under the key and the number of distinct
    validators of the current set recovered from the signatures reaches
    [requiredSignatures]. *)
Theorem sol_anchorRoot_quorum env chainId blockNumber merkleRoot signatures st :
  (∃ st', anchorRoot keccak256 ecrecover env chainId blockNumber merkleRoot signatures st
          = Success tt st')
  ↔ timestamp (anchorAt st (anchorKey keccak256 chainId blockNumber)) = 0%N
    ∧ (N.to_nat (requiredSignatures st)
       ≤ length (remove_dups
                   (valid_signers keccak256 ecrecover st
                      (anchorMessage keccak256 chainId blockNumber merkleRoot)
                      signatures)))%nat.
Proof.
  set (message := anchorMessage keccak256 chainId blockNumber merkleRoot).
  assert (Hq := count_valid_quorum st message signatures [] 0%N).
  assert (Hfr : fresh keccak256 ecrecover st message [] signatures
                = list_to_set (valid_signers keccak256 ecrecover st message signatures)).
  { unfold AnchorRegistrySol.fresh. apply set_eq. intros x.
    rewrite !elem_of_list_to_set, list_elem_of_filter.
    split; [by intros [_ ?]|]. intros Hx. split; [|done].
    intros Hin. by apply elem_of_nil in Hin. }
  rewrite Hfr, <- length_remove_dups_size in Hq.
  assert (Hle : (length (remove_dups (valid_signers keccak256 ecrecover st message signatures))
                 ≤ length signatures)%nat).
  { etrans; [apply length_remove_dups_le|]. unfold valid_signers.
    etrans; [apply length_filter|]. by rewrite length_fmap. }
  unfold anchorRoot. fold message.
  destruct (timestamp (anchorAt st (anchorKey keccak256 chainId blockNumber)) =? 0)%N eqn:Ht;
    cbn [negb].
  2:{ apply N.eqb_neq in Ht. split; [intros (? & [=])|intros [? _]; done]. }
  apply N.eqb_eq in Ht.
  destruct (requiredSignatures st <=? N.of_nat (length signatures))%N eqn:Hlen; cbn [negb].
  2:{ apply N.leb_gt in Hlen. split; [intros (? & [=])|intros [_ ?]; lia]. }
  destruct (requiredSignatures st <=? count_valid keccak256 ecrecover st message signatures [] 0)%N
    eqn:Hvalid; cbn [negb].
  - apply N.leb_le in Hvalid. split; [|eauto]. intros _. split; [done|].
    apply Hq in Hvalid. lia.
  - apply N.leb_gt in Hvalid. split; [intros (? & [=])|].
    intros [_ Hreq]. exfalso.
    assert (requiredSignatures st ≤ count_valid keccak256 ecrecover st message signatures [] 0)%N;
      [apply Hq|]; lia.
Qed.

End AnchorRegistrySolFacts.

(** ** Claim C1 *)

(** C1 (code defect).  The chaincode's [anchorRoot] accepts fewer than
    [requiredSignatures] distinct valid signers.  On the initialised ledger
    (three validators, two signatures required) the call below carries the
    same entry of validator1 twice, with a signature that is not the expected
    digest over the message: one distinct signer, yet the call succeeds and
    the anchor records both copies.  The same entry alone is refused. *)
Theorem anchorRoot_accepts_repeated_signer :
  let w := (AnchorRegistryChaincode.initLedger ∅).2 in
  let ctx := {| Chaincode.now := 0; Chaincode.txID := "tx1"; Chaincode.clientID := "relayer" |} in
  let sig := {| AnchorRegistryChaincode.validator := "validator1@org1.example.com";
                AnchorRegistryChaincode.signature := "00" |} in
  let validators := ["validator1@org1.example.com"; "validator2@org2.example.com";
                     "validator3@org3.example.com"] in
  w !! "VALIDATORS" = Some (AnchorRegistryChaincode.DValidators validators)
  ∧ w !! "REQUIRED_SIGNATURES" = Some (AnchorRegistryChaincode.DText "2")
  ∧ AnchorRegistryChaincode.distinct_signers validators [sig; sig] = 1%nat
  ∧ AnchorRegistryChaincode.signature sig
    ≠ Sha256.sha256_hex
        (AnchorRegistryChaincode.createMessageHash "chainA" "7" "aa"
         +:+ AnchorRegistryChaincode.validator sig)
  ∧ (∃ a, (AnchorRegistryChaincode.anchorRoot ctx "chainA" "7" "aa"
             (AnchorRegistryChaincode.Parsed [sig; sig])
             (AnchorRegistryChaincode.Parsed "{}") w).1 = Chaincode.Ok a
          ∧ AnchorRegistryChaincode.validatorSignatures a = [sig; sig])
  ∧ (AnchorRegistryChaincode.anchorRoot ctx "chainA" "7" "aa"
       (AnchorRegistryChaincode.Parsed [sig])
       (AnchorRegistryChaincode.Parsed "{}") w).1
    = Chaincode.Throw (AnchorRegistryChaincode.InsufficientSignatures 1 (Some 2%Z)).
Proof.
  repeat split; try (vm_compute; reflexivity).
  - vm_compute. discriminate.
  - eexists. split; vm_compute; reflexivity.
Qed.

(** ** Claim C5 *)

Section AnchorUniqueness.
Import Chaincode.

Lemma createRootKey_not_index c0 b0 chainId blockNumber :
  AnchorRegistryChaincode.createRootKey c0 b0
  ≠ "chain~" +:+ chainId +:+ "~" +:+ blockNumber.
Proof. discriminate. Qed.

(** A call for a pair that already has an anchor throws before any write. *)
Lemma anchorRoot_existing ctx chainId blockNumber merkleRoot signatures metadata
    (w : AnchorRegistryChaincode.World) stored :
  w !! AnchorRegistryChaincode.createRootKey chainId blockNumber = Some stored →
  AnchorRegistryChaincode.anchorRoot ctx chainId blockNumber merkleRoot signatures metadata w
  = (Throw (if falsy chainId || falsy blockNumber || falsy merkleRoot
            then AnchorRegistryChaincode.ArgumentsRequired
            else AnchorRegistryChaincode.RootAlreadyAnchored chainId blockNumber), w).
Proof.
  intros Hk. unfold AnchorRegistryChaincode.anchorRoot.
  destruct (falsy chainId || falsy blockNumber || falsy merkleRoot); [reflexivity|].
  unfold bind, getState. by rewrite Hk.
Qed.

(** No call of [anchorRoot] changes a stored anchor. *)
Lemma anchorRoot_preserves ctx chainId blockNumber merkleRoot signatures metadata
    (w : AnchorRegistryChaincode.World) c0 b0 stored :
  w !! AnchorRegistryChaincode.createRootKey c0 b0 = Some stored →
  (AnchorRegistryChaincode.anchorRoot ctx chainId blockNumber merkleRoot signatures
     metadata w).2 !! AnchorRegistryChaincode.createRootKey c0 b0 = Some stored.
Proof.
  intros Hk. unfold AnchorRegistryChaincode.anchorRoot.
  destruct (falsy chainId || falsy blockNumber || falsy merkleRoot); [done|].
  unfold bind, getState.
  destruct (w !! AnchorRegistryChaincode.createRootKey chainId blockNumber) eqn:Hnew; [done|].
  destruct signatures as [parsed|]; [|done].
  destruct (w !! "VALIDATORS") as [[validators| |]|];
    destruct (w !! "REQUIRED_SIGNATURES") as [[|required|]|]; try done.
  destruct (AnchorRegistryChaincode.below (length parsed) _); [done|].
  destruct (AnchorRegistryChaincode.below _ _); [done|].
  destruct metadata as [m|]; [|done].
  unfold putState, ret. cbn [snd].
  rewrite lookup_insert_ne by (symmetry; apply createRootKey_not_index).
  rewrite lookup_insert_ne; [done|]. intros Heq. rewrite Heq in Hnew. congruence.
Qed.

End AnchorUniqueness.

(** C5.  Once an anchor is stored for (chainId, blockNumber), every further
    [anchorRoot] call for that pair fails, whatever the signatures, and
    leaves the ledger as it was: in the chaincode it throws, with the
    "already anchored" error when the three required arguments are present,
    and in the EVM port it reverts with "root already anchored for this
    chain/block".  No [anchorRoot] call, for any pair, changes a stored
    anchor. *)
Theorem anchorRoot_at_most_once :
  (∀ ctx chainId blockNumber merkleRoot signatures metadata
     (w : AnchorRegistryChaincode.World) stored,
     w !! AnchorRegistryChaincode.createRootKey chainId blockNumber = Some stored →
     (∃ e, AnchorRegistryChaincode.anchorRoot ctx chainId blockNumber merkleRoot
             signatures metadata w = (Chaincode.Throw e, w))
     ∧ (Chaincode.falsy chainId = false → Chaincode.falsy blockNumber = false →
        Chaincode.falsy merkleRoot = false →
        AnchorRegistryChaincode.anchorRoot ctx chainId blockNumber merkleRoot
          signatures metadata w
        = (Chaincode.Throw
             (AnchorRegistryChaincode.RootAlreadyAnchored chainId blockNumber), w)))
  ∧ (∀ ctx chainId blockNumber merkleRoot signatures metadata
       (w : AnchorRegistryChaincode.World) c0 b0 stored,
       w !! AnchorRegistryChaincode.createRootKey c0 b0 = Some stored →
       (AnchorRegistryChaincode.anchorRoot ctx chainId blockNumber merkleRoot
          signatures metadata w).2 !! AnchorRegistryChaincode.createRootKey c0 b0
       = Some stored)
  ∧ (∀ keccak256 ecrecover env chainId blockNumber merkleRoot signatures st,
       AnchorRegistrySol.timestamp
         (AnchorRegistrySol.anchorAt st
            (AnchorRegistrySol.anchorKey keccak256 chainId blockNumber)) ≠ 0%N →
       AnchorRegistrySol.anchorRoot keccak256 ecrecover env chainId blockNumber
         merkleRoot signatures st
       = Evm.Revert "root already anchored for this chain/block")
  ∧ (∀ keccak256 ecrecover env chainId blockNumber merkleRoot signatures st st' key,
       AnchorRegistrySol.timestamp (AnchorRegistrySol.anchorAt st key) ≠ 0%N →
       AnchorRegistrySol.anchorRoot keccak256 ecrecover env chainId blockNumber
         merkleRoot signatures st = Evm.Success tt st' →
       AnchorRegistrySol.anchors st' !! key = AnchorRegistrySol.anchors st !! key).
Proof.
  split; [|split; [|split]].
  - intros ctx chainId blockNumber merkleRoot signatures metadata w stored Hk.
    rewrite (anchorRoot_existing _ _ _ _ _ _ _ _ Hk). split; [eauto|].
    by intros -> -> ->.
  - intros. by apply anchorRoot_preserves.
  - intros keccak256 ecrecover env chainId blockNumber merkleRoot signatures st Hts.
    unfold AnchorRegistrySol.anchorRoot.
    apply N.eqb_neq in Hts. by rewrite Hts.
  - intros keccak256 ecrecover env chainId blockNumber merkleRoot signatures st st' key
      Hts Hcall.
    unfold AnchorRegistrySol.anchorRoot in Hcall.
    destruct (AnchorRegistrySol.timestamp
                (AnchorRegistrySol.anchorAt st
                   (AnchorRegistrySol.anchorKey keccak256 chainId blockNumber)) =? 0)%N
      eqn:Hfree; [|done].
    apply N.eqb_eq in Hfree. cbn [negb] in Hcall.
    repeat (case_match; try done). injection Hcall as <-.
    cbn [AnchorRegistrySol.set_anchor AnchorRegistrySol.anchors].
    apply lookup_insert_ne. intros <-. congruence.
Qed.

(** The theorem at a ledger where chainA's block 7 has been anchored by two
    validators, and at an EVM storage holding an anchor for chain 1, block 7
    (with stand-ins for the two EVM primitives). *)
Lemma anchorRoot_at_most_once_witness :
  let ctx := {| Chaincode.now := 5; Chaincode.txID := "tx2"; Chaincode.clientID := "relayer" |} in
  let sigs := AnchorRegistryChaincode.Parsed
                [ {| AnchorRegistryChaincode.validator := "validator1@org1.example.com";
                     AnchorRegistryChaincode.signature := "s1" |};
                  {| AnchorRegistryChaincode.validator := "validator2@org2.example.com";
                     AnchorRegistryChaincode.signature := "s2" |} ] in
  let w1 := (AnchorRegistryChaincode.anchorRoot ctx "chainA" "7" "aa" sigs
               (AnchorRegistryChaincode.Parsed "{}")
               (AnchorRegistryChaincode.initLedger ∅).2).2 in
  let keccak256 := Sha256.sha256 in
  let ecrecover := λ (_ : list N) (_ : N) (_ _ : list N), 0%N in
  let st := {| AnchorRegistrySol.anchors :=
                 {[ AnchorRegistrySol.anchorKey keccak256 1 7 :=
                      {| AnchorRegistrySol.root := repeat 1%N 32;
                         AnchorRegistrySol.chainId := 1;
                         AnchorRegistrySol.blockNumber := 7;
                         AnchorRegistrySol.timestamp := 1700000000;
                         AnchorRegistrySol.submitter := 9 |} ]};
               AnchorRegistrySol.isValidator := ∅;
               AnchorRegistrySol.requiredSignatures := 0;
               AnchorRegistrySol.validatorsList := [] |} in
  AnchorRegistryChaincode.anchorRoot ctx "chainA" "7" "bb" sigs
    (AnchorRegistryChaincode.Parsed "{}") w1
  = (Chaincode.Throw (AnchorRegistryChaincode.RootAlreadyAnchored "chainA" "7"), w1)
  ∧ AnchorRegistrySol.anchorRoot keccak256 ecrecover
      {| Evm.sender := 3; Evm.blockTimestamp := 1700000100 |} 1 7 (repeat 2%N 32) [] st
    = Evm.Revert "root already anchored for this chain/block".
Proof.
  intros ctx sigs w1 keccak256 ecrecover st.
  destruct anchorRoot_at_most_once as (Hjs & _ & Hsol & _).
  split.
  - destruct (w1 !! AnchorRegistryChaincode.createRootKey "chainA" "7") as [stored|] eqn:Hk.
    + by apply (Hjs ctx "chainA" "7" "bb" sigs _ w1 stored Hk).
    + vm_compute in Hk. discriminate Hk.
  - apply Hsol. vm_compute. discriminate.
Defined.
(** * The two-phase-commit coordinator *)

(** Unfolding of the transaction monad and of the chaincode's readers. *)
Ltac tx_unfold :=
  unfold ScimpCoordinatorChaincode.readEpoch, ScimpCoordinatorChaincode.readTable,
    ScimpCoordinatorChaincode.readTableOrEmpty, ScimpCoordinatorChaincode.allPrepared,
    ScimpCoordinatorChaincode.parseJson,
    Chaincode.bind, Chaincode.getState, Chaincode.putState, Chaincode.ret,
    Chaincode.throw in *.

Section CoordinatorChaincodeFacts.
Import Chaincode ScimpCoordinatorChaincode.

Lemma epochKey_inj id1 id2 : epochKey id1 = epochKey id2 → id1 = id2.
Proof. unfold epochKey. cbn. by intros [=]. Qed.

Lemma epochKey_not_active id : epochKey id ≠ "ACTIVE_EPOCHS".
Proof. discriminate. Qed.

Lemma epochKey_not_completed id : epochKey id ≠ "COMPLETED_EPOCHS".
Proof. discriminate. Qed.

Lemma epochKey_not_aborted id : epochKey id ≠ "ABORTED_EPOCHS".
Proof. discriminate. Qed.

Lemma epochKey_not_config id : epochKey id ≠ "CONFIG".
Proof. discriminate. Qed.

(** ** Objects *)

Lemma get_Undefined_not_inherited {V} (o : gmap string V) key :
  JsObject.get o key = JsObject.Undefined → o !! key = None ∧ key ∉ JsObject.inherited.
Proof.
  unfold JsObject.get. destruct (o !! key); [done|].
  case_bool_decide; [done|]. by intros _.
Qed.

Lemma get_Own {V} (o : gmap string V) key v :
  JsObject.get o key = JsObject.Own v ↔ o !! key = Some v.
Proof.
  unfold JsObject.get. destruct (o !! key) as [v'|].
  - split; by intros [= ->].
  - case_bool_decide; split; done.
Qed.

Lemma set_lookup {V} (o : gmap string V) key v k :
  JsObject.set o key v !! k = Some v ∧ k = key ∨ JsObject.set o key v !! k = o !! k.
Proof.
  unfold JsObject.set. destruct (o !! key) eqn:Hkey.
  - destruct (decide (k = key)) as [->|Hne].
    + left. by rewrite lookup_insert_eq.
    + right. by rewrite lookup_insert_ne.
  - case_bool_decide; [by right|].
    destruct (decide (k = key)) as [->|Hne].
    + left. by rewrite lookup_insert_eq.
    + right. by rewrite lookup_insert_ne.
Qed.

Lemma set_lookup_ne {V} (o : gmap string V) key v k :
  k ≠ key → JsObject.set o key v !! k = o !! k.
Proof.
  intros Hne. unfold JsObject.set.
  destruct (o !! key); [by rewrite lookup_insert_ne|].
  case_bool_decide; [done|]. by rewrite lookup_insert_ne.
Qed.

Lemma set_insert {V} (o : gmap string V) key v :
  key ≠ "__proto__" → JsObject.set o key v = <[key := v]> o.
Proof.
  intros Hne. unfold JsObject.set. destruct (o !! key); [done|].
  by rewrite bool_decide_eq_false_2.
Qed.

Lemma not_inherited_not_proto key : key ∉ JsObject.inherited → key ≠ "__proto__".
Proof.
  intros Hnot ->. apply Hnot. apply (bool_decide_unpack _). vm_compute. exact I.
Qed.

(** ** The calls that cannot return *)

(** [abortEpoch] throws whenever [ABORTED_EPOCHS] is unwritten. *)
Lemma abortEpoch_throws ctx id reason (w : World) :
  w !! "ABORTED_EPOCHS" = None →
  ∃ e w', abortEpoch ctx id reason w = (Throw e, w').
Proof.
  intros Hab. unfold abortEpoch. tx_unfold.
  destruct (w !! epochKey id) as [[| |e]|]; try by eexists _, _.
  rewrite lookup_insert_ne by done.
  destruct (w !! "ACTIVE_EPOCHS") as [[|table|]|]; try by eexists _, _.
  rewrite !lookup_insert_ne by done. rewrite Hab. by eexists _, _.
Qed.

(** On a ledger that holds the epoch record and the table of active epochs
    it throws the error of [JSON.parse]. *)
Lemma abortEpoch_syntax_error ctx id reason (w : World) e table :
  w !! "ABORTED_EPOCHS" = None →
  w !! epochKey id = Some (DEpoch e) →
  w !! "ACTIVE_EPOCHS" = Some (DEpochs table) →
  (abortEpoch ctx id reason w).1 = Throw RuntimeError.
Proof.
  intros Hab He Hact. unfold abortEpoch. tx_unfold.
  rewrite He. rewrite lookup_insert_ne by done. rewrite Hact.
  rewrite !lookup_insert_ne by done. by rewrite Hab.
Qed.

(** [commit] throws whenever [COMPLETED_EPOCHS] is unwritten. *)
Lemma commit_throws ctx id (w : World) :
  w !! "COMPLETED_EPOCHS" = None →
  ∃ e w', commit ctx id w = (Throw e, w').
Proof.
  intros Hco. unfold commit. tx_unfold.
  destruct (falsy id); [by eexists _, _|].
  destruct (w !! epochKey id) as [[| |e]|]; try by eexists _, _.
  destruct (negb _); [by eexists _, _|].
  destruct (every_prepared _ _) as [[]|]; try by eexists _, _.
  cbn [negb]. rewrite lookup_insert_ne by done.
  destruct (w !! "ACTIVE_EPOCHS") as [[|table|]|]; try by eexists _, _.
  rewrite !lookup_insert_ne by done. rewrite Hco. by eexists _, _.
Qed.

(** [confirmCommit] throws the error of [JSON.parse], before any write,
    whenever [COMPLETED_EPOCHS] is unwritten. *)
Lemma confirmCommit_syntax_error ctx id p (w : World) :
  w !! "COMPLETED_EPOCHS" = None →
  confirmCommit ctx id p w = (Throw RuntimeError, w).
Proof. intros Hco. unfold confirmCommit. tx_unfold. by rewrite Hco. Qed.

(** The loop of [cleanupTimeouts] returns only if it has aborted nothing. *)
Lemma cleanup_loop_returns ctx entries :
  ∀ acc (w : World),
    w !! "ABORTED_EPOCHS" = None →
    match cleanup_loop ctx entries acc w with
    | (Ok ids, w') =>
        w' = w ∧ ids = acc ∧ existsb (λ entry, timedOut ctx entry.2) entries = false
    | (Throw _, _) => existsb (λ entry, timedOut ctx entry.2) entries = true
    end.
Proof.
  induction entries as [|[id e] entries IH]; intros acc w Hab; [done|].
  cbn [cleanup_loop existsb snd].
  destruct (timedOut ctx e).
  - unfold bind at 1.
    destruct (abortEpoch_throws ctx id "TIMEOUT" w Hab) as (err & w' & ->). done.
  - cbn [orb]. apply IH, Hab.
Qed.

(** ** The invariant of the ledger *)

Lemma stored_epoch_Some (w : World) id e :
  stored_epoch w id = Some e ↔ w !! epochKey id = Some (DEpoch e).
Proof.
  unfold stored_epoch. destruct (w !! epochKey id) as [[| |e']|]; split; try done.
  - by intros [= ->].
  - by intros [= ->].
Qed.

Lemma ledger_ok_init (w : World) : ledger_ok w → ledger_ok (initLedger w).2.
Proof.
  intros (Hact & Hco & Hab & Hty & Hst & Hrec). unfold initLedger. tx_unfold. cbn.
  split_and!.
  - exists ∅. by rewrite lookup_insert_eq.
  - by rewrite !lookup_insert_ne.
  - by rewrite !lookup_insert_ne.
  - intros id d. rewrite !lookup_insert_ne by done. apply Hty.
  - intros key e.
    destruct (decide (key = "ACTIVE_EPOCHS")) as [->|?];
      [by rewrite lookup_insert_eq|rewrite lookup_insert_ne by done].
    destruct (decide (key = "CONFIG")) as [->|?];
      [by rewrite lookup_insert_eq|rewrite lookup_insert_ne by done].
    apply Hst.
  - intros id e. unfold active_epochs. by rewrite lookup_insert_eq.
Qed.

Lemma ledger_ok_empty : ledger_ok (initLedger ∅).2.
Proof.
  unfold initLedger. tx_unfold. cbn. split_and!.
  - exists ∅. by rewrite lookup_insert_eq.
  - done.
  - done.
  - intros id d. by rewrite !lookup_insert_ne, lookup_empty.
  - intros key e.
    destruct (decide (key = "ACTIVE_EPOCHS")) as [->|?];
      [by rewrite lookup_insert_eq|rewrite lookup_insert_ne by done].
    destruct (decide (key = "CONFIG")) as [->|?];
      [by rewrite lookup_insert_eq|rewrite lookup_insert_ne by done].
    by rewrite lookup_empty.
  - intros id e. unfold active_epochs. by rewrite lookup_insert_eq.
Qed.

(** The ledger after both writes of [beginEpoch] or [prepare]. *)
Lemma ledger_ok_put (w : World) table id e :
  ledger_ok w → w !! "ACTIVE_EPOCHS" = Some (DEpochs table) →
  preparing_or_prepared e → id ∉ JsObject.inherited →
  ledger_ok (<["ACTIVE_EPOCHS" := DEpochs (JsObject.set table id e)]>
               (<[epochKey id := DEpoch e]> w)).
Proof.
  intros (Hact & Hco & Hab & Hty & Hst & Hrec) Htable He Hnot. split_and!.
  - eexists. by rewrite lookup_insert_eq.
  - by rewrite !lookup_insert_ne.
  - by rewrite !lookup_insert_ne.
  - intros id' d. rewrite lookup_insert_ne by done.
    destruct (decide (id' = id)) as [->|?].
    + rewrite lookup_insert_eq. intros [= <-]. split; [done|by eexists].
    + rewrite lookup_insert_ne by (intros ?%epochKey_inj; done). apply Hty.
  - intros key e'.
    destruct (decide (key = "ACTIVE_EPOCHS")) as [->|?];
      [by rewrite lookup_insert_eq|rewrite lookup_insert_ne by done].
    destruct (decide (key = epochKey id)) as [->|?].
    + rewrite lookup_insert_eq. by intros [= <-].
    + rewrite lookup_insert_ne by done. apply Hst.
  - intros id' e'. unfold active_epochs, stored_epoch.
    rewrite lookup_insert_eq. rewrite lookup_insert_ne by done.
    destruct (decide (id' = id)) as [->|Hne].
    + rewrite lookup_insert_eq. unfold JsObject.set.
      destruct (table !! id) eqn:Hid.
      * rewrite lookup_insert_eq. by intros [= <-].
      * case_bool_decide; [by rewrite Hid|]. rewrite lookup_insert_eq. by intros [= <-].
    + rewrite set_lookup_ne by done.
      rewrite lookup_insert_ne by (intros ?%epochKey_inj; done).
      intros Hin. specialize (Hrec id' e'). unfold active_epochs, stored_epoch in Hrec.
      rewrite Htable in Hrec. by apply Hrec.
Qed.

End CoordinatorChaincodeFacts.
Section CoordinatorChaincodeFacts2.
Import Chaincode ScimpCoordinatorChaincode.

Lemma beginEpoch_inv ctx id ps t m (w w' : World) e :
  beginEpoch ctx id ps t m w = (Ok e, w') →
  ∃ table,
    w !! "ACTIVE_EPOCHS" = Some (DEpochs table)
    ∧ JsObject.get table id = JsObject.Undefined
    ∧ falsy id = false
    ∧ ps = Some (Parsed (participants e)) ∧ participants e ≠ []
    ∧ epochId e = id ∧ status e = Status.PREPARING ∧ phase e = Phase.PREPARE
    ∧ preparations e = initial_preparations (participants e)
    ∧ startTime e = now ctx ∧ timeout e = t ∧ coordinator e = clientID ctx
    ∧ w' = <["ACTIVE_EPOCHS" := DEpochs (<[id := e]> table)]>
             (<[epochKey id := DEpoch e]> w).
Proof.
  unfold beginEpoch. tx_unfold. intros Hrun.
  destruct ps as [[ps|]|]; try done.
  2:{ by destruct (falsy id). }
  destruct (falsy id) eqn:Hid; [done|].
  destruct ps as [|p ps]; [done|]. cbn [length Nat.eqb] in Hrun.
  destruct (w !! "ACTIVE_EPOCHS") as [[|table|]|] eqn:Hact; try done.
  exists table.
  destruct (JsObject.get table id) eqn:Hget; try done.
  destruct m as [m|]; [|done].
  apply get_Undefined_not_inherited in Hget as Hfree. destruct Hfree as [Hfree Hnot].
  rewrite set_insert in Hrun by by apply not_inherited_not_proto.
  injection Hrun as <- <-. cbn [participants epochId status phase preparations
                                 startTime timeout coordinator].
  split_and!; try done.
  by rewrite insert_insert_ne by done.
Qed.

Lemma prepare_inv ctx id p data (w w' : World) r :
  prepare ctx id p data w = (Ok r, w') →
  ∃ e table d,
    falsy id = false ∧ falsy p = false
    ∧ w !! epochKey id = Some (DEpoch e)
    ∧ w !! "ACTIVE_EPOCHS" = Some (DEpochs table)
    ∧ status e = Status.PREPARING ∧ p ∈ participants e
    ∧ preparation_of e p = Some Preparation.WAITING
    ∧ timedOut ctx e = false
    ∧ data = Parsed d
    ∧ let e1 :=
        set_preparations
          (insert p {| Preparation.status_of := Preparation.PREPARED;
                       Preparation.timestamp := Some (now ctx);
                       Preparation.data := Some d |}) e in
      every_prepared (preparations e1) (participants e1) = Some (pr_allPrepared r)
      ∧ let e2 := if pr_allPrepared r
                  then set_phase Phase.COMMIT (set_status Status.PREPARED e1)
                  else e1 in
        w' = <["ACTIVE_EPOCHS" := DEpochs (JsObject.set table id e2)]>
               (<[epochKey id := DEpoch e2]> w).
Proof.
  unfold prepare. unfold readEpoch, bind at 1 2, getState, ret, throw. intros Hrun.
  destruct (falsy id) eqn:Hid; [done|]. destruct (falsy p) eqn:Hp; [done|].
  cbn [orb] in Hrun.
  destruct (w !! epochKey id) as [[| |e]|] eqn:He; try done.
  destruct (status e) eqn:Hst; try done. cbn [Status.eqb negb] in Hrun.
  destruct (bool_decide (p ∈ participants e)) eqn:Hin; [|done].
  apply bool_decide_eq_true in Hin. cbn [negb] in Hrun.
  destruct (JsObject.get (preparations e) p) as [[[] ts d]| |] eqn:Hprep; try done.
  apply get_Own in Hprep.
  destruct (timedOut ctx e) eqn:Hto.
  { unfold bind in Hrun. by destruct (abortEpoch _ _ _ _) as [[] ?]. }
  tx_unfold. destruct data as [data|]; [|done].
  destruct (every_prepared _ _) as [b|] eqn:Hall; [|done].
  rewrite lookup_insert_ne in Hrun by discriminate.
  destruct (w !! "ACTIVE_EPOCHS") as [[|table|]|] eqn:Hact; try done.
  exists e, table, data.
  injection Hrun as <- <-. cbn [pr_allPrepared].
  unfold preparation_of. rewrite Hprep. by split_and!.
Qed.

Lemma set_preparations_status f e : status (set_preparations f e) = status e.
Proof. done. Qed.

(** Every transaction keeps the invariant. *)
Lemma run_ok c (w : World) : ledger_ok w → ledger_ok (run c w).
Proof.
  intros Hok. pose proof Hok as (Hact & Hco & Hab & Hty & Hst & Hrec).
  destruct c as [|ctx id ps t m|ctx id p d|ctx id|ctx id reason|ctx id p|ctx];
    cbn [run]; unfold submit.
  - by apply ledger_ok_init.
  - destruct (beginEpoch ctx id ps t m w) as [[e|err] w'] eqn:Hrun; [|done]. cbn.
    apply beginEpoch_inv in Hrun
      as (table & Htable & Hget & _ & _ & _ & _ & He & _ & _ & _ & _ & _ & ->).
    apply get_Undefined_not_inherited in Hget as [_ Hnot].
    rewrite <- (set_insert table id e) by by apply not_inherited_not_proto.
    apply ledger_ok_put; [done|done|by left|done].
  - destruct (prepare ctx id p d w) as [[r|err] w'] eqn:Hrun; [|done]. cbn.
    apply prepare_inv in Hrun
      as (e & table & d' & _ & _ & He & Htable & Hste & _ & _ & _ & _ & Hall & ->).
    apply ledger_ok_put; [done|done| |by apply (Hty id _ He)].
    destruct (pr_allPrepared r); [by right|by left].
  - destruct (commit_throws ctx id w Hco) as (err & w' & ->). done.
  - unfold abort. destruct (abortEpoch_throws ctx id (default "MANUAL_ABORT" reason) w Hab)
      as (err & w' & ->). done.
  - by rewrite confirmCommit_syntax_error.
  - unfold cleanupTimeouts. tx_unfold. destruct Hact as [table Htable]. rewrite Htable.
    pose proof (cleanup_loop_returns ctx (map_to_list table) [] w Hab) as Hloop.
    destruct (cleanup_loop _ _ _ _) as [[ids|err] w']; [|done].
    destruct Hloop as (-> & _). done.
Qed.

Lemma run_all_ok calls : ∀ w : World, ledger_ok w → ledger_ok (fold_left (λ w c, run c w) calls w).
Proof.
  induction calls as [|c calls IH]; intros w Hok; [done|].
  cbn [fold_left]. apply IH. by apply run_ok.
Qed.

Lemma after_ok calls : ledger_ok (after calls).
Proof. apply run_all_ok, ledger_ok_empty. Qed.

End CoordinatorChaincodeFacts2.

(** * The EVM coordinator *)

Section CoordinatorSolFacts.
Import Evm ScimpCoordinatorSol.

Context (keccak256 : list N → list N).

Lemma epochAt_set_epoch key e st : epochAt (set_epoch key e st) key = e.
Proof. unfold epochAt, set_epoch. cbn. by rewrite lookup_insert_eq. Qed.

(** [abort] succeeds for every existing epoch, whatever its status. *)
Lemma sol_abort_run env id reason st :
  exists_ (epochAt st (epochKey keccak256 id)) = true →
  abort keccak256 env id reason st
  = Success true
      (set_epoch (epochKey keccak256 id)
         (set_status ABORTED (epochAt st (epochKey keccak256 id))) st).
Proof. intros Hex. unfold abort. by rewrite Hex. Qed.

Lemma sol_abort_missing env id reason st :
  exists_ (epochAt st (epochKey keccak256 id)) = false →
  abort keccak256 env id reason st = Revert "epoch not found".
Proof. intros Hex. unfold abort. by rewrite Hex. Qed.

Lemma sol_prepare_wrong_state env id st :
  exists_ (epochAt st (epochKey keccak256 id)) = true →
  status (epochAt st (epochKey keccak256 id)) ≠ PREPARING →
  prepare keccak256 env id st = Revert "epoch not in preparing state".
Proof.
  intros Hex Hst. unfold prepare. rewrite Hex. cbn [negb].
  by destruct (status _).
Qed.

Lemma sol_prepare_inv env id st st' b :
  prepare keccak256 env id st = Success b st' →
  status (epochAt st (epochKey keccak256 id)) = PREPARING
  ∧ isParticipant (epochAt st (epochKey keccak256 id)) (sender env) = true
  ∧ preparedAt (epochAt st' (epochKey keccak256 id)) (sender env) = 1%N
  ∧ (status (epochAt st' (epochKey keccak256 id)) = PREPARING
     ∨ status (epochAt st' (epochKey keccak256 id)) = PREPARED).
Proof.
  unfold prepare. intros Hrun.
  destruct (exists_ _); [|done]. cbn [negb] in Hrun.
  destruct (status (epochAt st (epochKey keccak256 id))) eqn:Hst; try done.
  cbn [status_eqb negb] in Hrun.
  destruct (isParticipant _ _) eqn:Hp; [|done]. cbn [negb] in Hrun.
  injection Hrun as _ <-. rewrite epochAt_set_epoch.
  split; [done|]. split; [done|].
  destruct (forallb _ _); cbn; unfold preparedAt; cbn; rewrite lookup_insert_eq; auto.
Qed.

Lemma sol_commit_inv env id st st' b :
  commit keccak256 env id st = Success b st' →
  status (epochAt st (epochKey keccak256 id)) = PREPARED
  ∧ status (epochAt st' (epochKey keccak256 id)) = COMMITTED.
Proof.
  unfold commit. intros Hrun.
  destruct (exists_ _); [|done]. cbn [negb] in Hrun.
  destruct (coordinator _ =? sender env)%N; [|done]. cbn [negb] in Hrun.
  destruct (status (epochAt st (epochKey keccak256 id))) eqn:Hst; try done.
  injection Hrun as _ <-. by rewrite epochAt_set_epoch.
Qed.

Lemma sol_confirmCommit_inv env id st st' b :
  confirmCommit keccak256 env id st = Success b st' →
  status (epochAt st (epochKey keccak256 id)) = COMMITTED
  ∧ isParticipant (epochAt st (epochKey keccak256 id)) (sender env) = true
  ∧ (status (epochAt st' (epochKey keccak256 id)) = COMMITTED
     ∨ status (epochAt st' (epochKey keccak256 id)) = COMPLETED).
Proof.
  unfold confirmCommit. intros Hrun.
  destruct (exists_ _); [|done]. cbn [negb] in Hrun.
  destruct (status (epochAt st (epochKey keccak256 id))) eqn:Hst; try done.
  cbn [status_eqb negb] in Hrun.
  destruct (isParticipant _ _) eqn:Hp; [|done]. cbn [negb] in Hrun.
  injection Hrun as _ <-. rewrite epochAt_set_epoch.
  split; [done|]. split; [done|].
  destruct (forallb _ _); cbn; auto.
Qed.

(** [confirmCommit] refuses a sender that is not a participant. *)
Lemma sol_confirmCommit_non_participant env id st :
  exists_ (epochAt st (epochKey keccak256 id)) = true →
  status (epochAt st (epochKey keccak256 id)) = COMMITTED →
  isParticipant (epochAt st (epochKey keccak256 id)) (sender env) = false →
  confirmCommit keccak256 env id st = Revert "sender not a participant".
Proof. intros Hex Hst Hp. unfold confirmCommit. by rewrite Hex, Hst, Hp. Qed.

(** [beginEpoch] refuses an identifier that was ever used: [exists] is set on
    creation and no function clears it. *)
Lemma sol_beginEpoch_duplicate env id ps timeout st :
  exists_ (epochAt st (epochKey keccak256 id)) = true →
  ∃ reason, beginEpoch keccak256 env id ps timeout st = Revert reason.
Proof.
  intros Hex. unfold beginEpoch. rewrite Hex.
  repeat case_match; eauto.
Qed.

Lemma sol_beginEpoch_no_participants env id timeout st :
  ∃ reason, beginEpoch keccak256 env id [] timeout st = Revert reason.
Proof. unfold beginEpoch. cbn. case_match; eauto. Qed.

End CoordinatorSolFacts.

(** * The sidechain verifier *)

Section VerifierFacts.
Import Chaincode SidechainVerifierChaincode.

Lemma verificationKey_not_roots h : verificationKey h ≠ "TRUSTED_ROOTS".
Proof. discriminate. Qed.

(** What a successful [verifyTransaction] read and wrote. *)
Lemma verifyTransaction_inv ctx sc bn tx merkleProof (w w1 : World) r :
  verifyTransaction ctx sc bn tx merkleProof w = (Ok r, w1) →
  ∃ proof table trustedRoot,
    merkleProof = Some (Parsed proof)
    ∧ falsy sc || falsy bn || falsy tx = false
    ∧ w !! "TRUSTED_ROOTS" = Some (DTrustedRoots table)
    ∧ table !! rootKey sc bn = Some trustedRoot
    ∧ verifyMerkleProof (Sha256.sha256_hex tx) proof (merkleRoot trustedRoot) = true
    ∧ r = {| transactionHash := Sha256.sha256_hex tx; vr_sourceChain := sc;
             vr_blockNumber := parseInt bn; transactionData := tx;
             vr_timestamp := now ctx; verifier := clientID ctx;
             vr_status := "VERIFIED" |}
    ∧ w1 = <["TRUSTED_ROOTS" :=
               DTrustedRoots
                 (<[rootKey sc bn := push_verified (Sha256.sha256_hex tx) trustedRoot]>
                    table)]>
             (<[verificationKey (Sha256.sha256_hex tx) := DVerification r]> w).
Proof.
  unfold verifyTransaction, readTrustedRoots, bind, getState, putState, ret, throw.
  intros Hrun.
  destruct merkleProof as [[proof|]|]; try done.
  2:{ repeat case_match; simplify_eq. }
  destruct (falsy sc || falsy bn || falsy tx); [done|].
  destruct (w !! "TRUSTED_ROOTS") as [[|table|]|] eqn:Ht; try done.
  destruct (table !! rootKey sc bn) as [trustedRoot|] eqn:Hroot; [|done].
  destruct (verifyMerkleProof _ _ _) eqn:Hvalid; [|done].
  cbn [negb] in Hrun. injection Hrun as <- <-.
  by exists proof, table, trustedRoot.
Qed.

End VerifierFacts.

(** ** Claim C10 *)

(** C10 (counterexample).  tx-1 is verified twice with the same arguments.
    Both calls succeed, but the second appends the transaction hash to the
    trusted root's list once more: the ledger after the second call differs
    from the ledger after the first. *)
Lemma verifyTransaction_twice_changes_state :
  SidechainVerifierChaincode.transactionHash
    <$> Chaincode.returned (Scenario.Verifier.verify_tx1 Scenario.Verifier.v_trusted).1
  = Some Scenario.Verifier.leaf
  ∧ SidechainVerifierChaincode.transactionHash
      <$> Chaincode.returned (Scenario.Verifier.verify_tx1 Scenario.Verifier.v_once).1
    = Some Scenario.Verifier.leaf
  ∧ SidechainVerifierChaincode.verifiedTransactions
      <$> SidechainVerifierChaincode.trusted_root_at Scenario.Verifier.v_once
            "chainA" "1000"
    = Some [Scenario.Verifier.leaf]
  ∧ SidechainVerifierChaincode.verifiedTransactions
      <$> SidechainVerifierChaincode.trusted_root_at Scenario.Verifier.v_twice
            "chainA" "1000"
    = Some [Scenario.Verifier.leaf; Scenario.Verifier.leaf]
  ∧ Scenario.Verifier.v_twice ≠ Scenario.Verifier.v_once.
Proof.
  split_and!; try (vm_compute; reflexivity).
  intros Heq.
  apply (f_equal (λ w, length <$> (SidechainVerifierChaincode.verifiedTransactions
                          <$> SidechainVerifierChaincode.trusted_root_at w "chainA" "1000")))
    in Heq.
  vm_compute in Heq. discriminate Heq.
Qed.

(** C10 (amended).  After a successful [verifyTransaction], a second call
    with the same arguments succeeds again and returns the same record for
    the same clock and caller; the record stored under the transaction hash
    is the one returned.  It is not idempotent on the trusted root: each call
    appends the transaction hash to [verifiedTransactions], so the list after
    the second call is the list after the first followed by the hash. *)
Theorem verifyTransaction_again_appends :
  ∀ ctx ctx' sc bn tx merkleProof (w w1 : SidechainVerifierChaincode.World) r,
    SidechainVerifierChaincode.verifyTransaction ctx sc bn tx merkleProof w
    = (Chaincode.Ok r, w1) →
    ∃ r' w2 trustedRoot,
      SidechainVerifierChaincode.verifyTransaction ctx' sc bn tx merkleProof w1
      = (Chaincode.Ok r', w2)
      ∧ (ctx' = ctx → r' = r)
      ∧ SidechainVerifierChaincode.stored_verification w1 (Sha256.sha256_hex tx) = Some r
      ∧ SidechainVerifierChaincode.stored_verification w2 (Sha256.sha256_hex tx) = Some r'
      ∧ SidechainVerifierChaincode.trusted_root_at w1 sc bn = Some trustedRoot
      ∧ SidechainVerifierChaincode.trusted_root_at w2 sc bn
        = Some (SidechainVerifierChaincode.push_verified (Sha256.sha256_hex tx) trustedRoot)
      ∧ SidechainVerifierChaincode.verifiedTransactions
          (SidechainVerifierChaincode.push_verified (Sha256.sha256_hex tx) trustedRoot)
        = SidechainVerifierChaincode.verifiedTransactions trustedRoot
          ++ [Sha256.sha256_hex tx].
Proof.
  intros ctx ctx' sc bn tx merkleProof w w1 r Hrun.
  destruct (verifyTransaction_inv _ _ _ _ _ _ _ _ Hrun)
    as (proof & table & root0 & -> & Hargs & Ht & Hroot & Hvalid & Hr & Hw1).
  set (h := Sha256.sha256_hex tx) in *.
  set (root1 := SidechainVerifierChaincode.push_verified h root0).
  assert (Ht1 : w1 !! "TRUSTED_ROOTS"
                = Some (SidechainVerifierChaincode.DTrustedRoots
                          (<[SidechainVerifierChaincode.rootKey sc bn := root1]> table))).
  { rewrite Hw1. apply lookup_insert_eq. }
  eexists _, _, root1. split_and!.
  - unfold SidechainVerifierChaincode.verifyTransaction,
      SidechainVerifierChaincode.readTrustedRoots, Chaincode.bind, Chaincode.getState,
      Chaincode.putState, Chaincode.ret, Chaincode.throw.
    rewrite Hargs, Ht1, lookup_insert_eq. fold h.
    change (SidechainVerifierChaincode.merkleRoot root1)
      with (SidechainVerifierChaincode.merkleRoot root0).
    rewrite Hvalid. cbn [negb]. reflexivity.
  - intros ->. by rewrite Hr.
  - unfold SidechainVerifierChaincode.stored_verification. rewrite Hw1.
    rewrite lookup_insert_ne by (symmetry; apply verificationKey_not_roots).
    by rewrite lookup_insert_eq.
  - unfold SidechainVerifierChaincode.stored_verification.
    rewrite lookup_insert_ne by (symmetry; apply verificationKey_not_roots).
    by rewrite lookup_insert_eq.
  - unfold SidechainVerifierChaincode.trusted_root_at. rewrite Ht1.
    apply lookup_insert_eq.
  - unfold SidechainVerifierChaincode.trusted_root_at.
    rewrite lookup_insert_eq. apply lookup_insert_eq.
  - reflexivity.
Qed.

(** The theorem at the scenario: the second verification of tx-1. *)
Lemma verifyTransaction_again_appends_witness :
  ∃ r' w2, Scenario.Verifier.verify_tx1 Scenario.Verifier.v_once = (Chaincode.Ok r', w2).
Proof.
  destruct (Scenario.Verifier.verify_tx1 Scenario.Verifier.v_trusted) as [[r|err] w1] eqn:Hfirst.
  - destruct (verifyTransaction_again_appends (Scenario.ctx_at 10) (Scenario.ctx_at 10)
                "chainA" "1000" "tx-1" (Some (SidechainVerifierChaincode.Parsed
                                               Scenario.Verifier.proof_of_tx1))
                Scenario.Verifier.v_trusted w1 r Hfirst)
      as (r' & w2 & _ & Hsecond & _).
    exists r', w2. unfold Scenario.Verifier.v_once.
    replace ((Scenario.Verifier.verify_tx1 Scenario.Verifier.v_trusted).2) with w1
      by (rewrite Hfirst; reflexivity).
    exact Hsecond.
  - apply (f_equal (λ x, Chaincode.returned x.1)) in Hfirst.
    vm_compute in Hfirst. discriminate Hfirst.
Defined.

(** * The anchor registry chaincode: readers, validators, reachable ledgers *)

Section AnchorRegistryLedgerFacts.
Import Chaincode AnchorRegistryChaincode AnchorRegistryLedger.

Lemma append_assoc (a b c : string) : (a +:+ b) +:+ c = a +:+ (b +:+ c).
Proof.
  induction a as [|x a IH]; [reflexivity|].
  change (String x ((a +:+ b) +:+ c) = String x (a +:+ (b +:+ c))). by rewrite IH.
Qed.

Lemma createRootKey_not_indexKey c0 b0 c b : createRootKey c0 b0 ≠ indexKey c b.
Proof. discriminate. Qed.

Lemma indexKey_createRootKey c' b' c b :
  indexKey c' b' = indexKey c b → createRootKey c' b' = createRootKey c b.
Proof.
  unfold indexKey, createRootKey. intros Heq.
  apply (inj (String.append "chain~")) in Heq. by rewrite Heq.
Qed.

Lemma createRootKey_not_validators c b : createRootKey c b ≠ "VALIDATORS".
Proof. discriminate. Qed.

Lemma createRootKey_not_required c b : createRootKey c b ≠ "REQUIRED_SIGNATURES".
Proof. discriminate. Qed.

Lemma indexKey_not_validators c b : indexKey c b ≠ "VALIDATORS".
Proof. discriminate. Qed.

Lemma indexKey_not_required c b : indexKey c b ≠ "REQUIRED_SIGNATURES".
Proof. discriminate. Qed.

(** The record a successful [anchorRoot] builds. *)
Lemma anchorRoot_cases ctx c b r sigs md (w : World) :
  (∃ e, anchorRoot ctx c b r sigs md w = (Throw e, w))
  ∨ ∃ parsed validators required m,
      sigs = Parsed parsed ∧ md = Parsed m
      ∧ falsy c = false ∧ falsy b = false ∧ falsy r = false
      ∧ w !! createRootKey c b = None
      ∧ w !! "VALIDATORS" = Some (DValidators validators)
      ∧ w !! "REQUIRED_SIGNATURES" = Some (DText required)
      ∧ below (length (List.filter (kept validators) parsed)) (parseInt required) = false
      ∧ anchorRoot ctx c b r sigs md w
        = (Ok {| chainId := c; blockNumber := parseInt b; merkleRoot := r;
                 timestamp := now ctx; txId := txID ctx;
                 validatorSignatures := List.filter (kept validators) parsed;
                 metadata := m; status := "ANCHORED" |},
           <[indexKey c b := DText (createRootKey c b)]>
             (<[createRootKey c b :=
                  DAnchor {| chainId := c; blockNumber := parseInt b; merkleRoot := r;
                             timestamp := now ctx; txId := txID ctx;
                             validatorSignatures := List.filter (kept validators) parsed;
                             metadata := m; status := "ANCHORED" |}]> w)).
Proof.
  unfold anchorRoot.
  destruct (falsy c) eqn:Hc; [left; eauto|].
  destruct (falsy b) eqn:Hb; [left; eauto|].
  destruct (falsy r) eqn:Hr; [left; eauto|]. cbn [orb].
  unfold bind, getState, putState, ret, throw.
  destruct (w !! createRootKey c b) eqn:Hk; [left; eauto|].
  destruct sigs as [parsed|]; [|left; eauto].
  destruct (w !! "VALIDATORS") as [[validators| |]|] eqn:Hv;
    destruct (w !! "REQUIRED_SIGNATURES") as [[|required|]|] eqn:Hq;
    try (left; eauto; fail).
  destruct (below (length parsed) (parseInt required)); [left; eauto|].
  rewrite verifySignatures_filter.
  destruct (below (length (List.filter (kept validators) parsed)) (parseInt required))
    eqn:Hkept; [left; eauto|].
  destruct md as [m|]; [|left; eauto].
  right. exists parsed, validators, required, m. by repeat split.
Qed.

Lemma kept_fields validators sig :
  kept validators sig = true → validator sig ≠ "" ∧ signature sig ≠ "".
Proof.
  unfold kept, falsy. intros H.
  apply andb_true_iff in H as [H Hs]. apply andb_true_iff in H as [Hv _].
  apply negb_true_iff in Hv, Hs.
  split; intros Heq; rewrite Heq in *; discriminate.
Qed.

Lemma includes_elem_of validators v : includes validators v = true ↔ v ∈ validators.
Proof.
  unfold includes. rewrite existsb_exists. split.
  - intros (x & Hin & Heq). apply String.eqb_eq in Heq. subst. by apply list_elem_of_In.
  - intros Hin. exists v. split; [by apply list_elem_of_In|apply String.eqb_refl].
Qed.

Lemma kept_mono validators v sig :
  kept validators sig = true → kept (validators ++ [v]) sig = true.
Proof.
  unfold kept. intros H.
  apply andb_true_iff in H as [H Hs]. apply andb_true_iff in H as [Hv Hin].
  rewrite Hv, Hs. cbn [andb]. rewrite andb_true_r.
  apply includes_elem_of. apply includes_elem_of in Hin. apply elem_of_app. by left.
Qed.

Lemma filter_length_mono {A} (f g : A → bool) (l : list A) :
  (∀ x, f x = true → g x = true) →
  (length (List.filter f l) ≤ length (List.filter g l))%nat.
Proof.
  intros Hfg. induction l as [|x l IH]; [done|]. cbn [List.filter].
  destruct (f x) eqn:Hf.
  - rewrite (Hfg _ Hf). cbn [length]. lia.
  - destruct (g x); cbn [length]; lia.
Qed.

Lemma addValidator_cases v (w : World) :
  (∃ validators, w !! "VALIDATORS" = Some (DValidators validators)
                 ∧ includes validators v = false
                 ∧ addValidator v w
                   = (Ok tt, <["VALIDATORS" := DValidators (validators ++ [v])]> w))
  ∨ (∃ e, addValidator v w = (Throw e, w)).
Proof.
  unfold addValidator, bind, getState, putState, throw.
  destruct (w !! "VALIDATORS") as [[validators| |]|]; try (right; eauto; fail).
  destruct (includes validators v) eqn:Hin; [right; eauto|].
  left. by exists validators.
Qed.

Lemma tilde_free_split c1 b1 c2 b2 :
  tilde_free c1 = true → tilde_free c2 = true →
  c1 +:+ "~" +:+ b1 = c2 +:+ "~" +:+ b2 → c1 = c2 ∧ b1 = b2.
Proof.
  revert c2. induction c1 as [|x c1 IH]; intros [|y c2] H1 H2 Heq; simpl in *.
  - injection Heq as Heq. by subst.
  - injection Heq as Hy _. subst y. by rewrite Ascii.eqb_refl in H2.
  - injection Heq as Hx _. subst x. by rewrite Ascii.eqb_refl in H1.
  - injection Heq as Hx Heq. subst y.
    apply andb_true_iff in H1 as [_ H1]. apply andb_true_iff in H2 as [_ H2].
    by destruct (IH c2 H1 H2 Heq) as [-> ->].
Qed.

Lemma anchors_ok_run c w : anchors_ok w → anchors_ok (run c w).
Proof.
  intros [Hreq Hanchors]. destruct c as [|ctx c b r sigs md|v]; cbn [run].
  - unfold initLedger, bind, putState. cbn [fst snd]. split.
    + right. apply lookup_insert_eq.
    + intros key a Hkey.
      rewrite lookup_insert_ne in Hkey by (intros <-; by rewrite lookup_insert_eq in Hkey).
      rewrite lookup_insert_ne in Hkey by (intros <-; by rewrite lookup_insert_eq in Hkey).
      destruct (Hanchors key a Hkey) as (Hok & c & b & -> & Hidx).
      split; [done|]. exists c, b. split; [done|].
      by rewrite !lookup_insert_ne by discriminate.
  - destruct (anchorRoot_cases ctx c b r sigs md w)
      as [[e ->]|(parsed & validators & required & m & -> & -> & Hc & Hb & Hr & Hfree
                   & Hv & Hq & Hkept & ->)]; [done|].
    cbn [snd]. split.
    { rewrite !lookup_insert_ne by discriminate. done. }
    intros key a Hkey.
    destruct (decide (key = indexKey c b)) as [->|Hidx];
      [by rewrite lookup_insert_eq in Hkey|].
    rewrite lookup_insert_ne in Hkey by done.
    destruct (decide (key = createRootKey c b)) as [->|Hroot].
    + rewrite lookup_insert_eq in Hkey. injection Hkey as <-. split.
      * repeat split.
        -- cbn. destruct Hreq as [Hreq|Hreq]; rewrite Hreq in Hq; [done|].
           injection Hq as <-. unfold below in Hkept.
           change (parseInt "2") with (Some 2%Z) in Hkept.
           apply Z.ltb_ge in Hkept. lia.
        -- cbn. apply Forall_forall. intros sig Hsig.
           apply list_elem_of_In, filter_In in Hsig as [_ Hsig].
           by eapply kept_fields.
      * exists c, b. split; [done|]. apply lookup_insert_eq.
    + rewrite lookup_insert_ne in Hkey by done.
      destruct (Hanchors key a Hkey) as (Hok & c' & b' & -> & Hidx').
      split; [done|]. exists c', b'. split; [done|].
      destruct (decide (indexKey c' b' = indexKey c b)) as [Heq|Hne].
      * exfalso. apply Hroot. by apply indexKey_createRootKey.
      * rewrite lookup_insert_ne by done.
        rewrite lookup_insert_ne by discriminate. done.
  - destruct (addValidator_cases v w) as [(validators & Hv & Hin & ->)|[e ->]]; [|done].
    cbn [snd]. split.
    { rewrite lookup_insert_ne by discriminate. done. }
    intros key a Hkey.
    rewrite lookup_insert_ne in Hkey by (intros <-; by rewrite lookup_insert_eq in Hkey).
    destruct (Hanchors key a Hkey) as (Hok & c & b & -> & Hidx).
    split; [done|]. exists c, b. split; [done|].
    by rewrite lookup_insert_ne by discriminate.
Qed.

Lemma validators_nodup_run c w :
  (∀ vs, validators_of w = Some vs → NoDup vs) →
  ∀ vs, validators_of (run c w) = Some vs → NoDup vs.
Proof.
  intros Hw vs. destruct c as [|ctx c b r sigs md|v]; cbn [run].
  - unfold initLedger, bind, putState, validators_of. cbn [fst snd].
    rewrite lookup_insert_ne, lookup_insert_eq by discriminate.
    intros [= <-]. apply (bool_decide_unpack (NoDup _)). vm_compute. exact I.
  - destruct (anchorRoot_cases ctx c b r sigs md w)
      as [[e ->]|(parsed & validators & required & m & -> & -> & Hc & Hb & Hr & Hfree
                   & Hv & Hq & Hkept & ->)]; [apply Hw|].
    cbn [snd]. unfold validators_of. rewrite !lookup_insert_ne by discriminate.
    apply Hw.
  - destruct (addValidator_cases v w) as [(validators & Hv & Hin & ->)|[e ->]];
      [|apply Hw].
    cbn [snd]. unfold validators_of. rewrite lookup_insert_eq. intros [= <-].
    apply NoDup_app. split; [|split].
    + apply Hw. unfold validators_of. by rewrite Hv.
    + intros x Hx ->%list_elem_of_singleton.
      apply includes_elem_of in Hx. congruence.
    + apply NoDup_singleton.
Qed.

End AnchorRegistryLedgerFacts.

(** X1.  [anchorRoot] is all or nothing: a call that throws leaves the ledger
    as it was, and a call that returns has found no document under the root
    key and has written exactly two keys, the record it returns under
    [root~<chainId>~<blockNumber>] and the index entry under
    [chain~<chainId>~<blockNumber>]. *)
Theorem anchorRoot_all_or_nothing ctx chainId blockNumber merkleRoot signatures metadata
    (w : AnchorRegistryChaincode.World) :
  match AnchorRegistryChaincode.anchorRoot ctx chainId blockNumber merkleRoot
          signatures metadata w with
  | (Chaincode.Throw _, w') => w' = w
  | (Chaincode.Ok a, w') =>
      w !! AnchorRegistryChaincode.createRootKey chainId blockNumber = None
      ∧ AnchorRegistryChaincode.status a = "ANCHORED"
      ∧ AnchorRegistryChaincode.merkleRoot a = merkleRoot
      ∧ w' = <[AnchorRegistryLedger.indexKey chainId blockNumber :=
                 AnchorRegistryChaincode.DText
                   (AnchorRegistryChaincode.createRootKey chainId blockNumber)]>
               (<[AnchorRegistryChaincode.createRootKey chainId blockNumber :=
                    AnchorRegistryChaincode.DAnchor a]> w)
  end.
Proof.
  destruct (anchorRoot_cases ctx chainId blockNumber merkleRoot signatures metadata w)
    as [[e ->]|(parsed & validators & required & m & -> & -> & Hc & Hb & Hr & Hfree
                 & Hv & Hq & Hkept & ->)]; [done|].
  by repeat split.
Qed.

(** X2.  What [anchorRoot] stores can be read back: after a successful call
    [getAnchoredRoot] returns the record the call returned and
    [isRootAnchored] answers true, while before the call [isRootAnchored]
    answered false and [getAnchoredRoot] threw "Root not found"; the readers
    leave the ledger alone. *)
Theorem anchorRoot_then_getAnchoredRoot ctx chainId blockNumber merkleRoot signatures
    metadata (w w' : AnchorRegistryChaincode.World) a :
  AnchorRegistryChaincode.anchorRoot ctx chainId blockNumber merkleRoot signatures
    metadata w = (Chaincode.Ok a, w') →
  AnchorRegistryChaincode.getAnchoredRoot chainId blockNumber w'
  = (Chaincode.Ok (AnchorRegistryChaincode.DAnchor a), w')
  ∧ AnchorRegistryChaincode.isRootAnchored chainId blockNumber w' = (Chaincode.Ok true, w')
  ∧ AnchorRegistryChaincode.isRootAnchored chainId blockNumber w = (Chaincode.Ok false, w)
  ∧ AnchorRegistryChaincode.getAnchoredRoot chainId blockNumber w
    = (Chaincode.Throw (AnchorRegistryChaincode.RootNotFound chainId blockNumber), w).
Proof.
  intros Hrun.
  destruct (anchorRoot_cases ctx chainId blockNumber merkleRoot signatures metadata w)
    as [[e He]|(parsed & validators & required & m & -> & -> & Hc & Hb & Hr & Hfree
                 & Hv & Hq & Hkept & Heq)]; [congruence|].
  rewrite Heq in Hrun. injection Hrun as <- <-.
  unfold AnchorRegistryChaincode.getAnchoredRoot, AnchorRegistryChaincode.isRootAnchored,
    Chaincode.bind, Chaincode.getState, Chaincode.ret, Chaincode.throw.
  rewrite lookup_insert_ne by discriminate.
  rewrite lookup_insert_eq, Hfree.
  repeat split.
Qed.

(** The theorem on the initialised ledger, for block 7 of chainA signed by
    two validators. *)
Lemma anchorRoot_then_getAnchoredRoot_witness :
  ∃ a w',
    Examples.Registry.anchor "chainA" "7" "aa" Examples.Registry.w_init = (Chaincode.Ok a, w')
    ∧ AnchorRegistryChaincode.getAnchoredRoot "chainA" "7" w'
      = (Chaincode.Ok (AnchorRegistryChaincode.DAnchor a), w')
    ∧ AnchorRegistryChaincode.isRootAnchored "chainA" "7" Examples.Registry.w_init
      = (Chaincode.Ok false, Examples.Registry.w_init).
Proof.
  destruct (Examples.Registry.anchor "chainA" "7" "aa" Examples.Registry.w_init)
    as [[a|e] w'] eqn:Hrun.
  - exists a, w'. split; [reflexivity|].
    destruct (anchorRoot_then_getAnchoredRoot _ _ _ _ _ _ _ _ _ Hrun) as (H1 & _ & H3 & _).
    split; [exact H1|exact H3].
  - exfalso. apply (f_equal fst) in Hrun. vm_compute in Hrun. discriminate Hrun.
Defined.

(** X3.  The root key does not separate its two parts: for a chain id that
    contains [~], the pair (c1~c2, b) shares its key with the pair
    (c1, c2~b).  Once one of the two is anchored, [isRootAnchored] answers
    true for the other and [anchorRoot] refuses it as already anchored. *)
Theorem createRootKey_collision ctx c1 c2 b merkleRoot signatures metadata
    (w w' : AnchorRegistryChaincode.World) a ctx' merkleRoot' signatures' metadata' :
  AnchorRegistryChaincode.anchorRoot ctx (c1 +:+ "~" +:+ c2) b merkleRoot signatures
    metadata w = (Chaincode.Ok a, w') →
  Chaincode.falsy c1 = false → Chaincode.falsy merkleRoot' = false →
  AnchorRegistryChaincode.createRootKey (c1 +:+ "~" +:+ c2) b
  = AnchorRegistryChaincode.createRootKey c1 (c2 +:+ "~" +:+ b)
  ∧ AnchorRegistryChaincode.isRootAnchored c1 (c2 +:+ "~" +:+ b) w' = (Chaincode.Ok true, w')
  ∧ AnchorRegistryChaincode.anchorRoot ctx' c1 (c2 +:+ "~" +:+ b) merkleRoot' signatures'
      metadata' w'
    = (Chaincode.Throw
         (AnchorRegistryChaincode.RootAlreadyAnchored c1 (c2 +:+ "~" +:+ b)), w').
Proof.
  intros Hrun Hc1 Hr'.
  assert (Hkey : AnchorRegistryChaincode.createRootKey (c1 +:+ "~" +:+ c2) b
                 = AnchorRegistryChaincode.createRootKey c1 (c2 +:+ "~" +:+ b)).
  { unfold AnchorRegistryChaincode.createRootKey. f_equal.
    by rewrite !append_assoc. }
  split; [exact Hkey|].
  destruct (anchorRoot_cases ctx (c1 +:+ "~" +:+ c2) b merkleRoot signatures metadata w)
    as [[e He]|(parsed & validators & required & m & -> & -> & Hc & Hb & Hr & Hfree
                 & Hv & Hq & Hkept & Heq)]; [congruence|].
  rewrite Heq in Hrun. injection Hrun as <- <-.
  assert (Hb' : Chaincode.falsy (c2 +:+ "~" +:+ b) = false) by (by destruct c2).
  unfold AnchorRegistryChaincode.isRootAnchored, AnchorRegistryChaincode.anchorRoot,
    Chaincode.bind, Chaincode.getState, Chaincode.ret, Chaincode.throw.
  rewrite Hc1, Hb', Hr'. cbn [orb]. rewrite <- Hkey.
  rewrite lookup_insert_ne by discriminate.
  rewrite lookup_insert_eq. by split.
Qed.

(** The theorem for the chain ids [side~1] and [side]: anchoring block 7 of
    [side~1] blocks the pair ([side], [1~7]). *)
Lemma createRootKey_collision_witness :
  ∃ a w',
    Examples.Registry.anchor ("side" +:+ "~" +:+ "1") "7" "aa" Examples.Registry.w_init
    = (Chaincode.Ok a, w')
    ∧ Examples.Registry.anchor "side" ("1" +:+ "~" +:+ "7") "bb" w'
      = (Chaincode.Throw
           (AnchorRegistryChaincode.RootAlreadyAnchored "side" ("1" +:+ "~" +:+ "7")), w').
Proof.
  destruct (Examples.Registry.anchor ("side" +:+ "~" +:+ "1") "7" "aa"
              Examples.Registry.w_init) as [[a|e] w'] eqn:Hrun.
  - exists a, w'. split; [reflexivity|].
    refine (proj2 (proj2 (createRootKey_collision Examples.Registry.ctx "side" "1" "7" "aa"
                            Examples.Registry.signatures
                            (AnchorRegistryChaincode.Parsed "{}")
                            Examples.Registry.w_init w' a
                            Examples.Registry.ctx "bb" Examples.Registry.signatures
                            (AnchorRegistryChaincode.Parsed "{}") Hrun _ _)));
      reflexivity.
  - exfalso. apply (f_equal fst) in Hrun. vm_compute in Hrun. discriminate Hrun.
Defined.

(** X4.  For chain ids that do not contain [~] the root key is injective:
    two pairs with the same key are the same pair. *)
Theorem createRootKey_injective c1 b1 c2 b2 :
  AnchorRegistryLedger.tilde_free c1 = true →
  AnchorRegistryLedger.tilde_free c2 = true →
  AnchorRegistryChaincode.createRootKey c1 b1 = AnchorRegistryChaincode.createRootKey c2 b2 →
  c1 = c2 ∧ b1 = b2.
Proof.
  intros H1 H2 Heq. apply (tilde_free_split c1 b1 c2 b2 H1 H2).
  unfold AnchorRegistryChaincode.createRootKey in Heq. cbn in Heq. by injection Heq.
Qed.

(** The theorem at the pair (chainA, 7). *)
Lemma createRootKey_injective_witness : "chainA" = "chainA" ∧ "7" = "7".
Proof.
  apply (createRootKey_injective "chainA" "7" "chainA" "7"); reflexivity.
Defined.

(** X5.  Adding a validator never turns an acceptable anchoring into a
    refused one: if [anchorRoot] succeeds on a ledger, the same call succeeds
    on the ledger [addValidator] leaves, whether [addValidator] itself
    succeeded or threw. *)
Theorem addValidator_keeps_anchoring validatorId ctx chainId blockNumber merkleRoot
    signatures metadata (w w1 : AnchorRegistryChaincode.World) a :
  AnchorRegistryChaincode.anchorRoot ctx chainId blockNumber merkleRoot signatures
    metadata w = (Chaincode.Ok a, w1) →
  ∃ a' w2,
    AnchorRegistryChaincode.anchorRoot ctx chainId blockNumber merkleRoot signatures
      metadata (AnchorRegistryChaincode.addValidator validatorId w).2
    = (Chaincode.Ok a', w2)
    ∧ (length (AnchorRegistryChaincode.validatorSignatures a)
       ≤ length (AnchorRegistryChaincode.validatorSignatures a'))%nat.
Proof.
  intros Hrun.
  destruct (addValidator_cases validatorId w) as [(validators & Hv & Hin & ->)|[e ->]];
    [|by exists a, w1].
  cbn [snd].
  destruct (anchorRoot_cases ctx chainId blockNumber merkleRoot signatures metadata w)
    as [[e He]|(parsed & validators' & required & m & -> & -> & Hc & Hb & Hr & Hfree
                 & Hv' & Hq & Hkept & Heq)]; [congruence|].
  rewrite Heq in Hrun. injection Hrun as <- <-.
  rewrite Hv in Hv'. injection Hv' as <-.
  assert (Hle : (length (List.filter (AnchorRegistryChaincode.kept validators) parsed)
                 ≤ length (List.filter
                             (AnchorRegistryChaincode.kept (validators ++ [validatorId]))
                             parsed))%nat).
  { apply filter_length_mono. intros sig. apply kept_mono. }
  destruct (anchorRoot_cases ctx chainId blockNumber merkleRoot
              (AnchorRegistryChaincode.Parsed parsed) (AnchorRegistryChaincode.Parsed m)
              (<["VALIDATORS" :=
                   AnchorRegistryChaincode.DValidators (validators ++ [validatorId])]> w))
    as [[e He]|(parsed2 & validators2 & required2 & m2 & [= <-] & [= <-] & _ & _ & _ & _
                 & Hv2 & Hq2 & _ & Heq2)].
  - exfalso. revert He. unfold AnchorRegistryChaincode.anchorRoot.
    rewrite Hc, Hb, Hr. cbn [orb].
    unfold Chaincode.bind, Chaincode.getState, Chaincode.putState, Chaincode.ret,
      Chaincode.throw.
    rewrite lookup_insert_ne by discriminate.
    rewrite Hfree, lookup_insert_eq, lookup_insert_ne, Hq by discriminate.
    rewrite verifySignatures_filter.
    assert (AnchorRegistryChaincode.below (length parsed) (Chaincode.parseInt required)
            = false) as ->.
    { destruct (AnchorRegistryChaincode.below (length parsed) _) eqn:Hall; [|done].
      by rewrite (below_mono _ _ _ (List.filter_length_le _ _) Hall) in Hkept. }
    assert (AnchorRegistryChaincode.below
              (length (List.filter
                         (AnchorRegistryChaincode.kept (validators ++ [validatorId])) parsed))
              (Chaincode.parseInt required) = false) as ->.
    { apply not_true_is_false. intros Hall.
      by rewrite (below_mono _ _ _ Hle Hall) in Hkept. }
    discriminate.
  - rewrite lookup_insert_eq in Hv2. injection Hv2 as <-.
    rewrite Heq2. do 2 eexists. split; [reflexivity|]. exact Hle.
Qed.

(** The theorem on the initialised ledger: the anchoring of block 7 of chainA
    still succeeds once [validator4] has been added. *)
Lemma addValidator_keeps_anchoring_witness :
  ∃ a' w2,
    Examples.Registry.anchor "chainA" "7" "aa"
      (AnchorRegistryChaincode.addValidator "validator4" Examples.Registry.w_init).2
    = (Chaincode.Ok a', w2).
Proof.
  destruct (Examples.Registry.anchor "chainA" "7" "aa" Examples.Registry.w_init)
    as [[a|e] w1] eqn:Hrun.
  - destruct (addValidator_keeps_anchoring "validator4" _ _ _ _ _ _ _ _ _ Hrun)
      as (a' & w2 & H & _).
    by exists a', w2.
  - exfalso. apply (f_equal fst) in Hrun. vm_compute in Hrun. discriminate Hrun.
Defined.

(** X6.  On every ledger the contract reaches from the empty ledger by
    [initLedger], [anchorRoot] and [addValidator] calls, each stored anchor
    has status ANCHORED and records at least two signature entries, each with
    a non-empty validator and a non-empty signature; it is stored under a
    root key, and the index entry of that key points at it. *)
Theorem stored_anchors_well_formed (calls : list AnchorRegistryLedger.Call) :
  AnchorRegistryLedger.anchors_ok (AnchorRegistryLedger.after calls).
Proof.
  unfold AnchorRegistryLedger.after.
  assert (Hinit : AnchorRegistryLedger.anchors_ok ∅).
  { split; [by left|]. intros key a Hkey. by rewrite lookup_empty in Hkey. }
  revert Hinit. generalize (∅ : AnchorRegistryChaincode.World).
  induction calls as [|c calls IH]; intros w Hw; [done|].
  cbn [fold_left]. apply IH. by apply anchors_ok_run.
Qed.

(** X7.  The validator list never holds a validator twice: on every ledger
    reached from the empty ledger the list under [VALIDATORS], when there is
    one, is duplicate-free. *)
Theorem validators_never_repeat (calls : list AnchorRegistryLedger.Call) :
  match AnchorRegistryLedger.validators_of (AnchorRegistryLedger.after calls) with
  | Some validators => NoDup validators
  | None => True
  end.
Proof.
  assert (H : ∀ vs, AnchorRegistryLedger.validators_of (AnchorRegistryLedger.after calls)
                    = Some vs → NoDup vs).
  { unfold AnchorRegistryLedger.after.
    assert (Hinit : ∀ vs, AnchorRegistryLedger.validators_of ∅ = Some vs → NoDup vs).
    { intros vs. unfold AnchorRegistryLedger.validators_of. by rewrite lookup_empty. }
    revert Hinit. generalize (∅ : AnchorRegistryChaincode.World).
    induction calls as [|c calls IH]; intros w Hw; [done|].
    cbn [fold_left]. apply IH. by apply validators_nodup_run. }
  destruct (AnchorRegistryLedger.validators_of _) as [vs|]; [by apply H|done].
Qed.

(** X8.  The signatures the demonstration script generates for its default
    validators are refused by the chaincode on the ledger [initLedger]
    writes: the names [validator1], [validator2], [validator3] are not the
    ledger's validator ids, so no entry is kept and the call throws
    "Invalid signatures: only 0 valid signatures found" (or the
    required-arguments error when an argument is empty). *)
Theorem demo_signatures_refused (sha256 : string → string) ctx chainId blockNumber root :
  ScimpDemo.anchorRootOnMainchain sha256 ctx chainId blockNumber root
    ScimpDemo.default_validators (AnchorRegistryChaincode.initLedger ∅).2
  = (Chaincode.Throw
       (if Chaincode.falsy chainId || Chaincode.falsy blockNumber || Chaincode.falsy root
        then AnchorRegistryChaincode.ArgumentsRequired
        else AnchorRegistryChaincode.InvalidSignatures 0),
     (AnchorRegistryChaincode.initLedger ∅).2).
Proof.
  set (w := (AnchorRegistryChaincode.initLedger ∅).2).
  assert (Hk : w !! AnchorRegistryChaincode.createRootKey chainId blockNumber = None).
  { unfold w, AnchorRegistryChaincode.initLedger, Chaincode.bind, Chaincode.putState.
    cbn [fst snd]. rewrite !lookup_insert_ne by discriminate. apply lookup_empty. }
  assert (Hv : w !! "VALIDATORS"
               = Some (AnchorRegistryChaincode.DValidators
                         ["validator1@org1.example.com"; "validator2@org2.example.com";
                          "validator3@org3.example.com"])) by (vm_compute; reflexivity).
  assert (Hq : w !! "REQUIRED_SIGNATURES" = Some (AnchorRegistryChaincode.DText "2"))
    by (vm_compute; reflexivity).
  unfold ScimpDemo.anchorRootOnMainchain, AnchorRegistryChaincode.anchorRoot.
  destruct (Chaincode.falsy chainId || Chaincode.falsy blockNumber || Chaincode.falsy root);
    [reflexivity|].
  unfold Chaincode.bind, Chaincode.getState, Chaincode.throw.
  rewrite Hk, Hv, Hq. reflexivity.
Qed.

(** * The EVM registry: constructor, validator set, anchors *)

Section SwapPop.

Context {A : Type}.

(** Overwriting the element at an index with the last one and popping the
    list removes that element, up to the order of the others. *)
Lemma swap_pop_perm (d : A) (pre : list A) (x : A) (suf : list A) :
  removelast (<[length pre := List.last (pre ++ x :: suf) d]> (pre ++ x :: suf))
  ≡ₚ pre ++ suf.
Proof.
  destruct suf as [|y suf _] using rev_ind.
  - rewrite last_last, list_insert_id by by apply list_lookup_middle.
    by rewrite removelast_last, app_nil_r.
  - replace (pre ++ x :: suf ++ [y]) with ((pre ++ x :: suf) ++ [y])
      by by rewrite <- app_assoc.
    rewrite last_last, insert_app_l by (rewrite length_app; cbn; lia).
    rewrite removelast_last.
    replace (length pre) with (length pre + 0)%nat at 1 by lia.
    rewrite insert_app_r. cbn [insert list_insert].
    apply Permutation_app_head. by rewrite Permutation_app_comm.
Qed.

Lemma filter_all (P : A → Prop) `{∀ x, Decision (P x)} (l : list A) :
  (∀ x, x ∈ l → P x) → filter P l = l.
Proof.
  induction l as [|x l IH]; intros Hall; [done|].
  rewrite filter_cons_True by (apply Hall; by left).
  f_equal. apply IH. intros y Hy. apply Hall. by right.
Qed.

End SwapPop.

Section AnchorRegistryAdminFacts.
Import Evm AnchorRegistrySol AnchorRegistryAdmin.

Context (keccak256 : list N → list N).
Context (ecrecover : list N → N → list N → list N → N).

Lemma validatorAt_register st v a :
  validatorAt (register st v) a = if decide (a = v) then true else validatorAt st a.
Proof.
  unfold validatorAt, register. cbn. case_decide as Ha.
  - subst. by rewrite lookup_insert_eq.
  - by rewrite lookup_insert_ne.
Qed.

Lemma register_ok st v :
  v ≠ 0%N → validatorAt st v = false → validators_ok st → validators_ok (register st v).
Proof.
  intros Hv Hnot (Hnd & H0 & Hiff). split; [|split].
  - cbn. apply NoDup_app. split; [done|]. split; [|apply NoDup_singleton].
    intros x Hx ->%list_elem_of_singleton. apply Hiff in Hx. congruence.
  - cbn. rewrite elem_of_app, list_elem_of_singleton. intros [?|?]; [done|]. congruence.
  - intros a. rewrite validatorAt_register. cbn [validatorsList register].
    rewrite elem_of_app, list_elem_of_singleton.
    case_decide as Ha; [split; [done|by right]|].
    rewrite <- Hiff. split; [by intros [?|?]|by left].
Qed.

(** The step shared by the constructor and [addValidator]. *)
Lemma enrol_ok st v :
  v ≠ 0%N → validators_ok st →
  validators_ok (if negb (validatorAt st v) then register st v else st).
Proof.
  intros Hv Hok. destruct (validatorAt st v) eqn:Hat; cbn [negb]; [done|].
  by apply register_ok.
Qed.

Lemma enrol_validatorAt st v a :
  validatorAt (if negb (validatorAt st v) then register st v else st) a = true
  ↔ validatorAt st a = true ∨ a = v.
Proof.
  destruct (validatorAt st v) eqn:Hat; cbn [negb].
  - split; [by left|]. intros [?| ->]; done.
  - rewrite validatorAt_register. case_decide as Ha; [by split; [right|]|].
    split; [by left|]. by intros [?|?].
Qed.

Lemma enrol_frame st v :
  requiredSignatures (if negb (validatorAt st v) then register st v else st)
  = requiredSignatures st
  ∧ anchors (if negb (validatorAt st v) then register st v else st) = anchors st.
Proof. by destruct (negb (validatorAt st v)). Qed.

Lemma constructor_loop_spec vs :
  ∀ st, validators_ok st →
    match constructor_loop vs st with
    | Success _ st' =>
        (0%N ∉ vs) ∧ validators_ok st'
        ∧ requiredSignatures st' = requiredSignatures st ∧ anchors st' = anchors st
        ∧ ∀ a, validatorAt st' a = true ↔ validatorAt st a = true ∨ a ∈ vs
    | Revert _ => 0%N ∈ vs
    end.
Proof.
  induction vs as [|v vs IH]; intros st Hok; cbn [constructor_loop].
  - split_and!; try done; [by intros ?%elem_of_nil|].
    intros a. split; [by left|]. intros [?|?%elem_of_nil]; done.
  - destruct (v =? 0)%N eqn:Hv.
    { apply N.eqb_eq in Hv. subst. by left. }
    apply N.eqb_neq in Hv.
    specialize (IH _ (enrol_ok st v Hv Hok)).
    destruct (constructor_loop vs _) as [[] st'|reason]; [|by right].
    destruct IH as (H0 & Hok' & Hreq & Hanch & Hat).
    destruct (enrol_frame st v) as [Hreq0 Hanch0].
    split_and!; try done.
    + intros [?|?]%elem_of_cons; [congruence|done].
    + congruence.
    + congruence.
    + intros a. split.
      * intros Ha. apply Hat in Ha as [Ha|Ha]; [|right; by right].
        apply enrol_validatorAt in Ha as [Ha| ->]; [by left|right; by left].
      * intros [Ha|Ha]; apply Hat.
        -- left. apply enrol_validatorAt. by left.
        -- apply elem_of_cons in Ha as [->|Ha]; [|by right].
           left. apply enrol_validatorAt. by right.
Qed.

Lemma emptyState_ok req :
  validators_ok {| anchors := anchors emptyState; isValidator := isValidator emptyState;
                   requiredSignatures := req;
                   validatorsList := validatorsList emptyState |}.
Proof.
  split; [apply NoDup_nil_2|]. split; [by intros ?%elem_of_nil|].
  intros a. unfold validatorAt. cbn. rewrite lookup_empty. split; [by intros ?%elem_of_nil|done].
Qed.

(** The search loop of [removeValidator], for a list that holds [v]. *)
Lemma removeValidator_loop_found l v pre1 suf :
  ∀ pre0, l = pre0 ++ pre1 ++ v :: suf → v ∉ pre1 →
    removeValidator_loop l (length pre0) (pre1 ++ v :: suf) v
    = removelast (<[length (pre0 ++ pre1) := List.last l 0%N]> l).
Proof.
  induction pre1 as [|x pre1 IH]; intros pre0 Hl Hnot; cbn [app removeValidator_loop].
  - by rewrite N.eqb_refl, app_nil_r.
  - apply not_elem_of_cons in Hnot as [Hx Hnot].
    destruct (x =? v)%N eqn:Heq; [apply N.eqb_eq in Heq; congruence|].
    replace (S (length pre0)) with (length (pre0 ++ [x])) by (rewrite length_app; cbn; lia).
    rewrite IH; [|by rewrite <- app_assoc|done].
    by rewrite <- app_assoc.
Qed.

Lemma removeValidator_loop_absent l v rest :
  ∀ i, v ∉ rest → removeValidator_loop l i rest v = l.
Proof.
  induction rest as [|x rest IH]; intros i Hnot; [done|]. cbn [removeValidator_loop].
  apply not_elem_of_cons in Hnot as [Hx Hnot].
  destruct (x =? v)%N eqn:Heq; [apply N.eqb_eq in Heq; congruence|].
  by apply IH.
Qed.

Lemma removeValidator_loop_perm l v :
  NoDup l → removeValidator_loop l 0 l v ≡ₚ filter (λ a, a ≠ v) l.
Proof.
  intros Hnd. destruct (decide (v ∈ l)) as [Hin|Hnot].
  - apply list_elem_of_split in Hin as (pre & suf & ->).
    apply NoDup_app in Hnd as (_ & Hpre & Hsuf).
    apply NoDup_cons in Hsuf as [Hsuf _].
    assert (v ∉ pre) as Hvpre by (intros Hv; by apply (Hpre v Hv); left).
    rewrite (removeValidator_loop_found _ v pre suf []) by done.
    cbn [app length]. rewrite swap_pop_perm.
    rewrite filter_app, filter_cons_False by (by intros ?).
    rewrite !filter_all; [done| |]; intros x Hx ->; done.
  - rewrite removeValidator_loop_absent by done.
    rewrite filter_all; [done|]. by intros x Hx ->.
Qed.

Lemma removeValidator_ok v st :
  validators_ok st → validators_ok (state_after (removeValidator v st) st).
Proof.
  intros (Hnd & H0 & Hiff). unfold removeValidator.
  destruct (validatorAt st v) eqn:Hat; cbn [state_after]; [|done].
  pose proof (removeValidator_loop_perm _ v Hnd) as Hperm.
  split; [|split]; cbn [validatorsList].
  - rewrite Hperm. by apply NoDup_filter.
  - rewrite Hperm, list_elem_of_filter. by intros [_ ?].
  - intros a. unfold validatorAt. cbn [isValidator].
    rewrite Hperm, list_elem_of_filter.
    destruct (decide (a = v)) as [->|Ha].
    + rewrite lookup_insert_eq. cbn. split; [by intros [? _]|done].
    + rewrite lookup_insert_ne by done. rewrite Hiff. unfold validatorAt. by split; [intros [_ ?]|].
Qed.

Lemma registry_run_ok c st : validators_ok st → validators_ok (run keccak256 ecrecover c st).
Proof.
  intros Hok. destruct c as [env c b r sigs|v|v]; cbn [run].
  - unfold anchorRoot. repeat case_match; cbn [state_after]; done.
  - unfold addValidator. destruct (v =? 0)%N eqn:Hv; cbn [state_after]; [done|].
    apply N.eqb_neq in Hv. by apply enrol_ok.
  - by apply removeValidator_ok.
Qed.

Lemma constructed_ok vs req :
  validators_ok (state_after (constructor vs req) emptyState).
Proof.
  unfold constructor. repeat case_match; cbn [state_after]; try apply (emptyState_ok 0).
  pose proof (constructor_loop_spec vs _ (emptyState_ok req)) as Hloop.
  destruct (constructor_loop vs _) as [[] st'|reason]; cbn [state_after].
  - by destruct Hloop as (_ & ? & _).
  - apply (emptyState_ok 0).
Qed.

Lemma registry_after_ok vs req calls : validators_ok (after keccak256 ecrecover vs req calls).
Proof.
  unfold after. generalize (constructed_ok vs req).
  generalize (state_after (constructor vs req) emptyState).
  induction calls as [|c calls IH]; intros st Hok; [done|].
  cbn [fold_left]. apply IH. by apply registry_run_ok.
Qed.

(** A successful [anchorRoot] has found [requiredSignatures] distinct listed
    validators among the recovered signers. *)
Lemma anchorRoot_success_listed env chainId blockNumber merkleRoot signatures st st' :
  validators_ok st →
  anchorRoot keccak256 ecrecover env chainId blockNumber merkleRoot signatures st
  = Success tt st' →
  (N.to_nat (requiredSignatures st) ≤ length (validatorsList st))%nat.
Proof.
  intros (Hnd & _ & Hiff) Hrun. unfold anchorRoot in Hrun.
  destruct (negb (timestamp _ =? 0)%N); [done|].
  destruct (negb (requiredSignatures st <=? N.of_nat (length signatures))%N); [done|].
  set (message := anchorMessage keccak256 chainId blockNumber merkleRoot) in *.
  destruct (requiredSignatures st <=? count_valid keccak256 ecrecover st message signatures [] 0)%N
    eqn:Hvalid; [|done].
  apply N.leb_le in Hvalid.
  apply (count_valid_quorum keccak256 ecrecover st message signatures [] 0%N) in Hvalid.
  assert (Hsub : fresh keccak256 ecrecover st message [] signatures
                 ⊆ list_to_set (validatorsList st)).
  { intros a. unfold AnchorRegistrySol.fresh, valid_signers.
    rewrite !elem_of_list_to_set, !list_elem_of_filter.
    intros (_ & (_ & Hat) & _). by apply Hiff. }
  apply subseteq_size in Hsub. rewrite size_list_to_set in Hsub by done. lia.
Qed.

End AnchorRegistryAdminFacts.

(** X9.  The constructor of the EVM registry: it reverts exactly when the
    validator array is empty, the threshold is zero or larger than the length
    of the array, or the array holds the zero address.  When it succeeds the
    threshold is stored as given, no anchor is stored, [isValidator] is true
    exactly on the given addresses, and [validators()] lists each of them
    once. *)
Theorem constructor_spec (_validators : list N) (_requiredSignatures : N) :
  match AnchorRegistryAdmin.constructor _validators _requiredSignatures with
  | Evm.Success _ st =>
      _validators ≠ [] ∧ (0 < _requiredSignatures ≤ N.of_nat (length _validators))%N
      ∧ (0%N ∉ _validators)
      ∧ AnchorRegistrySol.requiredSignatures st = _requiredSignatures
      ∧ AnchorRegistrySol.anchors st = ∅
      ∧ (∀ a, AnchorRegistrySol.validatorAt st a = true ↔ a ∈ _validators)
      ∧ AnchorRegistryAdmin.validators st ≡ₚ remove_dups _validators
  | Evm.Revert _ =>
      _validators = [] ∨ _requiredSignatures = 0%N
      ∨ (N.of_nat (length _validators) < _requiredSignatures)%N ∨ 0%N ∈ _validators
  end.
Proof.
  unfold AnchorRegistryAdmin.constructor.
  destruct _validators as [|v vs] eqn:Hvs; [by left|]. rewrite <- Hvs.
  assert ((0 <? length _validators)%nat = true) as -> by (by subst).
  cbn [negb].
  destruct (0 <? _requiredSignatures)%N eqn:Hpos; cbn [andb negb].
  2:{ apply N.ltb_ge in Hpos. right. left. lia. }
  apply N.ltb_lt in Hpos.
  destruct (_requiredSignatures <=? N.of_nat (length _validators))%N eqn:Hle; cbn [negb].
  2:{ apply N.leb_gt in Hle. right. right. by left. }
  apply N.leb_le in Hle.
  pose proof (constructor_loop_spec _validators _ (emptyState_ok _requiredSignatures))
    as Hloop.
  destruct (AnchorRegistryAdmin.constructor_loop _validators _) as [[] st|reason].
  - destruct Hloop as (H0 & (Hnd & _ & Hiff) & Hreq & Hanch & Hat).
    assert (Hat' : ∀ a, AnchorRegistrySol.validatorAt st a = true ↔ a ∈ _validators).
    { intros a. rewrite Hat. unfold AnchorRegistrySol.validatorAt at 1. cbn.
      rewrite lookup_empty. cbn. split; [by intros [?|?]|by right]. }
    repeat split; try done; try lia; try apply Hat'; [by subst|].
    apply NoDup_Permutation; [done|apply NoDup_remove_dups|].
    intros a. rewrite elem_of_remove_dups, <- Hat'. apply Hiff.
  - right. right. by right.
Qed.

(** X10.  The validator set of the EVM registry stays well formed: whatever
    the constructor arguments and whatever calls of [anchorRoot],
    [addValidator] and [removeValidator] follow, [validatorsList] holds no
    address twice, never holds the zero address, and holds exactly the
    addresses for which [isValidator] is true. *)
Theorem validator_set_well_formed (keccak256 : list N → list N)
    (ecrecover : list N → N → list N → list N → N)
    (_validators : list N) (_requiredSignatures : N)
    (calls : list AnchorRegistryAdmin.Call) :
  AnchorRegistryAdmin.validators_ok
    (AnchorRegistryAdmin.after keccak256 ecrecover _validators _requiredSignatures calls).
Proof. apply registry_after_ok. Qed.

(** X11.  A registry whose threshold exceeds the number of listed validators
    accepts no anchor: [anchorRoot] reverts for every input.  Neither the
    constructor (which compares the threshold with the length of an array
    that may repeat an address) nor [removeValidator] (which never looks at
    the threshold) prevents such a state. *)
Theorem anchorRoot_unreachable_quorum (keccak256 : list N → list N)
    (ecrecover : list N → N → list N → list N → N)
    (_validators : list N) (_requiredSignatures : N)
    (calls : list AnchorRegistryAdmin.Call) env chainId blockNumber merkleRoot signatures :
  let st := AnchorRegistryAdmin.after keccak256 ecrecover _validators
              _requiredSignatures calls in
  (length (AnchorRegistryAdmin.validators st)
   < N.to_nat (AnchorRegistrySol.requiredSignatures st))%nat →
  ∃ reason,
    AnchorRegistrySol.anchorRoot keccak256 ecrecover env chainId blockNumber merkleRoot
      signatures st = Evm.Revert reason.
Proof.
  intros st Hlt.
  destruct (AnchorRegistrySol.anchorRoot keccak256 ecrecover env chainId blockNumber
              merkleRoot signatures st) as [[] st'|reason] eqn:Hrun; [|by exists reason].
  exfalso.
  pose proof (anchorRoot_success_listed keccak256 ecrecover _ _ _ _ _ _ _
                (registry_after_ok keccak256 ecrecover _validators _requiredSignatures calls) Hrun).
  unfold AnchorRegistryAdmin.validators in Hlt. fold st in H. lia.
Qed.

(** The theorem for a registry deployed with the same address given twice and
    a threshold of two, and for one deployed with two validators of which one
    is removed; [ecrecover] is taken to recover the validator 5 from every
    signature. *)
Lemma anchorRoot_unreachable_quorum_witness :
  (∃ reason,
     AnchorRegistrySol.anchorRoot Examples.RegistrySol.keccak256
       Examples.RegistrySol.ecrecover Examples.RegistrySol.env 1 7 (repeat 1%N 32)
       [repeat 0%N 65; repeat 1%N 65]
       (AnchorRegistryAdmin.after Examples.RegistrySol.keccak256
          Examples.RegistrySol.ecrecover [5%N; 5%N] 2 [])
     = Evm.Revert reason)
  ∧ ∃ reason,
      AnchorRegistrySol.anchorRoot Examples.RegistrySol.keccak256
        Examples.RegistrySol.ecrecover Examples.RegistrySol.env 1 7 (repeat 1%N 32)
        [repeat 0%N 65; repeat 1%N 65]
        (AnchorRegistryAdmin.after Examples.RegistrySol.keccak256
           Examples.RegistrySol.ecrecover [5%N; 6%N] 2
           [AnchorRegistryAdmin.CallRemoveValidator 6])
      = Evm.Revert reason.
Proof.
  split; apply anchorRoot_unreachable_quorum; vm_compute; lia.
Defined.

(** X12.  [removeValidator] on any registry storage reached by calls: it
    never reverts, clears the flag of the address, removes it from
    [validators()] while keeping every other listed address (the order may
    change, since the last address is moved into the freed slot), and leaves
    the flags of the other addresses, the threshold and the anchors as they
    were. *)
Theorem removeValidator_effect (keccak256 : list N → list N)
    (ecrecover : list N → N → list N → list N → N)
    (_validators : list N) (_requiredSignatures : N)
    (calls : list AnchorRegistryAdmin.Call) (v : N) :
  let st := AnchorRegistryAdmin.after keccak256 ecrecover _validators
              _requiredSignatures calls in
  ∃ st', AnchorRegistryAdmin.removeValidator v st = Evm.Success tt st'
         ∧ AnchorRegistrySol.validatorAt st' v = false
         ∧ AnchorRegistryAdmin.validators st'
           ≡ₚ filter (λ a, a ≠ v) (AnchorRegistryAdmin.validators st)
         ∧ (∀ a, a ≠ v →
              AnchorRegistrySol.validatorAt st' a = AnchorRegistrySol.validatorAt st a)
         ∧ AnchorRegistrySol.requiredSignatures st' = AnchorRegistrySol.requiredSignatures st
         ∧ AnchorRegistrySol.anchors st' = AnchorRegistrySol.anchors st.
Proof.
  intros st.
  destruct (registry_after_ok keccak256 ecrecover _validators _requiredSignatures calls)
    as (Hnd & H0 & Hiff). fold st in Hnd, H0, Hiff.
  unfold AnchorRegistryAdmin.removeValidator, AnchorRegistryAdmin.validators.
  destruct (AnchorRegistrySol.validatorAt st v) eqn:Hat.
  - eexists. split; [reflexivity|]. cbn.
    repeat split.
    + unfold AnchorRegistrySol.validatorAt. cbn. by rewrite lookup_insert_eq.
    + by apply removeValidator_loop_perm.
    + intros a Ha. unfold AnchorRegistrySol.validatorAt. cbn.
      by rewrite lookup_insert_ne.
  - exists st. repeat split; [done|].
    rewrite filter_all; [done|]. intros a Ha ->. apply Hiff in Ha. congruence.
Qed.

(** X13.  Adding a validator and removing it again restores the validator
    set: for a non-zero address that is not a validator of a registry storage
    reached by calls, [addValidator] followed by [removeValidator] succeeds
    and leaves [validators()] and every [isValidator] flag as they were. *)
Theorem addValidator_then_removeValidator (keccak256 : list N → list N)
    (ecrecover : list N → N → list N → list N → N)
    (_validators : list N) (_requiredSignatures : N)
    (calls : list AnchorRegistryAdmin.Call) (v : N) :
  let st := AnchorRegistryAdmin.after keccak256 ecrecover _validators
              _requiredSignatures calls in
  v ≠ 0%N → AnchorRegistrySol.validatorAt st v = false →
  ∃ st1 st2,
    AnchorRegistryAdmin.addValidator v st = Evm.Success tt st1
    ∧ AnchorRegistryAdmin.validators st1 = AnchorRegistryAdmin.validators st ++ [v]
    ∧ AnchorRegistrySol.validatorAt st1 v = true
    ∧ AnchorRegistryAdmin.removeValidator v st1 = Evm.Success tt st2
    ∧ AnchorRegistryAdmin.validators st2 = AnchorRegistryAdmin.validators st
    ∧ ∀ a, AnchorRegistrySol.validatorAt st2 a = AnchorRegistrySol.validatorAt st a.
Proof.
  intros st Hv Hat.
  destruct (registry_after_ok keccak256 ecrecover _validators _requiredSignatures calls)
    as (Hnd & H0 & Hiff). fold st in Hnd, H0, Hiff.
  assert (Hnot : v ∉ AnchorRegistrySol.validatorsList st).
  { intros Hin. apply Hiff in Hin. congruence. }
  unfold AnchorRegistryAdmin.addValidator, AnchorRegistryAdmin.removeValidator,
    AnchorRegistryAdmin.validators.
  apply N.eqb_neq in Hv. rewrite Hv, Hat. cbn [negb].
  do 2 eexists. split; [reflexivity|]. split; [reflexivity|].
  rewrite validatorAt_register, decide_True by done.
  split; [reflexivity|]. split; [reflexivity|]. cbn.
  split.
  - rewrite (removeValidator_loop_found _ v (AnchorRegistrySol.validatorsList st) [] [])
      by done.
    cbn [app]. rewrite last_last, list_insert_id by by apply list_lookup_middle.
    apply removelast_last.
  - intros a. unfold AnchorRegistrySol.validatorAt. cbn.
    destruct (decide (a = v)) as [->|Ha].
    + rewrite lookup_insert_eq. cbn. symmetry. exact Hat.
    + by rewrite !lookup_insert_ne.
Qed.

(** The theorem for a registry deployed with the validator 5 and the new
    address 6. *)
Lemma addValidator_then_removeValidator_witness :
  ∃ st1 st2,
    AnchorRegistryAdmin.addValidator 6 Examples.RegistrySol.st_one = Evm.Success tt st1
    ∧ AnchorRegistryAdmin.removeValidator 6 st1 = Evm.Success tt st2
    ∧ AnchorRegistryAdmin.validators st2
      = AnchorRegistryAdmin.validators Examples.RegistrySol.st_one.
Proof.
  destruct (addValidator_then_removeValidator Examples.RegistrySol.keccak256
              Examples.RegistrySol.ecrecover [5%N] 1 [] 6)
    as (st1 & st2 & H1 & _ & _ & H2 & H3 & _); [done|reflexivity|].
  exists st1, st2. split; [exact H1|]. split; [exact H2|exact H3].
Defined.

(** X14.  What [anchorRoot] stores, [getAnchor] returns: after a successful
    call the view yields the Merkle root given, the block time of the call
    and its sender; before the call the time stored under the key was zero,
    which is how the contract tells that no anchor exists. *)
Theorem anchorRoot_then_getAnchor (keccak256 : list N → list N)
    (ecrecover : list N → N → list N → list N → N)
    env chainId blockNumber merkleRoot signatures st st' :
  AnchorRegistrySol.anchorRoot keccak256 ecrecover env chainId blockNumber merkleRoot
    signatures st = Evm.Success tt st' →
  AnchorRegistrySol.getAnchor keccak256 chainId blockNumber st'
  = (merkleRoot, Evm.blockTimestamp env, Evm.sender env)
  ∧ (AnchorRegistrySol.getAnchor keccak256 chainId blockNumber st).1.2 = 0%N.
Proof.
  intros Hrun. unfold AnchorRegistrySol.anchorRoot in Hrun.
  destruct (AnchorRegistrySol.timestamp _ =? 0)%N eqn:Hts; [|done].
  apply N.eqb_eq in Hts. cbn [negb] in Hrun.
  repeat (case_match; try done). injection Hrun as <-.
  unfold AnchorRegistrySol.getAnchor, AnchorRegistrySol.anchorAt,
    AnchorRegistrySol.set_anchor. cbn.
  rewrite lookup_insert_eq. cbn. split; [done|exact Hts].
Qed.

(** The theorem for a registry with the single validator 5, which
    [ecrecover] is taken to recover from the signature. *)
Lemma anchorRoot_then_getAnchor_witness :
  ∃ st',
    AnchorRegistrySol.anchorRoot Examples.RegistrySol.keccak256
      Examples.RegistrySol.ecrecover Examples.RegistrySol.env 1 7 (repeat 1%N 32)
      [repeat 0%N 65] Examples.RegistrySol.st_one = Evm.Success tt st'
    ∧ AnchorRegistrySol.getAnchor Examples.RegistrySol.keccak256 1 7 st'
      = (repeat 1%N 32, 1700000000%N, 3%N).
Proof.
  destruct (AnchorRegistrySol.anchorRoot Examples.RegistrySol.keccak256
              Examples.RegistrySol.ecrecover Examples.RegistrySol.env 1 7 (repeat 1%N 32)
              [repeat 0%N 65] Examples.RegistrySol.st_one) as [[] st'|reason] eqn:Hrun.
  - exists st'. split; [reflexivity|].
    exact (proj1 (anchorRoot_then_getAnchor _ _ _ _ _ _ _ _ _ Hrun)).
  - exfalso. vm_compute in Hrun. discriminate Hrun.
Defined.

(** * The sidechain verifier: trusted roots, records, batches *)

Section VerifierLedgerFacts.
Import Chaincode SidechainVerifierChaincode SidechainVerifierLedger.

Lemma verificationKey_inj h1 h2 : verificationKey h1 = verificationKey h2 → h1 = h2.
Proof. unfold verificationKey. apply (inj (String.append "verification~")). Qed.

(** [verifyTransaction] either throws and leaves the ledger alone, or
    returns the record it has stored. *)
Lemma verifyTransaction_cases ctx sc bn tx mp (w : World) :
  (∃ e, verifyTransaction ctx sc bn tx mp w = (Throw e, w))
  ∨ ∃ proof table trustedRoot,
      mp = Some (Parsed proof)
      ∧ w !! "TRUSTED_ROOTS" = Some (DTrustedRoots table)
      ∧ table !! rootKey sc bn = Some trustedRoot
      ∧ verifyMerkleProof (Sha256.sha256_hex tx) proof (merkleRoot trustedRoot) = true
      ∧ verifyTransaction ctx sc bn tx mp w
        = (Ok {| transactionHash := Sha256.sha256_hex tx; vr_sourceChain := sc;
                 vr_blockNumber := parseInt bn; transactionData := tx;
                 vr_timestamp := now ctx; verifier := clientID ctx;
                 vr_status := "VERIFIED" |},
           <["TRUSTED_ROOTS" :=
               DTrustedRoots
                 (<[rootKey sc bn := push_verified (Sha256.sha256_hex tx) trustedRoot]>
                    table)]>
             (<[verificationKey (Sha256.sha256_hex tx) :=
                  DVerification
                    {| transactionHash := Sha256.sha256_hex tx; vr_sourceChain := sc;
                       vr_blockNumber := parseInt bn; transactionData := tx;
                       vr_timestamp := now ctx; verifier := clientID ctx;
                       vr_status := "VERIFIED" |}]> w)).
Proof.
  unfold verifyTransaction, readTrustedRoots, bind, getState, putState, ret, throw.
  destruct mp as [[proof|]|]; [| |left; eauto].
  2:{ left. repeat case_match; simplify_eq; eauto. }
  destruct (falsy sc || falsy bn || falsy tx); [left; eauto|].
  destruct (w !! "TRUSTED_ROOTS") as [[|table|]|] eqn:Ht; try (left; eauto; fail).
  destruct (table !! rootKey sc bn) as [trustedRoot|] eqn:Hroot; [|left; eauto].
  destruct (verifyMerkleProof _ _ _) eqn:Hvalid; [|left; eauto].
  right. by exists proof, table, trustedRoot.
Qed.

Lemma setTrustedRoot_cases ctx sc bn root proof (w : World) :
  (∃ e, setTrustedRoot ctx sc bn root proof w = (Throw e, w))
  ∨ ∃ table p,
      proof = Parsed p ∧ w !! "TRUSTED_ROOTS" = Some (DTrustedRoots table)
      ∧ setTrustedRoot ctx sc bn root proof w
        = (Ok {| sourceChain := sc; blockNumber := parseInt bn; merkleRoot := root;
                 timestamp := now ctx; proof := p; status := "TRUSTED";
                 verifiedTransactions := [] |},
           <["TRUSTED_ROOTS" :=
               DTrustedRoots
                 (<[rootKey sc bn :=
                      {| sourceChain := sc; blockNumber := parseInt bn; merkleRoot := root;
                         timestamp := now ctx; proof := p; status := "TRUSTED";
                         verifiedTransactions := [] |}]> table)]> w).
Proof.
  unfold setTrustedRoot, readTrustedRoots, bind, getState, putState, ret, throw.
  destruct (falsy sc || falsy bn || falsy root); [left; eauto|].
  destruct (w !! "TRUSTED_ROOTS") as [[|table|]|] eqn:Ht; try (left; eauto; fail).
  destruct proof as [p|]; [|left; eauto].
  right. by exists table, p.
Qed.

(** The outcome of [verifyTransaction] depends on the ledger through the
    trusted Merkle roots only. *)
Lemma verifyTransaction_roots ctx sc bn tx mp (w w' : World) :
  trusted_merkle_roots w = trusted_merkle_roots w' →
  (verifyTransaction ctx sc bn tx mp w).1 = (verifyTransaction ctx sc bn tx mp w').1.
Proof.
  unfold trusted_merkle_roots. intros Hroots.
  unfold verifyTransaction, readTrustedRoots, bind, getState, putState, ret, throw.
  destruct mp as [mp|]; [|done].
  destruct (falsy sc || falsy bn || falsy tx); [done|].
  destruct (w !! "TRUSTED_ROOTS") as [[|table|]|];
    destruct (w' !! "TRUSTED_ROOTS") as [[|table'|]|]; try done.
  injection Hroots as Hroots.
  apply (f_equal (λ m, m !! rootKey sc bn)) in Hroots. rewrite !lookup_fmap in Hroots.
  destruct (table !! rootKey sc bn) as [tr|], (table' !! rootKey sc bn) as [tr'|];
    try done.
  cbn in Hroots. injection Hroots as Hroots. rewrite <- Hroots.
  destruct mp as [proof|]; [|done].
  by destruct (verifyMerkleProof _ _ _).
Qed.

Lemma verifyTransaction_keeps_roots ctx sc bn tx mp (w : World) :
  trusted_merkle_roots (verifyTransaction ctx sc bn tx mp w).2 = trusted_merkle_roots w.
Proof.
  destruct (verifyTransaction_cases ctx sc bn tx mp w)
    as [[e ->]|(proof & table & tr & -> & Ht & Hroot & Hvalid & ->)]; [done|].
  unfold trusted_merkle_roots. cbn [snd]. rewrite lookup_insert_eq, Ht. f_equal.
  rewrite fmap_insert. apply insert_id. by rewrite lookup_fmap, Hroot.
Qed.

Lemma verdict_roots ctx (w w' : World) tx :
  trusted_merkle_roots w = trusted_merkle_roots w' → verdict ctx w tx = verdict ctx w' tx.
Proof.
  intros Hroots. unfold verdict, verifyOne.
  by rewrite (verifyTransaction_roots _ _ _ _ _ w w' Hroots).
Qed.

Lemma verifyBatch_loop_spec ctx txs :
  ∀ results (w : World),
    (verifyBatch_loop ctx txs results w).1 = Ok (results ++ (verdict ctx w <$> txs))
    ∧ trusted_merkle_roots (verifyBatch_loop ctx txs results w).2 = trusted_merkle_roots w.
Proof.
  induction txs as [|tx txs IH]; intros results w; cbn [verifyBatch_loop fmap list_fmap].
  { unfold ret. cbn. by rewrite app_nil_r. }
  pose proof (verifyTransaction_keeps_roots ctx (bt_sourceChain tx) (bt_blockNumber tx)
                (bt_transactionData tx) (Parsed <$> bt_merkleProof tx) w) as Hkeep.
  fold (verifyOne ctx tx) in Hkeep.
  assert (Hverdict : ∀ r w', verifyOne ctx tx w = (r, w') →
            verdict ctx w tx = match r with Ok a => Verified a | Throw e => Failed e tx end).
  { intros r w' Hone. unfold verdict. by rewrite Hone. }
  destruct (verifyOne ctx tx w) as [[a|e] w'] eqn:Hone; cbn [snd] in Hkeep.
  - destruct (IH (results ++ [Verified a]) w') as [Hres Hroots].
    rewrite Hres, Hroots, Hkeep. split; [|done].
    rewrite <- app_assoc. cbn [app]. rewrite (Hverdict _ _ eq_refl).
    do 3 f_equal. apply list_fmap_ext. intros _ tx' _. by apply verdict_roots.
  - destruct (IH (results ++ [Failed e tx]) w') as [Hres Hroots].
    rewrite Hres, Hroots, Hkeep. split; [|done].
    rewrite <- app_assoc. cbn [app]. rewrite (Hverdict _ _ eq_refl).
    do 3 f_equal. apply list_fmap_ext. intros _ tx' _. by apply verdict_roots.
Qed.

Lemma filter_success_split (results : list BatchResult) :
  (length (List.filter success results)
   + length (List.filter (λ r, negb (success r)) results) = length results)%nat.
Proof.
  induction results as [|r results IH]; [done|]. cbn [List.filter].
  destruct (success r); cbn [negb length]; lia.
Qed.

Lemma records_ok_verifyTransaction ctx sc bn tx mp (w : World) :
  records_ok w → records_ok (verifyTransaction ctx sc bn tx mp w).2.
Proof.
  intros [Hlisted Hrecords].
  destruct (verifyTransaction_cases ctx sc bn tx mp w)
    as [[e ->]|(proof & table & tr & -> & Ht & Hroot & Hvalid & ->)]; [done|].
  cbn [snd]. split.
  - intros table' key tr' h. rewrite lookup_insert_eq. intros [= <-] Hkey Hh.
    unfold stored_verification.
    rewrite lookup_insert_ne by discriminate.
    destruct (decide (h = Sha256.sha256_hex tx)) as [->|Hne].
    { rewrite lookup_insert_eq. eauto. }
    rewrite lookup_insert_ne by (intros Heq; by apply verificationKey_inj in Heq).
    assert (∃ tr0, table !! key = Some tr0 ∧ h ∈ verifiedTransactions tr0)
      as (tr0 & Hkey0 & Hh0).
    { destruct (decide (key = rootKey sc bn)) as [->|Hk].
      - rewrite lookup_insert_eq in Hkey. injection Hkey as <-.
        exists tr. split; [done|]. cbn in Hh.
        apply elem_of_app in Hh as [Hh|Hh%list_elem_of_singleton]; done.
      - rewrite lookup_insert_ne in Hkey by done. eauto. }
    apply (Hlisted table key tr0 h Ht Hkey0 Hh0).
  - intros key r Hkey.
    destruct (decide (key = "TRUSTED_ROOTS")) as [->|Hne];
      [by rewrite lookup_insert_eq in Hkey|].
    rewrite lookup_insert_ne in Hkey by done.
    destruct (decide (key = verificationKey (Sha256.sha256_hex tx))) as [->|Hk].
    + rewrite lookup_insert_eq in Hkey. by injection Hkey as <-.
    + rewrite lookup_insert_ne in Hkey by done. by apply Hrecords.
Qed.

Lemma records_ok_loop ctx txs :
  ∀ results (w : World), records_ok w → records_ok (verifyBatch_loop ctx txs results w).2.
Proof.
  induction txs as [|tx txs IH]; intros results w Hok; [done|].
  cbn [verifyBatch_loop].
  pose proof (records_ok_verifyTransaction ctx (bt_sourceChain tx) (bt_blockNumber tx)
                (bt_transactionData tx) (Parsed <$> bt_merkleProof tx) w Hok) as Hstep.
  fold (verifyOne ctx tx) in Hstep.
  destruct (verifyOne ctx tx w) as [[a|e] w']; by apply IH.
Qed.

Lemma records_ok_run c (w : World) : records_ok w → records_ok (run c w).
Proof.
  intros Hok. destruct c as [chain|ctx sc bn root proof|ctx sc bn tx mp|ctx uuid batch];
    cbn [run].
  - destruct Hok as [Hlisted Hrecords].
    unfold initLedger, bind, putState. cbn [fst snd]. split.
    + intros table key tr h. rewrite lookup_insert_eq. intros [= <-].
      by rewrite lookup_empty.
    + intros key r Hkey.
      destruct (decide (key = "TRUSTED_ROOTS")) as [->|Hne];
        [by rewrite lookup_insert_eq in Hkey|].
      rewrite lookup_insert_ne in Hkey by done.
      destruct (decide (key = "CONFIG")) as [->|Hne'];
        [by rewrite lookup_insert_eq in Hkey|].
      rewrite lookup_insert_ne in Hkey by done. by apply Hrecords.
  - destruct Hok as [Hlisted Hrecords].
    destruct (setTrustedRoot_cases ctx sc bn root proof w)
      as [[e ->]|(table & p & -> & Ht & ->)]; [done|].
    cbn [snd]. split.
    + intros table' key tr h. rewrite lookup_insert_eq. intros [= <-] Hkey Hh.
      unfold stored_verification. rewrite lookup_insert_ne by discriminate.
      destruct (decide (key = rootKey sc bn)) as [->|Hk].
      * rewrite lookup_insert_eq in Hkey. injection Hkey as <-.
        by apply elem_of_nil in Hh.
      * rewrite lookup_insert_ne in Hkey by done.
        apply (Hlisted table key tr h Ht Hkey Hh).
    + intros key r Hkey.
      destruct (decide (key = "TRUSTED_ROOTS")) as [->|Hne];
        [by rewrite lookup_insert_eq in Hkey|].
      rewrite lookup_insert_ne in Hkey by done. by apply Hrecords.
  - by apply records_ok_verifyTransaction.
  - unfold verifyTransactionBatch. destruct batch as [batch|]; [|done].
    destruct (transactions batch) as [txs|]; [|done].
    unfold bind, ret, throw.
    pose proof (records_ok_loop ctx txs [] w Hok) as Hloop.
    by destruct (verifyBatch_loop ctx txs [] w) as [[results|e] w'].
Qed.

End VerifierLedgerFacts.

(** X15.  The EVM verifier on every input: [verifyProof] reverts exactly when
    [lefts] is shorter than [proof] (the read of [lefts[i]] is out of
    bounds), and otherwise returns whether the root recomputed from the leaf,
    hashing the sibling before the accumulator where the flag is true and
    after it where the flag is false, equals the expected root; flags beyond
    the length of the proof are ignored. *)
Theorem verifyProof_on_every_input leaf (proof : list (list N)) (lefts : list bool) root :
  SidechainVerifierSol.verifyProof leaf proof lefts root
  = if (length lefts <? length proof)%nat then None
    else Some (bool_decide
                 (MerkleSpec.recompute_root MerkleSpec.node_bytes leaf
                    (zip_with (λ p l, {| MerkleSpec.siblingHash := p;
                                         MerkleSpec.isLeftSibling := l |}) proof lefts)
                  = root)).
Proof.
  destruct (length lefts <? length proof)%nat eqn:Hlen.
  - apply Nat.ltb_lt in Hlen. by apply verifyProof_short_flags.
  - apply Nat.ltb_ge in Hlen. by apply verifyProof_is_spec.
Qed.

(** X16.  What [setTrustedRoot] stores, [getTrustedRoot] returns: after a
    successful call the root of the pair is the one given, with status
    TRUSTED and an empty list of verified transactions (a root set again for
    the same pair starts from an empty list), and the roots stored under
    other keys are as they were. *)
Theorem setTrustedRoot_then_getTrustedRoot ctx sourceChain blockNumber merkleRoot proof
    (w w' : SidechainVerifierChaincode.World) r :
  SidechainVerifierChaincode.setTrustedRoot ctx sourceChain blockNumber merkleRoot proof w
  = (Chaincode.Ok r, w') →
  SidechainVerifierChaincode.getTrustedRoot sourceChain blockNumber w' = (Chaincode.Ok r, w')
  ∧ SidechainVerifierChaincode.merkleRoot r = merkleRoot
  ∧ SidechainVerifierChaincode.status r = "TRUSTED"
  ∧ SidechainVerifierChaincode.verifiedTransactions r = []
  ∧ ∀ sourceChain' blockNumber',
      SidechainVerifierChaincode.rootKey sourceChain' blockNumber'
      ≠ SidechainVerifierChaincode.rootKey sourceChain blockNumber →
      SidechainVerifierChaincode.trusted_root_at w' sourceChain' blockNumber'
      = SidechainVerifierChaincode.trusted_root_at w sourceChain' blockNumber'.
Proof.
  intros Hrun.
  destruct (setTrustedRoot_cases ctx sourceChain blockNumber merkleRoot proof w)
    as [[e He]|(table & p & -> & Ht & Heq)]; [congruence|].
  rewrite Heq in Hrun. injection Hrun as <- <-.
  unfold SidechainVerifierChaincode.getTrustedRoot,
    SidechainVerifierChaincode.readTrustedRoots, SidechainVerifierChaincode.trusted_root_at,
    Chaincode.bind, Chaincode.getState, Chaincode.ret.
  rewrite !lookup_insert_eq. split_and!; try done.
  intros sc' bn' Hne. by rewrite Ht, lookup_insert_ne.
Qed.

(** The theorem for the root trusted for block 1000 of chainA on the
    initialised ledger. *)
Lemma setTrustedRoot_then_getTrustedRoot_witness :
  ∃ r w',
    SidechainVerifierChaincode.setTrustedRoot (Scenario.ctx_at 0) "chainA" "1000"
      Scenario.Verifier.root (SidechainVerifierChaincode.Parsed "{}")
      (SidechainVerifierChaincode.initLedger "sidechain1" ∅).2 = (Chaincode.Ok r, w')
    ∧ SidechainVerifierChaincode.getTrustedRoot "chainA" "1000" w' = (Chaincode.Ok r, w').
Proof.
  destruct (SidechainVerifierChaincode.setTrustedRoot (Scenario.ctx_at 0) "chainA" "1000"
              Scenario.Verifier.root (SidechainVerifierChaincode.Parsed "{}")
              (SidechainVerifierChaincode.initLedger "sidechain1" ∅).2)
    as [[r|e] w'] eqn:Hrun.
  - exists r, w'. split; [reflexivity|].
    exact (proj1 (setTrustedRoot_then_getTrustedRoot _ _ _ _ _ _ _ _ Hrun)).
  - exfalso. apply (f_equal fst) in Hrun. vm_compute in Hrun. discriminate Hrun.
Defined.

(** X17.  [verifyTransaction] is all or nothing: a call that throws leaves
    the ledger as it was, and a call that returns has written exactly the
    verification record it returns, under [verification~<hash>] with the hash
    of the transaction data, and the [TRUSTED_ROOTS] table. *)
Theorem verifyTransaction_all_or_nothing ctx sourceChain blockNumber transactionData
    merkleProof (w : SidechainVerifierChaincode.World) :
  match SidechainVerifierChaincode.verifyTransaction ctx sourceChain blockNumber
          transactionData merkleProof w with
  | (Chaincode.Throw _, w') => w' = w
  | (Chaincode.Ok r, w') =>
      SidechainVerifierChaincode.transactionHash r = Sha256.sha256_hex transactionData
      ∧ SidechainVerifierChaincode.vr_status r = "VERIFIED"
      ∧ ∃ table,
          w' = <["TRUSTED_ROOTS" := SidechainVerifierChaincode.DTrustedRoots table]>
                 (<[SidechainVerifierChaincode.verificationKey
                      (SidechainVerifierChaincode.transactionHash r) :=
                      SidechainVerifierChaincode.DVerification r]> w)
  end.
Proof.
  destruct (verifyTransaction_cases ctx sourceChain blockNumber transactionData
              merkleProof w)
    as [[e ->]|(proof & table & tr & -> & Ht & Hroot & Hvalid & ->)]; [done|].
  split; [done|]. split; [done|]. by eexists.
Qed.

(** X18.  What [verifyTransaction] stores can be read back: after a
    successful call [getVerificationRecord] returns, for the hash of the
    transaction data, the record the call returned, and [getTrustedRoot]
    returns for the pair a root with the Merkle root it had before and with
    the hash as the last element of its verified transactions. *)
Theorem verifyTransaction_then_read ctx sourceChain blockNumber transactionData
    merkleProof (w w' : SidechainVerifierChaincode.World) r :
  SidechainVerifierChaincode.verifyTransaction ctx sourceChain blockNumber
    transactionData merkleProof w = (Chaincode.Ok r, w') →
  SidechainVerifierChaincode.getVerificationRecord (Sha256.sha256_hex transactionData) w'
  = (Chaincode.Ok r, w')
  ∧ ∃ before after,
      SidechainVerifierChaincode.getTrustedRoot sourceChain blockNumber w
      = (Chaincode.Ok before, w)
      ∧ SidechainVerifierChaincode.getTrustedRoot sourceChain blockNumber w'
        = (Chaincode.Ok after, w')
      ∧ SidechainVerifierChaincode.merkleRoot after
        = SidechainVerifierChaincode.merkleRoot before
      ∧ SidechainVerifierChaincode.verifiedTransactions after
        = SidechainVerifierChaincode.verifiedTransactions before
          ++ [Sha256.sha256_hex transactionData].
Proof.
  intros Hrun.
  destruct (verifyTransaction_cases ctx sourceChain blockNumber transactionData
              merkleProof w)
    as [[e He]|(proof & table & tr & -> & Ht & Hroot & Hvalid & Heq)]; [congruence|].
  rewrite Heq in Hrun. injection Hrun as <- <-.
  unfold SidechainVerifierChaincode.getVerificationRecord,
    SidechainVerifierChaincode.getTrustedRoot, SidechainVerifierChaincode.readTrustedRoots,
    Chaincode.bind, Chaincode.getState, Chaincode.ret.
  rewrite lookup_insert_ne by discriminate. rewrite !lookup_insert_eq, Ht, Hroot.
  split; [done|]. by do 2 eexists.
Qed.

(** The theorem for the verification of tx-1 against the root trusted for
    block 1000 of chainA. *)
Lemma verifyTransaction_then_read_witness :
  ∃ r w',
    Scenario.Verifier.verify_tx1 Scenario.Verifier.v_trusted = (Chaincode.Ok r, w')
    ∧ SidechainVerifierChaincode.getVerificationRecord (Sha256.sha256_hex "tx-1") w'
      = (Chaincode.Ok r, w').
Proof.
  destruct (Scenario.Verifier.verify_tx1 Scenario.Verifier.v_trusted)
    as [[r|e] w'] eqn:Hrun.
  - exists r, w'. split; [reflexivity|].
    exact (proj1 (verifyTransaction_then_read _ _ _ _ _ _ _ _ Hrun)).
  - exfalso. apply (f_equal fst) in Hrun. vm_compute in Hrun. discriminate Hrun.
Defined.

(** X19.  Verification never consults the configuration: whatever document
    is stored under [CONFIG] (its status, its list of trusted chains, its
    trusted mainchain), [verifyTransaction] returns the same record or throws
    the same error. *)
Theorem verifyTransaction_ignores_config ctx sourceChain blockNumber transactionData
    merkleProof (w : SidechainVerifierChaincode.World) config :
  (SidechainVerifierChaincode.verifyTransaction ctx sourceChain blockNumber
     transactionData merkleProof (<["CONFIG" := config]> w)).1
  = (SidechainVerifierChaincode.verifyTransaction ctx sourceChain blockNumber
       transactionData merkleProof w).1.
Proof.
  apply verifyTransaction_roots. unfold SidechainVerifierLedger.trusted_merkle_roots.
  by rewrite lookup_insert_ne.
Qed.

(** X20.  On every ledger the contract reaches from the empty ledger by
    [initLedger], [setTrustedRoot], [verifyTransaction] and
    [verifyTransactionBatch] calls, each hash listed in the verified
    transactions of a trusted root has a verification record, and each
    verification record is stored under the SHA-256 hash of the transaction
    data it holds, with status VERIFIED. *)
Theorem verified_transactions_recorded (calls : list SidechainVerifierLedger.Call) :
  SidechainVerifierLedger.records_ok (SidechainVerifierLedger.after calls).
Proof.
  unfold SidechainVerifierLedger.after.
  assert (Hinit : SidechainVerifierLedger.records_ok ∅).
  { split; [intros table key tr h|intros key r]; by rewrite lookup_empty. }
  revert Hinit. generalize (∅ : SidechainVerifierChaincode.World).
  induction calls as [|c calls IH]; intros w Hw; [done|].
  cbn [fold_left]. apply IH. by apply records_ok_run.
Qed.

(** X21.  A batch is verified transaction by transaction, and the
    transactions do not influence one another: [verifyTransactionBatch]
    returns, for a batch that has a transaction list, a report whose i-th
    result is the outcome [verifyTransaction] has for the i-th transaction on
    the ledger the batch started from, whatever the other transactions of the
    batch are; failures are recorded, never thrown; and the counts of
    successes and failures add up to the number of transactions. *)
Theorem verifyTransactionBatch_independent ctx randomUUID batchId
    (txs : list SidechainVerifierLedger.BatchTransaction)
    (w : SidechainVerifierChaincode.World) :
  ∃ report,
    (SidechainVerifierLedger.verifyTransactionBatch ctx randomUUID
       (SidechainVerifierChaincode.Parsed
          {| SidechainVerifierLedger.batchId := batchId;
             SidechainVerifierLedger.transactions := Some txs |}) w).1
    = Chaincode.Ok report
    ∧ SidechainVerifierLedger.results report
      = SidechainVerifierLedger.verdict ctx w <$> txs
    ∧ SidechainVerifierLedger.br_batchId report
      = (if Chaincode.falsy batchId then randomUUID else batchId)
    ∧ SidechainVerifierLedger.totalTransactions report = length txs
    ∧ (SidechainVerifierLedger.successfulVerifications report
       + SidechainVerifierLedger.failedVerifications report
       = SidechainVerifierLedger.totalTransactions report)%nat.
Proof.
  unfold SidechainVerifierLedger.verifyTransactionBatch. cbn.
  unfold Chaincode.bind, Chaincode.ret.
  destruct (verifyBatch_loop_spec ctx txs [] w) as [Hres _].
  destruct (SidechainVerifierLedger.verifyBatch_loop ctx txs [] w) as [[results|e] w'];
    cbn in Hres; [|done].
  injection Hres as ->. eexists. split; [reflexivity|]. cbn.
  split_and!; try done.
  rewrite filter_success_split. by rewrite length_fmap.
Qed.
(** * The coordinator chaincode on the ledgers it reaches *)

Section CoordinatorLedgerFacts.
Import Chaincode ScimpCoordinatorChaincode.

(** The loop of [cleanupTimeouts] on a ledger that holds a record for every
    entry: it stops with the error of [JSON.parse] at the first entry that
    has timed out. *)
Lemma cleanup_loop_result ctx (w : World) table entries :
  w !! "ABORTED_EPOCHS" = None →
  w !! "ACTIVE_EPOCHS" = Some (DEpochs table) →
  ∀ acc,
    (∀ id e, (id, e) ∈ entries → ∃ e', w !! epochKey id = Some (DEpoch e')) →
    (cleanup_loop ctx entries acc w).1
    = if existsb (λ entry, timedOut ctx entry.2) entries
      then Throw RuntimeError else Ok acc.
Proof.
  intros Hab Hact. induction entries as [|[id e] entries IH]; intros acc Hrec; [done|].
  cbn [cleanup_loop existsb snd].
  destruct (timedOut ctx e).
  - cbn [orb]. unfold bind at 1.
    destruct (Hrec id e) as [e' He']; [by left|].
    pose proof (abortEpoch_syntax_error ctx id "TIMEOUT" w e' table Hab He' Hact) as Herr.
    destruct (abortEpoch ctx id "TIMEOUT" w) as [[?|err] w']; [done|].
    cbn in Herr. by injection Herr as ->.
  - cbn [orb]. apply IH. intros id' e' Hin. apply (Hrec id' e'). by right.
Qed.

Lemma active_epochs_table (w : World) table :
  w !! "ACTIVE_EPOCHS" = Some (DEpochs table) → active_epochs w = table.
Proof. unfold active_epochs. by intros ->. Qed.

(** The preparations [beginEpoch] writes. *)
Lemma initial_preparations_fold ps p :
  ∀ acc : gmap string Preparation.t,
    acc !! "__proto__" = None →
    fold_left (λ acc participant, JsObject.set acc participant waiting) ps acc !! p
    = if bool_decide (p ∈ ps ∧ p ≠ "__proto__") then Some waiting else acc !! p.
Proof.
  induction ps as [|q ps IH]; intros acc Hacc; cbn [fold_left].
  - rewrite bool_decide_eq_false_2; [done|]. intros [Hin _]. by apply elem_of_nil in Hin.
  - rewrite IH.
    2:{ destruct (decide (q = "__proto__")) as [->|Hq].
        - unfold JsObject.set. by rewrite Hacc.
        - by rewrite set_lookup_ne. }
    destruct (decide (p ∈ ps ∧ p ≠ "__proto__")) as [[Hin Hne]|Hnot].
    + rewrite !bool_decide_eq_true_2; [done| |done]. split; [by right|done].
    + rewrite (bool_decide_eq_false_2 _ Hnot).
      destruct (decide (p = q)) as [->|Hpq].
      * destruct (decide (q = "__proto__")) as [->|Hq].
        -- rewrite bool_decide_eq_false_2 by (by intros [_ ?]).
           unfold JsObject.set. by rewrite Hacc.
        -- rewrite bool_decide_eq_true_2 by (split; [by left|done]).
           rewrite set_insert by done. by rewrite lookup_insert_eq.
      * rewrite set_lookup_ne by done.
        rewrite bool_decide_eq_false_2; [done|].
        intros [[?|Hin]%elem_of_cons Hne]; [done|]. by apply Hnot.
Qed.

Lemma initial_preparations_lookup ps p :
  initial_preparations ps !! p
  = if bool_decide (p ∈ ps ∧ p ≠ "__proto__") then Some waiting else None.
Proof.
  unfold initial_preparations. rewrite initial_preparations_fold by apply lookup_empty.
  by rewrite lookup_empty.
Qed.

(** [getEpochStatus] on a ledger that satisfies the invariant. *)
Lemma getEpochStatus_ok id (w : World) :
  ledger_ok w →
  getEpochStatus id w
  = (if bool_decide (id ∈ JsObject.inherited)
     then Ok (if bool_decide (id = "__proto__") then EmptyObjectReply else UndefinedReply)
     else match stored_epoch w id with
          | Some e => Ok (EpochReply e)
          | None => Throw (EpochNotFound id)
          end, w).
Proof.
  intros ([table Htable] & _ & _ & Hty & _ & Hrec).
  rewrite (active_epochs_table w table Htable) in Hrec.
  unfold getEpochStatus. tx_unfold. rewrite Htable.
  unfold JsObject.get. destruct (table !! id) as [e|] eqn:Hid.
  - pose proof (Hrec id e Hid) as He. rewrite He.
    apply stored_epoch_Some in He. apply Hty in He as [Hnot _].
    by rewrite bool_decide_eq_false_2.
  - case_bool_decide; [done|].
    unfold stored_epoch. destruct (w !! epochKey id) as [d|] eqn:Hd; [|done].
    by destruct (Hty id d Hd) as [_ [e ->]].
Qed.

End CoordinatorLedgerFacts.

(** X22.  [cleanupTimeouts] never reaps a timed-out epoch.  On a ledger
    reached from the initialised one the call returns the empty list, having
    written nothing, when no entry of [ACTIVE_EPOCHS] has timed out; when an
    entry has, the call ends with the error [JSON.parse] throws in
    [abortEpoch] on the unwritten [ABORTED_EPOCHS], and the transaction
    commits nothing: the epoch stays active. *)
Theorem cleanupTimeouts_never_reaps (calls : list ScimpCoordinatorChaincode.Call) ctx :
  let w := ScimpCoordinatorChaincode.after calls in
  (ScimpCoordinatorChaincode.cleanupTimeouts ctx w).1
  = (if ScimpCoordinatorChaincode.some_timed_out ctx (ScimpCoordinatorChaincode.active_epochs w)
     then Chaincode.Throw ScimpCoordinatorChaincode.RuntimeError
     else Chaincode.Ok [])
  ∧ ScimpCoordinatorChaincode.run (ScimpCoordinatorChaincode.CallCleanupTimeouts ctx) w = w.
Proof.
  intros w. pose proof (after_ok calls) as Hok. fold w in Hok.
  destruct Hok as ([table Htable] & _ & Hab & Hty & _ & Hrec).
  rewrite (active_epochs_table w table Htable) in Hrec |- *.
  split.
  - unfold ScimpCoordinatorChaincode.cleanupTimeouts. tx_unfold. rewrite Htable.
    apply (cleanup_loop_result ctx w table _ Hab Htable).
    intros id e Hin%elem_of_map_to_list. exists e.
    by apply stored_epoch_Some, Hrec.
  - cbn [ScimpCoordinatorChaincode.run]. unfold Chaincode.submit.
    unfold ScimpCoordinatorChaincode.cleanupTimeouts. tx_unfold. rewrite Htable.
    pose proof (cleanup_loop_returns ctx (map_to_list table) [] w Hab) as Hloop.
    destruct (ScimpCoordinatorChaincode.cleanup_loop _ _ _ _) as [[ids|err] w']; [|done].
    by destruct Hloop as (-> & _).
Qed.

(** X23.  [getEpochStatus] on a ledger reached from the initialised one
    leaves the ledger alone and returns the record stored under
    [epoch~<epochId>], whether the epoch is in [ACTIVE_EPOCHS] or not; for an
    id without a record it throws "Epoch not found", except for the twelve
    names of the members of [Object.prototype], no epoch of which can exist:
    for these it returns [undefined], and [{}] for [__proto__]. *)
Theorem getEpochStatus_on_reachable (calls : list ScimpCoordinatorChaincode.Call) epochId :
  let w := ScimpCoordinatorChaincode.after calls in
  ScimpCoordinatorChaincode.getEpochStatus epochId w
  = (if bool_decide (epochId ∈ JsObject.inherited)
     then Chaincode.Ok
            (if bool_decide (epochId = "__proto__")
             then ScimpCoordinatorChaincode.EmptyObjectReply
             else ScimpCoordinatorChaincode.UndefinedReply)
     else match ScimpCoordinatorChaincode.stored_epoch w epochId with
          | Some e => Chaincode.Ok (ScimpCoordinatorChaincode.EpochReply e)
          | None =>
              Chaincode.Throw (ScimpCoordinatorChaincode.EpochNotFound epochId)
          end, w)
  ∧ (if bool_decide (epochId ∈ JsObject.inherited)
     then ScimpCoordinatorChaincode.stored_epoch w epochId = None
     else True).
Proof.
  intros w. pose proof (after_ok calls) as Hok. fold w in Hok.
  split; [by apply getEpochStatus_ok|].
  case_bool_decide as Hin; [|done].
  destruct Hok as (_ & _ & _ & Hty & _).
  destruct (ScimpCoordinatorChaincode.stored_epoch w epochId) as [e|] eqn:He; [|done].
  apply stored_epoch_Some in He. by apply Hty in He as [Hnot _].
Qed.

(** X24.  [abort] never succeeds.  On a ledger reached from the initialised
    one the call throws "Epoch not found" for an epoch without a record and,
    for every stored epoch, the error of [JSON.parse] on the unwritten
    [ABORTED_EPOCHS]; the transaction commits nothing, so no epoch is ever
    ABORTED. *)
Theorem abort_never_returns (calls : list ScimpCoordinatorChaincode.Call)
    ctx epochId reason :
  let w := ScimpCoordinatorChaincode.after calls in
  (ScimpCoordinatorChaincode.abort ctx epochId reason w).1
  = Chaincode.Throw
      (match ScimpCoordinatorChaincode.stored_epoch w epochId with
       | Some _ => ScimpCoordinatorChaincode.RuntimeError
       | None => ScimpCoordinatorChaincode.EpochNotFound epochId
       end)
  ∧ ScimpCoordinatorChaincode.run
      (ScimpCoordinatorChaincode.CallAbort ctx epochId reason) w = w.
Proof.
  intros w. pose proof (after_ok calls) as Hok. fold w in Hok.
  destruct Hok as ([table Htable] & _ & Hab & Hty & _).
  split.
  - unfold ScimpCoordinatorChaincode.abort.
    destruct (ScimpCoordinatorChaincode.stored_epoch w epochId) as [e|] eqn:He.
    + apply stored_epoch_Some in He.
      by apply (abortEpoch_syntax_error ctx epochId _ w e table).
    + unfold ScimpCoordinatorChaincode.abortEpoch. tx_unfold.
      unfold ScimpCoordinatorChaincode.stored_epoch in He.
      destruct (w !! ScimpCoordinatorChaincode.epochKey epochId) as [d|] eqn:Hd; [|done].
      destruct (Hty epochId d Hd) as [_ [e ->]]. done.
  - cbn [ScimpCoordinatorChaincode.run]. unfold Chaincode.submit.
    unfold ScimpCoordinatorChaincode.abort.
    destruct (abortEpoch_throws ctx epochId (default "MANUAL_ABORT" reason) w Hab)
      as (err & w' & ->). done.
Qed.

(** X25.  What [beginEpoch] stores, [getEpochStatus] returns.  On a ledger
    reached from the initialised one, after a successful [beginEpoch] the
    epoch read back is the one the call returned; it is PREPARING in phase
    PREPARE, started at the time of the call by the caller, with the timeout
    given and at least one participant; every participant is WAITING, except
    a participant named [__proto__], for which nothing is recorded. *)
Theorem beginEpoch_then_getEpochStatus (calls : list ScimpCoordinatorChaincode.Call)
    ctx epochId participants timeout metadata e :
  let w := ScimpCoordinatorChaincode.after calls in
  let begin :=
    ScimpCoordinatorChaincode.CallBeginEpoch ctx epochId participants timeout metadata in
  (ScimpCoordinatorChaincode.beginEpoch ctx epochId participants timeout metadata w).1
  = Chaincode.Ok e →
  ScimpCoordinatorChaincode.getEpochStatus epochId (ScimpCoordinatorChaincode.run begin w)
  = (Chaincode.Ok (ScimpCoordinatorChaincode.EpochReply e),
     ScimpCoordinatorChaincode.run begin w)
  ∧ participants
    = Some (ScimpCoordinatorChaincode.Parsed (ScimpCoordinatorChaincode.participants e))
  ∧ ScimpCoordinatorChaincode.participants e ≠ []
  ∧ ScimpCoordinatorChaincode.status e = ScimpCoordinatorChaincode.Status.PREPARING
  ∧ ScimpCoordinatorChaincode.phase e = ScimpCoordinatorChaincode.Phase.PREPARE
  ∧ ScimpCoordinatorChaincode.startTime e = Chaincode.now ctx
  ∧ ScimpCoordinatorChaincode.coordinator e = Chaincode.clientID ctx
  ∧ ScimpCoordinatorChaincode.timeout e = timeout
  ∧ (∀ p, p ∈ ScimpCoordinatorChaincode.participants e → p ≠ "__proto__" →
          ScimpCoordinatorChaincode.preparation_of e p
          = Some ScimpCoordinatorChaincode.Preparation.WAITING)
  ∧ ScimpCoordinatorChaincode.preparation_of e "__proto__" = None.
Proof.
  intros w begin Hrun.
  assert (Hok' : ScimpCoordinatorChaincode.ledger_ok
                   (ScimpCoordinatorChaincode.run begin w)).
  { apply run_ok, after_ok. }
  subst begin. cbn [ScimpCoordinatorChaincode.run] in *. unfold Chaincode.submit in *.
  destruct (ScimpCoordinatorChaincode.beginEpoch ctx epochId participants timeout
              metadata w) as [[e0|err] w'] eqn:Hcall; [|done].
  cbn in Hrun. injection Hrun as ->. cbn [snd] in *.
  apply beginEpoch_inv in Hcall
    as (table & Htable & Hget & Hid & Hps & Hne & Heid & Hst & Hph & Hprep & Hstart
        & Hto & Hco & ->).
  apply get_Undefined_not_inherited in Hget as [_ Hnot].
  split_and!; try done.
  - rewrite getEpochStatus_ok by done.
    rewrite bool_decide_eq_false_2 by done.
    unfold ScimpCoordinatorChaincode.stored_epoch.
    rewrite lookup_insert_ne by done. by rewrite lookup_insert_eq.
  - intros p Hin Hp. unfold ScimpCoordinatorChaincode.preparation_of.
    rewrite Hprep, initial_preparations_lookup. by rewrite bool_decide_eq_true_2.
  - unfold ScimpCoordinatorChaincode.preparation_of.
    rewrite Hprep, initial_preparations_lookup.
    by rewrite bool_decide_eq_false_2 by (by intros [_ ?]).
Qed.

(** The theorem for the call that begins epoch e1 of the scenario. *)
Lemma beginEpoch_then_getEpochStatus_witness :
  ∃ e,
    ScimpCoordinatorChaincode.getEpochStatus "e1" Scenario.Coordinator.w_begun
    = (Chaincode.Ok (ScimpCoordinatorChaincode.EpochReply e),
       Scenario.Coordinator.w_begun)
    ∧ ScimpCoordinatorChaincode.participants e = ["A"; "B"]
    ∧ ScimpCoordinatorChaincode.preparation_of e "A"
      = Some ScimpCoordinatorChaincode.Preparation.WAITING.
Proof.
  destruct (ScimpCoordinatorChaincode.beginEpoch (Scenario.ctx_at 0) "e1"
              (Some (ScimpCoordinatorChaincode.Parsed ["A"; "B"])) (Some 1000%Z)
              (ScimpCoordinatorChaincode.Parsed "{}")
              (ScimpCoordinatorChaincode.after [])) as [[e|err] w'] eqn:Hrun.
  - exists e.
    destruct (beginEpoch_then_getEpochStatus [] (Scenario.ctx_at 0) "e1"
                (Some (ScimpCoordinatorChaincode.Parsed ["A"; "B"])) (Some 1000%Z)
                (ScimpCoordinatorChaincode.Parsed "{}") e)
      as (Hget & Hps & _ & _ & _ & _ & _ & _ & Hwait & _).
    { by rewrite Hrun. }
    injection Hps as Hps. split; [exact Hget|]. split; [done|].
    apply Hwait; [rewrite <- Hps; set_solver|done].
  - exfalso. apply (f_equal fst) in Hrun. vm_compute in Hrun. discriminate Hrun.
Defined.

(** X26.  No epoch leaves the preparation phase.  On every ledger reached
    from the initialised one by transactions of the contract,
    [COMPLETED_EPOCHS] and [ABORTED_EPOCHS] are unwritten, every epoch record
    is PREPARING or PREPARED, no record is stored for an id that names a
    member of [Object.prototype], and every entry of [ACTIVE_EPOCHS] is the
    record stored for its id. *)
Theorem epochs_never_leave_preparation (calls : list ScimpCoordinatorChaincode.Call) :
  ScimpCoordinatorChaincode.ledger_ok (ScimpCoordinatorChaincode.after calls).
Proof. apply after_ok. Qed.

(** * The EVM coordinator: storage invariant, views, time-outs *)

Section CoordinatorViewsFacts.
Import Evm ScimpCoordinatorSol ScimpCoordinatorViews.

Context (keccak256 : list N → list N).

Lemma epochAt_set_epoch_other key e st k :
  epochAt (set_epoch key e st) k = if decide (k = key) then e else epochAt st k.
Proof.
  unfold epochAt, set_epoch. cbn. case_decide as Hk.
  - subst. by rewrite lookup_insert_eq.
  - by rewrite lookup_insert_ne.
Qed.

Lemma epochAt_insert key e table keys k :
  epochAt {| epochs := <[key := e]> table; activeEpochKeys := keys |} k
  = if decide (k = key) then e
    else epochAt {| epochs := table; activeEpochKeys := keys |} k.
Proof.
  unfold epochAt. cbn. case_decide as Hk.
  - subst. by rewrite lookup_insert_eq.
  - by rewrite lookup_insert_ne.
Qed.

(** The shape of a popped array. *)
Lemma swap_pop_shape (pre : list (list N)) key suf :
  ∃ suf', swap_pop (length pre) (pre ++ key :: suf) = pre ++ suf' ∧ suf' ≡ₚ suf.
Proof.
  unfold swap_pop. destruct suf as [|y suf _] using rev_ind.
  - exists []. rewrite last_last, list_insert_id by by apply list_lookup_middle.
    by rewrite removelast_last, app_nil_r.
  - exists (y :: suf).
    replace (pre ++ key :: suf ++ [y]) with ((pre ++ key :: suf) ++ [y])
      by by rewrite <- app_assoc.
    rewrite last_last, insert_app_l by (rewrite length_app; cbn; lia).
    rewrite removelast_last.
    replace (length pre) with (length pre + 0)%nat at 1 by lia.
    rewrite insert_app_r. cbn [insert list_insert].
    split; [done|]. by rewrite Permutation_app_comm.
Qed.

Lemma expired_epochAt env st st' key :
  epochAt st' key = epochAt st key → expired env st' key = expired env st key.
Proof. unfold expired. by intros ->. Qed.

Lemma expired_aborted env st' key :
  status (epochAt st' key) = ABORTED → expired env st' key = false.
Proof. unfold expired. intros ->. cbn. by rewrite andb_false_r. Qed.

(** The loop of [cleanupTimeouts] ends within its fuel, and what it has done
    when it ends. *)
Lemma sol_cleanup_loop_spec env :
  ∀ fuel i removed st,
    (length (activeEpochKeys st) - i ≤ fuel)%nat →
    ∃ o, cleanup_loop fuel env i removed st = Some o
         ∧ match o with
           | Revert _ => True
           | Success removed' st' =>
               ∃ new,
                 removed' = removed ++ new
                 ∧ take i (activeEpochKeys st') = take i (activeEpochKeys st)
                 ∧ activeEpochKeys st' ++ new ≡ₚ activeEpochKeys st
                 ∧ (∀ k, k ∈ new → expired env st k = true)
                 ∧ (∀ k, k ∈ drop i (activeEpochKeys st') → expired env st' k = false)
                 ∧ ∀ k, epochAt st' k
                        = if decide (k ∈ new) then set_status ABORTED (epochAt st k)
                          else epochAt st k
           end.
Proof.
  induction fuel as [|fuel IH]; intros i removed st Hfuel.
  - cbn [cleanup_loop].
    destruct (activeEpochKeys st !! i) as [key|] eqn:Hi.
    { apply lookup_lt_Some in Hi. lia. }
    eexists. split; [reflexivity|]. exists []. rewrite !app_nil_r.
    apply lookup_ge_None in Hi.
    split_and!; try done.
    + intros k Hk. by apply elem_of_nil in Hk.
    + intros k. rewrite drop_ge by done. intros Hk. by apply elem_of_nil in Hk.
  - cbn [cleanup_loop].
    destruct (activeEpochKeys st !! i) as [key|] eqn:Hi.
    2:{ eexists. split; [reflexivity|]. exists []. rewrite !app_nil_r.
        apply lookup_ge_None in Hi.
        split_and!; try done.
        + intros k Hk. by apply elem_of_nil in Hk.
        + intros k. rewrite drop_ge by done. intros Hk. by apply elem_of_nil in Hk. }
    pose proof (lookup_lt_Some _ _ _ Hi) as Hlt.
    (* the cases in which the index advances *)
    assert (Hadvance : expired env st key = false →
              ∃ o, cleanup_loop fuel env (S i) removed st = Some o
                   ∧ match o with
                     | Revert _ => True
                     | Success removed' st' =>
                         ∃ new,
                           removed' = removed ++ new
                           ∧ take i (activeEpochKeys st') = take i (activeEpochKeys st)
                           ∧ activeEpochKeys st' ++ new ≡ₚ activeEpochKeys st
                           ∧ (∀ k, k ∈ new → expired env st k = true)
                           ∧ (∀ k, k ∈ drop i (activeEpochKeys st') →
                                   expired env st' k = false)
                           ∧ ∀ k, epochAt st' k
                                  = if decide (k ∈ new)
                                    then set_status ABORTED (epochAt st k)
                                    else epochAt st k
                     end).
    { intros Hnot. destruct (IH (S i) removed st) as (o & Hrun & Hspec); [lia|].
      exists o. split; [done|]. destruct o as [removed' st'|reason]; [|done].
      destruct Hspec as (new & Hrem & Htake & Hperm & Hexp & Hrest & Hat).
      exists new. split_and!; try done.
      - transitivity (take i (take (S i) (activeEpochKeys st'))).
        { rewrite take_take. f_equal. lia. }
        rewrite Htake, take_take. f_equal. lia.
      - assert (Hi' : activeEpochKeys st' !! i = Some key).
        { rewrite <- (lookup_take_lt _ (S i)) by lia.
          rewrite Htake, lookup_take_lt by lia. done. }
        intros k Hk. rewrite (drop_S _ _ _ Hi') in Hk.
        apply elem_of_cons in Hk as [->|Hk]; [|by apply Hrest].
        destruct (decide (key ∈ new)) as [Hin|Hin].
        + apply expired_aborted. rewrite Hat, decide_True by done. done.
        + rewrite (expired_epochAt env st st' key); [done|].
          by rewrite Hat, decide_False. }
    set (e := epochAt st key) in *.
    destruct (exists_ e && status_eqb (status e) PREPARING) eqn:Hprep.
    2:{ apply Hadvance. unfold expired. fold e. by rewrite Hprep. }
    destruct (elapsed env e) as [el|] eqn:Hel.
    2:{ eexists. by split. }
    destruct (timeout e <? el)%N eqn:Hto.
    2:{ apply Hadvance. unfold expired. fold e. by rewrite Hprep, Hel, Hto. }
    (* the epoch at [i] is aborted and popped *)
    assert (Hexpired : expired env st key = true).
    { unfold expired. fold e. by rewrite Hprep, Hel, Hto. }
    pose proof (take_drop_middle _ _ _ Hi) as Hsplit.
    assert (Hlen : length (take i (activeEpochKeys st)) = i)
      by (rewrite length_take; lia).
    destruct (swap_pop_shape (take i (activeEpochKeys st)) key
                (drop (S i) (activeEpochKeys st))) as (suf' & Hshape & Hsuf).
    rewrite Hlen, Hsplit in Hshape.
    set (st1 := set_activeEpochKeys
                  (swap_pop i (activeEpochKeys (set_epoch key (set_status ABORTED e) st)))
                  (set_epoch key (set_status ABORTED e) st)).
    assert (Hkeys1 : activeEpochKeys st1 = take i (activeEpochKeys st) ++ suf').
    { unfold st1. cbn. exact Hshape. }
    assert (Hat1 : ∀ k, epochAt st1 k
                        = if decide (k = key) then set_status ABORTED e else epochAt st k).
    { intros k. unfold st1. unfold epochAt at 1. cbn [set_activeEpochKeys epochs].
      apply (epochAt_set_epoch_other key (set_status ABORTED e) st k). }
    destruct (IH i (removed ++ [key]) st1) as (o & Hrun & Hspec).
    { rewrite Hkeys1, length_app, Hlen.
      assert (length suf' = length (drop (S i) (activeEpochKeys st))) as ->
        by by rewrite Hsuf.
      rewrite length_drop. lia. }
    exists o. split; [exact Hrun|]. destruct o as [removed' st'|reason]; [|done].
    destruct Hspec as (new & Hrem & Htake & Hperm & Hexp & Hrest & Hat).
    exists (key :: new). split_and!.
    + by rewrite Hrem, <- app_assoc.
    + rewrite Htake, Hkeys1, take_app_le by lia. by rewrite take_ge by lia.
    + rewrite <- Permutation_middle, Hperm, Hkeys1, Hsuf, Permutation_middle.
      by rewrite Hsplit.
    + intros k [->|Hk]%elem_of_cons; [done|].
      specialize (Hexp k Hk).
      destruct (decide (k = key)) as [->|Hne].
      * rewrite (expired_aborted env st1 key) in Hexp; [done|].
        by rewrite Hat1, decide_True.
      * rewrite <- Hexp. symmetry. apply expired_epochAt.
        by rewrite Hat1, decide_False.
    + exact Hrest.
    + intros k. rewrite Hat, !Hat1.
      destruct (decide (k = key)) as [->|Hne].
      * rewrite (decide_True (P := key ∈ key :: new)) by by left.
        by case_decide.
      * destruct (decide (k ∈ new)) as [Hin|Hin].
        -- rewrite decide_True; [done|by right].
        -- rewrite decide_False; [done|]. by intros [?|?]%elem_of_cons.
Qed.

Lemma sol_cleanupTimeouts_spec env st :
  ∃ o, cleanupTimeouts env st = Some o
       ∧ match o with
         | Revert _ => True
         | Success removed st' =>
             activeEpochKeys st' ++ removed ≡ₚ activeEpochKeys st
             ∧ (∀ k, k ∈ removed → expired env st k = true)
             ∧ (∀ k, k ∈ activeEpochKeys st' → expired env st' k = false)
             ∧ ∀ k, epochAt st' k
                    = if decide (k ∈ removed) then set_status ABORTED (epochAt st k)
                      else epochAt st k
         end.
Proof.
  unfold cleanupTimeouts.
  destruct (sol_cleanup_loop_spec env (length (activeEpochKeys st)) 0 [] st)
    as (o & Hrun & Hspec); [lia|].
  exists o. split; [done|]. destruct o as [removed st'|reason]; [|done].
  destruct Hspec as (new & -> & _ & Hperm & Hexp & Hrest & Hat).
  by split_and!.
Qed.

Lemma expired_exists env st key : expired env st key = true → exists_ (epochAt st key) = true.
Proof.
  unfold expired. intros H. apply andb_true_iff in H as [H _].
  by apply andb_true_iff in H as [H _].
Qed.

(** Storing an existing epoch again, with its identity unchanged. *)
Lemma storage_ok_set_epoch key e' st :
  storage_ok st → exists_ (epochAt st key) = true →
  exists_ e' = true → id e' = id (epochAt st key) →
  participants e' = participants (epochAt st key) → status e' ≠ NONE →
  storage_ok (set_epoch key e' st).
Proof.
  intros (Hnd & Hact & Hall) Hex Hex' Hid Hps Hst. split_and!; [done| |].
  - intros k Hk. cbn [set_epoch activeEpochKeys] in Hk.
    rewrite epochAt_set_epoch_other. case_decide; [done|]. by apply Hact.
  - intros k. rewrite epochAt_set_epoch_other. case_decide as Hk; [|apply Hall].
    subst. rewrite Hex'. specialize (Hall key). rewrite Hex in Hall.
    destruct Hall as (Hid0 & Hps0 & _). split_and!; congruence.
Qed.

Lemma add_participants_fields ps :
  ∀ e, let e' := fold_left add_participant ps e in
       id e' = id e ∧ status e' = status e ∧ coordinator e' = coordinator e
       ∧ startTime e' = startTime e ∧ timeout e' = timeout e ∧ exists_ e' = exists_ e
       ∧ participants e' = participants e ++ ps.
Proof.
  induction ps as [|p ps IH]; intros e; cbn [fold_left].
  - by rewrite app_nil_r.
  - destruct (IH (add_participant e p)) as (? & ? & ? & ? & ? & ? & Hps).
    split_and!; try done. rewrite Hps. cbn. by rewrite <- app_assoc.
Qed.

Lemma storage_ok_run c st : storage_ok st → storage_ok (run keccak256 c st).
Proof.
  intros Hok. destruct c as [env eid ps t|env eid|env eid|env eid reason|env eid|env];
    cbn [run].
  - unfold beginEpoch.
    destruct (negb (0 <? String.length eid)%nat); [done|].
    destruct (0 <? length ps)%nat eqn:Hps; [|done]. cbn [negb].
    set (key := epochKey keccak256 eid).
    destruct (exists_ (epochAt st key)) eqn:Hex; [done|].
    destruct (uint256_limit <=? blockTimestamp env * 1000)%N; [done|].
    cbn [state_after].
    destruct Hok as (Hnd & Hact & Hall).
    pose proof (Hall key) as Hzero. rewrite Hex in Hzero.
    match goal with
    | |- context [fold_left add_participant ps ?e0] =>
        destruct (add_participants_fields ps e0) as (Hid & Hst & _ & _ & _ & Hex' & Hparts);
        remember (fold_left add_participant ps e0) as e eqn:He in *
    end.
    cbn [id status exists_ participants] in Hid, Hst, Hex', Hparts.
    assert (Hparts' : participants e = ps) by by rewrite Hparts, Hzero.
    clear Hparts. rename Hparts' into Hparts.
    assert (Hat : ∀ k, epochAt {| epochs := <[key := e]> (epochs st);
                                   activeEpochKeys := activeEpochKeys st ++ [key] |} k
                       = if decide (k = key) then e else epochAt st k).
    { intros k. apply (epochAt_set_epoch_other key e st k). }
    split_and!.
    + cbn. apply NoDup_app. split; [done|]. split; [|apply NoDup_singleton].
      intros k Hk ->%list_elem_of_singleton. apply Hact in Hk. congruence.
    + intros k Hk. rewrite Hat. case_decide; [done|]. cbn in Hk.
      apply elem_of_app in Hk as [Hk|Hk%list_elem_of_singleton]; [by apply Hact|done].
    + intros k. rewrite Hat. case_decide as Hk; [|apply Hall].
      rewrite Hex'. split_and!; [by subst|..].
      * rewrite Hparts. intros ->. done.
      * by rewrite Hst.
  - unfold prepare. set (key := epochKey keccak256 eid).
    destruct (exists_ (epochAt st key)) eqn:Hex; [|done]. cbn [negb].
    repeat (case_match; try done). all: cbn [state_after].
    all: apply storage_ok_set_epoch; try done.
    all: cbn [status set_preparationState set_commitConfirmation].
    all: by destruct (status (epochAt st key)).
  - unfold commit. set (key := epochKey keccak256 eid).
    destruct (exists_ (epochAt st key)) eqn:Hex; [|done]. cbn [negb].
    repeat (case_match; try done). cbn [state_after].
    by apply storage_ok_set_epoch.
  - unfold abort. set (key := epochKey keccak256 eid).
    destruct (exists_ (epochAt st key)) eqn:Hex; [|done]. cbn [negb state_after].
    by apply storage_ok_set_epoch.
  - unfold confirmCommit. set (key := epochKey keccak256 eid).
    destruct (exists_ (epochAt st key)) eqn:Hex; [|done]. cbn [negb].
    repeat (case_match; try done). all: cbn [state_after].
    all: apply storage_ok_set_epoch; try done.
    all: cbn [status set_preparationState set_commitConfirmation].
    all: by destruct (status (epochAt st key)).
  - destruct (sol_cleanupTimeouts_spec env st) as (o & -> & Hspec).
    destruct o as [removed st'|reason]; [|done]. cbn [state_after].
    destruct Hspec as (Hperm & Hexp & Hrest & Hat).
    destruct Hok as (Hnd & Hact & Hall).
    assert (Hex : ∀ k, exists_ (epochAt st' k) = exists_ (epochAt st k)).
    { intros k. rewrite Hat. by case_decide. }
    split_and!.
    + rewrite <- Hperm in Hnd. by apply NoDup_app in Hnd as (? & _).
    + intros k Hk. rewrite Hex. apply Hact. rewrite <- Hperm. apply elem_of_app. by left.
    + intros k. rewrite Hex. specialize (Hall k).
      destruct (exists_ (epochAt st k)) eqn:Hexk.
      * destruct Hall as (? & ? & ?). rewrite Hat. case_decide; cbn; by split_and!.
      * rewrite Hat, decide_False; [done|].
        intros Hin. apply Hexp, expired_exists in Hin. congruence.
Qed.

Lemma storage_ok_after calls : storage_ok (after keccak256 calls).
Proof.
  unfold after, run_all.
  assert (Hinit : storage_ok emptyState).
  { split_and!; [apply NoDup_nil_2|by intros k ?%elem_of_nil|]. intros k.
    unfold epochAt. cbn. by rewrite lookup_empty. }
  revert Hinit. generalize emptyState.
  induction calls as [|c calls IH]; intros st Hok; [done|].
  cbn [fold_left]. apply IH. by apply storage_ok_run.
Qed.

(** No call changes who an existing epoch belongs to. *)
Lemma run_keeps_core c st key :
  exists_ (epochAt st key) = true →
  exists_ (epochAt (run keccak256 c st) key) = true
  ∧ id (epochAt (run keccak256 c st) key) = id (epochAt st key)
  ∧ coordinator (epochAt (run keccak256 c st) key) = coordinator (epochAt st key)
  ∧ participants (epochAt (run keccak256 c st) key) = participants (epochAt st key)
  ∧ startTime (epochAt (run keccak256 c st) key) = startTime (epochAt st key)
  ∧ timeout (epochAt (run keccak256 c st) key) = timeout (epochAt st key).
Proof.
  intros Hex. destruct c as [env eid ps t|env eid|env eid|env eid reason|env eid|env];
    cbn [run].
  - unfold beginEpoch.
    destruct (negb (0 <? String.length eid)%nat); [done|].
    destruct (negb (0 <? length ps)%nat); [done|].
    destruct (exists_ (epochAt st (epochKey keccak256 eid))) eqn:Hex'; [done|].
    destruct (uint256_limit <=? blockTimestamp env * 1000)%N; [done|].
    cbn [state_after].
    assert (key ≠ epochKey keccak256 eid) as Hne by (intros ->; congruence).
    rewrite !epochAt_insert, !decide_False by done. done.
  - unfold prepare. set (k := epochKey keccak256 eid).
    repeat (case_match; try done). all: cbn [state_after].
    all: rewrite epochAt_set_epoch_other; case_decide; subst; done.
  - unfold commit. set (k := epochKey keccak256 eid).
    repeat (case_match; try done). all: cbn [state_after].
    all: rewrite epochAt_set_epoch_other; case_decide; subst; done.
  - unfold abort. set (k := epochKey keccak256 eid).
    repeat (case_match; try done). all: cbn [state_after].
    all: rewrite epochAt_set_epoch_other; case_decide; subst; done.
  - unfold confirmCommit. set (k := epochKey keccak256 eid).
    repeat (case_match; try done). all: cbn [state_after].
    all: rewrite epochAt_set_epoch_other; case_decide; subst; done.
  - destruct (sol_cleanupTimeouts_spec env st) as (o & -> & Hspec).
    destruct o as [removed st'|reason]; [|done]. cbn [state_after].
    destruct Hspec as (_ & _ & _ & Hat). rewrite Hat. by case_decide.
Qed.

End CoordinatorViewsFacts.

(** X27.  [cleanupTimeouts] of the EVM coordinator, on every storage: the
    loop ends (the fuel of the model, the number of active keys, suffices);
    when the call does not revert, the keys it returns together with the keys
    left in [activeEpochKeys] are the keys that were active; the returned keys
    are those of epochs that were PREPARING past their timeout, and these
    epochs are now ABORTED; no key left active is expired; every other epoch
    is as it was. *)
Theorem sol_cleanupTimeouts_removes_expired env (st : ScimpCoordinatorSol.State) :
  ∃ o,
    ScimpCoordinatorViews.cleanupTimeouts env st = Some o
    ∧ match o with
      | Evm.Revert _ => True
      | Evm.Success removed st' =>
          ScimpCoordinatorViews.getActiveEpochs st' ++ removed
          ≡ₚ ScimpCoordinatorViews.getActiveEpochs st
          ∧ (∀ k, k ∈ removed →
               ScimpCoordinatorViews.expired env st k = true
               ∧ ScimpCoordinatorSol.status (ScimpCoordinatorSol.epochAt st' k)
                 = ScimpCoordinatorSol.ABORTED)
          ∧ (∀ k, k ∈ ScimpCoordinatorViews.getActiveEpochs st' →
               ScimpCoordinatorViews.expired env st' k = false)
          ∧ ∀ k, k ∉ removed →
              ScimpCoordinatorSol.epochAt st' k = ScimpCoordinatorSol.epochAt st k
      end.
Proof.
  destruct (sol_cleanupTimeouts_spec env st) as (o & Hrun & Hspec).
  exists o. split; [done|]. destruct o as [removed st'|reason]; [|done].
  destruct Hspec as (Hperm & Hexp & Hrest & Hat).
  unfold ScimpCoordinatorViews.getActiveEpochs. split_and!; try done.
  - intros k Hk. split; [by apply Hexp|]. by rewrite Hat, decide_True.
  - intros k Hk. by rewrite Hat, decide_False.
Qed.

(** X28.  The storage of the EVM coordinator stays well formed: after any
    sequence of calls on a freshly deployed contract the active keys are
    pairwise distinct and name existing epochs, every existing epoch is
    stored under its own key with at least one participant and a status other
    than NONE, and an epoch that does not exist is all zero. *)
Theorem sol_storage_well_formed (keccak256 : list N → list N)
    (calls : list ScimpCoordinatorViews.Call) :
  ScimpCoordinatorViews.storage_ok (ScimpCoordinatorViews.after keccak256 calls).
Proof. apply storage_ok_after. Qed.

(** X29.  What [beginEpoch] fixes, no later call changes: for an epoch that
    exists, any sequence of calls ([beginEpoch], [prepare], [commit],
    [abort], [confirmCommit], [cleanupTimeouts]) leaves it existing, with the
    same id, coordinator, participants, start time and timeout. *)
Theorem sol_epoch_identity_immutable (keccak256 : list N → list N)
    (calls : list ScimpCoordinatorViews.Call) (st : ScimpCoordinatorSol.State) key :
  ScimpCoordinatorSol.exists_ (ScimpCoordinatorSol.epochAt st key) = true →
  let e := ScimpCoordinatorSol.epochAt st key in
  let e' := ScimpCoordinatorSol.epochAt
              (ScimpCoordinatorViews.run_all keccak256 calls st) key in
  ScimpCoordinatorSol.exists_ e' = true
  ∧ ScimpCoordinatorSol.id e' = ScimpCoordinatorSol.id e
  ∧ ScimpCoordinatorSol.coordinator e' = ScimpCoordinatorSol.coordinator e
  ∧ ScimpCoordinatorSol.participants e' = ScimpCoordinatorSol.participants e
  ∧ ScimpCoordinatorSol.startTime e' = ScimpCoordinatorSol.startTime e
  ∧ ScimpCoordinatorSol.timeout e' = ScimpCoordinatorSol.timeout e.
Proof.
  revert st. unfold ScimpCoordinatorViews.run_all.
  induction calls as [|c calls IH]; intros st Hex; cbn [fold_left]; [done|].
  destruct (run_keeps_core keccak256 c st key Hex) as (Hex1 & Hid & Hco & Hps & Hst & Hto).
  destruct (IH _ Hex1) as (Hex2 & Hid2 & Hco2 & Hps2 & Hst2 & Hto2).
  cbn zeta in *. split_and!; congruence.
Qed.

(** The theorem for epoch e1 of the scenario, begun by the account 1 for the
    participants 2 and 3, through its prepare, commit and confirmation calls
    and a clean-up. *)
Lemma sol_epoch_identity_immutable_witness :
  let key := ScimpCoordinatorSol.epochKey Scenario.CoordinatorSol.hash "e1" in
  let st' := ScimpCoordinatorViews.run_all Scenario.CoordinatorSol.hash
               [ScimpCoordinatorViews.CallPrepare (Scenario.CoordinatorSol.env 2 1) "e1";
                ScimpCoordinatorViews.CallPrepare (Scenario.CoordinatorSol.env 3 1) "e1";
                ScimpCoordinatorViews.CallCommit (Scenario.CoordinatorSol.env 1 1) "e1";
                ScimpCoordinatorViews.CallCleanupTimeouts (Scenario.CoordinatorSol.env 9 5);
                ScimpCoordinatorViews.CallConfirmCommit (Scenario.CoordinatorSol.env 2 1) "e1"]
               Scenario.CoordinatorSol.s_begun in
  ScimpCoordinatorSol.coordinator (ScimpCoordinatorSol.epochAt st' key) = 1%N
  ∧ ScimpCoordinatorSol.participants (ScimpCoordinatorSol.epochAt st' key) = [2%N; 3%N].
Proof.
  intros key st'.
  destruct (sol_epoch_identity_immutable Scenario.CoordinatorSol.hash
              [ScimpCoordinatorViews.CallPrepare (Scenario.CoordinatorSol.env 2 1) "e1";
               ScimpCoordinatorViews.CallPrepare (Scenario.CoordinatorSol.env 3 1) "e1";
               ScimpCoordinatorViews.CallCommit (Scenario.CoordinatorSol.env 1 1) "e1";
               ScimpCoordinatorViews.CallCleanupTimeouts (Scenario.CoordinatorSol.env 9 5);
               ScimpCoordinatorViews.CallConfirmCommit (Scenario.CoordinatorSol.env 2 1) "e1"]
              Scenario.CoordinatorSol.s_begun key)
    as (_ & _ & Hco & Hps & _).
  - vm_compute. reflexivity.
  - fold st' in Hco, Hps. split.
    + rewrite Hco. vm_compute. reflexivity.
    + rewrite Hps. vm_compute. reflexivity.
Defined.

(** X30.  What [beginEpoch] of the EVM coordinator stores, [getEpochStatus]
    returns: on a storage reached by calls from a fresh deployment, after a
    successful [beginEpoch] the view yields PREPARING, the caller as
    coordinator and the participants as given; the key of the epoch has been
    appended to the active keys; before the call the view reverted with
    "epoch not found". *)
Theorem sol_beginEpoch_then_getEpochStatus (keccak256 : list N → list N)
    (calls : list ScimpCoordinatorViews.Call) env epochId participants timeoutMillis
    (st' : ScimpCoordinatorSol.State) :
  let st := ScimpCoordinatorViews.after keccak256 calls in
  ScimpCoordinatorSol.beginEpoch keccak256 env epochId participants timeoutMillis st
  = Evm.Success true st' →
  ScimpCoordinatorViews.getEpochStatus keccak256 epochId st'
  = Evm.Success (ScimpCoordinatorSol.PREPARING, Evm.sender env, participants) st'
  ∧ ScimpCoordinatorViews.getActiveEpochs st'
    = ScimpCoordinatorViews.getActiveEpochs st
      ++ [ScimpCoordinatorSol.epochKey keccak256 epochId]
  ∧ ScimpCoordinatorViews.getEpochStatus keccak256 epochId st
    = Evm.Revert "epoch not found".
Proof.
  intros st Hrun.
  destruct (storage_ok_after keccak256 calls) as (_ & _ & Hall). fold st in Hall.
  unfold ScimpCoordinatorSol.beginEpoch in Hrun.
  destruct (negb (0 <? String.length epochId)%nat); [done|].
  destruct (negb (0 <? length participants)%nat); [done|].
  set (key := ScimpCoordinatorSol.epochKey keccak256 epochId) in *.
  destruct (ScimpCoordinatorSol.exists_ (ScimpCoordinatorSol.epochAt st key)) eqn:Hex;
    [done|].
  destruct (Evm.uint256_limit <=? Evm.blockTimestamp env * 1000)%N; [done|].
  injection Hrun as <-.
  specialize (Hall key). rewrite Hex in Hall.
  match goal with
  | |- context [fold_left ScimpCoordinatorSol.add_participant participants ?e0] =>
      destruct (add_participants_fields participants e0)
        as (_ & Hst & Hco & _ & _ & Hex' & Hparts);
      remember (fold_left ScimpCoordinatorSol.add_participant participants e0)
        as e eqn:He in *
  end.
  cbn [ScimpCoordinatorSol.status ScimpCoordinatorSol.coordinator
       ScimpCoordinatorSol.exists_ ScimpCoordinatorSol.participants]
    in Hst, Hco, Hex', Hparts.
  assert (Hparts' : ScimpCoordinatorSol.participants e = participants)
    by by rewrite Hparts, Hall.
  split_and!.
  - unfold ScimpCoordinatorViews.getEpochStatus. fold key. cbn zeta.
    rewrite !epochAt_insert, !decide_True by done.
    by rewrite Hex', Hst, Hco, Hparts'.
  - done.
  - unfold ScimpCoordinatorViews.getEpochStatus. fold key. cbn zeta.
    by rewrite Hex.
Qed.

(** The theorem for the call that begins epoch e1 of the scenario. *)
Lemma sol_beginEpoch_then_getEpochStatus_witness :
  ∃ st',
    ScimpCoordinatorSol.beginEpoch Scenario.CoordinatorSol.hash
      (Scenario.CoordinatorSol.env 1 0) "e1" [2%N; 3%N] 1000
      (ScimpCoordinatorViews.after Scenario.CoordinatorSol.hash []) = Evm.Success true st'
    ∧ ScimpCoordinatorViews.getEpochStatus Scenario.CoordinatorSol.hash "e1" st'
      = Evm.Success (ScimpCoordinatorSol.PREPARING, 1%N, [2%N; 3%N]) st'.
Proof.
  destruct (ScimpCoordinatorSol.beginEpoch Scenario.CoordinatorSol.hash
              (Scenario.CoordinatorSol.env 1 0) "e1" [2%N; 3%N] 1000
              (ScimpCoordinatorViews.after Scenario.CoordinatorSol.hash []))
    as [b st'|reason] eqn:Hrun.
  - destruct b.
    + exists st'. split; [reflexivity|].
      exact (proj1 (sol_beginEpoch_then_getEpochStatus Scenario.CoordinatorSol.hash []
                      _ _ _ _ _ Hrun)).
    + exfalso. vm_compute in Hrun. discriminate Hrun.
  - exfalso. vm_compute in Hrun. discriminate Hrun.
Defined.
(** * Claims on the two-phase-commit coordinator *)

Section CoordinatorClaims.
Import Evm ScimpCoordinatorSol ScimpCoordinatorViews.

Context (keccak256 : list N → list N).

Lemma forward_refl a : forward a a = true.
Proof. by destruct a. Qed.

(** Apart from [abort], a call of the EVM coordinator leaves the status of
    every epoch as it is or moves it one step forward. *)
Lemma sol_run_forward c st key :
  storage_ok st →
  match c with CallAbort _ _ _ => True
  | _ => forward (status (epochAt st key)) (status (epochAt (run keccak256 c st) key)) = true
  end.
Proof.
  intros (Hnd & Hact & Hall).
  destruct c as [env eid ps t|env eid|env eid|env eid reason|env eid|env];
    cbn [run]; [| | |done| |].
  - unfold beginEpoch.
    destruct (negb (0 <? String.length eid)%nat); [apply forward_refl|].
    destruct (negb (0 <? length ps)%nat); [apply forward_refl|].
    set (k := epochKey keccak256 eid).
    destruct (exists_ (epochAt st k)) eqn:Hex; [apply forward_refl|].
    destruct (uint256_limit <=? blockTimestamp env * 1000)%N; [apply forward_refl|].
    cbn [state_after]. rewrite epochAt_insert.
    case_decide as Hk; [|apply forward_refl]. subst key.
    specialize (Hall k). rewrite Hex in Hall. rewrite Hall at 1.
    match goal with
    | |- context [fold_left add_participant ps ?e0] =>
        destruct (add_participants_fields ps e0) as (_ & -> & _)
    end.
    done.
  - destruct (prepare keccak256 env eid st) as [b st'|reason] eqn:Hrun;
      [|apply forward_refl].
    cbn [state_after].
    pose proof (sol_prepare_inv keccak256 env eid st st' b Hrun) as (Hst & _ & _ & Hst').
    destruct (decide (key = epochKey keccak256 eid)) as [->|Hne].
    + rewrite Hst. by destruct Hst' as [-> | ->].
    + revert Hrun. unfold prepare. repeat (case_match; try done).
      all: intros [= _ <-]; rewrite epochAt_set_epoch_other, decide_False by done.
      all: apply forward_refl.
  - destruct (commit keccak256 env eid st) as [b st'|reason] eqn:Hrun;
      [|apply forward_refl].
    cbn [state_after].
    pose proof (sol_commit_inv keccak256 env eid st st' b Hrun) as (Hst & Hst').
    destruct (decide (key = epochKey keccak256 eid)) as [->|Hne].
    + by rewrite Hst, Hst'.
    + revert Hrun. unfold commit. repeat (case_match; try done).
      all: intros [= _ <-]; rewrite epochAt_set_epoch_other, decide_False by done.
      all: apply forward_refl.
  - destruct (confirmCommit keccak256 env eid st) as [b st'|reason] eqn:Hrun;
      [|apply forward_refl].
    cbn [state_after].
    pose proof (sol_confirmCommit_inv keccak256 env eid st st' b Hrun) as (Hst & _ & Hst').
    destruct (decide (key = epochKey keccak256 eid)) as [->|Hne].
    + rewrite Hst. by destruct Hst' as [-> | ->].
    + revert Hrun. unfold confirmCommit. repeat (case_match; try done).
      all: intros [= _ <-]; rewrite epochAt_set_epoch_other, decide_False by done.
      all: apply forward_refl.
  - destruct (sol_cleanupTimeouts_spec env st) as (o & -> & Hspec).
    destruct o as [removed st'|reason]; [|apply forward_refl]. cbn [state_after].
    destruct Hspec as (_ & Hexp & _ & Hat). rewrite Hat.
    case_decide as Hin; [|apply forward_refl].
    apply Hexp in Hin. unfold expired in Hin.
    apply andb_true_iff in Hin as [Hin _]. apply andb_true_iff in Hin as [_ Hin].
    by destruct (status (epochAt st key)).
Qed.

End CoordinatorClaims.

Section CoordinatorChaincodeClaims.
Import Chaincode ScimpCoordinatorChaincode.

(** [abortEpoch] does not read the status of the epoch it aborts. *)
Lemma abortEpoch_ignores_status ctx id reason s e (w : World) :
  abortEpoch ctx id reason (<[epochKey id := DEpoch (set_status s e)]> w)
  = abortEpoch ctx id reason (<[epochKey id := DEpoch e]> w).
Proof.
  unfold abortEpoch. tx_unfold. rewrite !lookup_insert_eq.
  rewrite !insert_insert_eq. reflexivity.
Qed.

(** [beginEpoch] does not look at the record of the epoch. *)
Lemma beginEpoch_ignores_record ctx id ps t m d (w : World) :
  (beginEpoch ctx id ps t m (<[epochKey id := d]> w)).1 = (beginEpoch ctx id ps t m w).1.
Proof.
  unfold beginEpoch. tx_unfold.
  destruct ps as [[ps|]|]; [| |done]; (destruct (falsy id); [done|]); [|done].
  destruct ps as [|p ps]; [done|].
  cbn [length Nat.eqb]. rewrite lookup_insert_ne by done.
  destruct (w !! "ACTIVE_EPOCHS") as [[|table|]|]; try done.
  destruct (JsObject.get table id); try done.
  by destruct m.
Qed.

(** A [prepare] past the deadline dies in [abortEpoch]. *)
Lemma prepare_timeout_syntax_error ctx id p data (w : World) e :
  ledger_ok w → falsy id = false → falsy p = false →
  stored_epoch w id = Some e →
  status e = Status.PREPARING → p ∈ participants e →
  preparation_of e p = Some Preparation.WAITING →
  timedOut ctx e = true →
  (prepare ctx id p data w).1 = Throw RuntimeError.
Proof.
  intros (Hact & Hco & Hab & _) Hid Hp He%stored_epoch_Some Hst Hin Hprep Hto.
  destruct Hact as [table Htable].
  unfold prepare. unfold readEpoch, bind at 1 2, getState, ret.
  rewrite Hid, Hp. cbn [orb]. rewrite He, Hst, bool_decide_true by done.
  cbn [Status.eqb negb].
  unfold preparation_of in Hprep. unfold JsObject.get.
  destruct (preparations e !! p) as [[[] ? ?]|]; simplify_eq/=.
  rewrite Hto. unfold bind.
  pose proof (abortEpoch_syntax_error ctx id "TIMEOUT" w e table Hab He Htable) as Herr.
  destruct (abortEpoch ctx id "TIMEOUT" w) as [[?|err] w']; [done|].
  cbn in Herr. by injection Herr as ->.
Qed.

End CoordinatorChaincodeClaims.

(** ** Claim C4 *)

(** C4 (counterexample).  In the EVM coordinator epoch e1 of the scenario is
    COMMITTED; [abort], called by a participant, succeeds on it and its
    status becomes ABORTED.  The same happens once the epoch is COMPLETED. *)
Lemma abort_after_commit_succeeds :
  Scenario.CoordinatorSol.status_e1 Scenario.CoordinatorSol.s_committed
  = ScimpCoordinatorSol.COMMITTED
  ∧ (∃ st',
       ScimpCoordinatorSol.abort Scenario.CoordinatorSol.hash
         (Scenario.CoordinatorSol.env 2 1) "e1" "ROLLBACK"
         Scenario.CoordinatorSol.s_committed = Evm.Success true st'
       ∧ Scenario.CoordinatorSol.status_e1 st' = ScimpCoordinatorSol.ABORTED)
  ∧ Scenario.CoordinatorSol.status_e1 Scenario.CoordinatorSol.s_completed
    = ScimpCoordinatorSol.COMPLETED
  ∧ ∃ st',
      ScimpCoordinatorSol.abort Scenario.CoordinatorSol.hash
        (Scenario.CoordinatorSol.env 2 1) "e1" "ROLLBACK"
        Scenario.CoordinatorSol.s_completed = Evm.Success true st'
      ∧ Scenario.CoordinatorSol.status_e1 st' = ScimpCoordinatorSol.ABORTED.
Proof.
  split_and!.
  - vm_compute. reflexivity.
  - eexists. split; [vm_compute; reflexivity|vm_compute; reflexivity].
  - vm_compute. reflexivity.
  - eexists. split; [vm_compute; reflexivity|vm_compute; reflexivity].
Qed.

(** C4 (amended).  [abort] has no guard on the status of the epoch.  In the
    EVM coordinator, on every storage reached by calls from a fresh
    deployment, [abort] succeeds exactly when the epoch exists, whatever its
    status, and leaves it ABORTED; every other call ([beginEpoch], [prepare],
    [commit], [confirmCommit], [cleanupTimeouts]) leaves the status of every
    epoch as it is or moves it one step forward (NONE to PREPARING,
    PREPARING to PREPARED or ABORTED, PREPARED to COMMITTED, COMMITTED to
    COMPLETED), so that an epoch that is COMMITTED or COMPLETED never becomes
    PREPARING or ABORTED but by [abort].  In the chaincode [abortEpoch] does
    not read the status either: on two ledgers that differ in the status of
    the stored epoch only, it has the same outcome and writes the same. *)
Theorem abort_unguarded_others_forward (keccak256 : list N → list N)
    (calls : list ScimpCoordinatorViews.Call) (c : ScimpCoordinatorViews.Call)
    (key : list N) :
  let st := ScimpCoordinatorViews.after keccak256 calls in
  let st' := ScimpCoordinatorViews.run keccak256 c st in
  match c with
  | ScimpCoordinatorViews.CallAbort env epochId reason =>
      let k := ScimpCoordinatorSol.epochKey keccak256 epochId in
      if ScimpCoordinatorSol.exists_ (ScimpCoordinatorSol.epochAt st k)
      then ScimpCoordinatorSol.abort keccak256 env epochId reason st = Evm.Success true st'
           ∧ ScimpCoordinatorSol.status (ScimpCoordinatorSol.epochAt st' k)
             = ScimpCoordinatorSol.ABORTED
      else ScimpCoordinatorSol.abort keccak256 env epochId reason st
           = Evm.Revert "epoch not found"
  | _ =>
      ScimpCoordinatorViews.forward
        (ScimpCoordinatorSol.status (ScimpCoordinatorSol.epochAt st key))
        (ScimpCoordinatorSol.status (ScimpCoordinatorSol.epochAt st' key)) = true
  end
  ∧ ∀ ctx epochId reason s e (w : ScimpCoordinatorChaincode.World),
      ScimpCoordinatorChaincode.abortEpoch ctx epochId reason
        (<[ScimpCoordinatorChaincode.epochKey epochId :=
             ScimpCoordinatorChaincode.DEpoch
               (ScimpCoordinatorChaincode.set_status s e)]> w)
      = ScimpCoordinatorChaincode.abortEpoch ctx epochId reason
          (<[ScimpCoordinatorChaincode.epochKey epochId :=
               ScimpCoordinatorChaincode.DEpoch e]> w).
Proof.
  intros st st'. split; [|intros; apply abortEpoch_ignores_status].
  pose proof (storage_ok_after keccak256 calls) as Hok. fold st in Hok.
  pose proof (sol_run_forward keccak256 c st key Hok) as Hfwd.
  destruct c as [env eid ps t|env eid|env eid|env eid reason|env eid|env]; try exact Hfwd.
  cbn zeta. subst st'. cbn [ScimpCoordinatorViews.run].
  destruct (ScimpCoordinatorSol.exists_ _) eqn:Hex.
  - rewrite (sol_abort_run keccak256 env eid reason st Hex). cbn [Evm.state_after].
    by rewrite epochAt_set_epoch.
  - by apply sol_abort_missing.
Qed.

(** ** Claim C6 *)

(** C6 (code defect).  The chaincode's [beginEpoch] looks for the epoch id in
    [ACTIVE_EPOCHS] only (under the comment "Check if epoch already exists")
    and never at the record under [epoch~<epochId>].  In the scenario epoch
    e1, with participants A and B, is PREPARED when [initLedger] is submitted
    again, which writes an empty [ACTIVE_EPOCHS] and leaves the record where
    it is; [beginEpoch] for e1 with participant C then succeeds and replaces
    the record by a PREPARING one for C.  On every ledger the outcome of
    [beginEpoch] is the same whatever is stored under [epoch~<epochId>].
    With an empty participant list it fails, as the claim says. *)
Theorem beginEpoch_overwrites_existing_record :
  let w := Scenario.Coordinator.w_reinitialised in
  let again :=
    ScimpCoordinatorChaincode.CallBeginEpoch (Scenario.ctx_at 5000) "e1"
      (Some (ScimpCoordinatorChaincode.Parsed ["C"])) (Some 1000%Z)
      (ScimpCoordinatorChaincode.Parsed "{}") in
  (ScimpCoordinatorChaincode.status <$> ScimpCoordinatorChaincode.stored_epoch w "e1"
   = Some ScimpCoordinatorChaincode.Status.PREPARED
   ∧ ScimpCoordinatorChaincode.participants
       <$> ScimpCoordinatorChaincode.stored_epoch w "e1" = Some ["A"; "B"])
  ∧ (∃ e w',
       ScimpCoordinatorChaincode.beginEpoch (Scenario.ctx_at 5000) "e1"
         (Some (ScimpCoordinatorChaincode.Parsed ["C"])) (Some 1000%Z)
         (ScimpCoordinatorChaincode.Parsed "{}") w = (Chaincode.Ok e, w')
       ∧ ScimpCoordinatorChaincode.status e = ScimpCoordinatorChaincode.Status.PREPARING
       ∧ ScimpCoordinatorChaincode.participants e = ["C"])
  ∧ (ScimpCoordinatorChaincode.status
       <$> ScimpCoordinatorChaincode.stored_epoch
             (ScimpCoordinatorChaincode.run again w) "e1"
     = Some ScimpCoordinatorChaincode.Status.PREPARING
     ∧ ScimpCoordinatorChaincode.participants
         <$> ScimpCoordinatorChaincode.stored_epoch
               (ScimpCoordinatorChaincode.run again w) "e1" = Some ["C"])
  ∧ (∀ ctx epochId participants timeout metadata d
       (w0 : ScimpCoordinatorChaincode.World),
       (ScimpCoordinatorChaincode.beginEpoch ctx epochId participants timeout metadata
          (<[ScimpCoordinatorChaincode.epochKey epochId := d]> w0)).1
       = (ScimpCoordinatorChaincode.beginEpoch ctx epochId participants timeout
            metadata w0).1)
  ∧ ∀ ctx epochId timeout metadata (w0 : ScimpCoordinatorChaincode.World),
      ScimpCoordinatorChaincode.beginEpoch ctx epochId
        (Some (ScimpCoordinatorChaincode.Parsed [])) timeout metadata w0
      = (Chaincode.Throw
           (if Chaincode.falsy epochId then ScimpCoordinatorChaincode.ArgumentsRequired
            else ScimpCoordinatorChaincode.NoParticipants), w0).
Proof.
  intros w again. split_and!.
  - vm_compute. reflexivity.
  - vm_compute. reflexivity.
  - destruct (ScimpCoordinatorChaincode.beginEpoch (Scenario.ctx_at 5000) "e1"
                (Some (ScimpCoordinatorChaincode.Parsed ["C"])) (Some 1000%Z)
                (ScimpCoordinatorChaincode.Parsed "{}") w) as [[e|err] w'] eqn:Hrun.
    + exists e, w'. split; [reflexivity|].
      apply beginEpoch_inv in Hrun as (_ & _ & _ & _ & Hps & _ & _ & Hst & _).
      split; [exact Hst|]. by injection Hps as <-.
    + exfalso. apply (f_equal fst) in Hrun. vm_compute in Hrun. discriminate Hrun.
  - vm_compute. reflexivity.
  - vm_compute. reflexivity.
  - intros ctx epochId participants timeout metadata d w0.
    apply beginEpoch_ignores_record.
  - intros ctx epochId timeout metadata w0.
    unfold ScimpCoordinatorChaincode.beginEpoch. tx_unfold.
    by destruct (Chaincode.falsy epochId).
Qed.

(** ** Claim C7 *)

(** C7 (code defect).  On a ledger reached from the initialised one, a
    [prepare] past the deadline, by a participant still WAITING of an epoch
    in PREPARING state, neither aborts the epoch nor fails with the time-out
    error: [abortEpoch] writes the aborted record and then reads
    [ABORTED_EPOCHS], which no transaction has written; the default
    [|| Buffer.from('{}')] is not taken for the empty buffer of the unwritten
    key, [JSON.parse] throws, and the transaction ends with that error and
    commits nothing.  The epoch stays PREPARING and active. *)
Theorem prepare_past_deadline_throws_syntax_error
    (calls : list ScimpCoordinatorChaincode.Call) ctx epochId participantId
    preparationData e :
  let w := ScimpCoordinatorChaincode.after calls in
  Chaincode.falsy epochId = false → Chaincode.falsy participantId = false →
  ScimpCoordinatorChaincode.stored_epoch w epochId = Some e →
  ScimpCoordinatorChaincode.status e = ScimpCoordinatorChaincode.Status.PREPARING →
  participantId ∈ ScimpCoordinatorChaincode.participants e →
  ScimpCoordinatorChaincode.preparation_of e participantId
  = Some ScimpCoordinatorChaincode.Preparation.WAITING →
  ScimpCoordinatorChaincode.timedOut ctx e = true →
  (ScimpCoordinatorChaincode.prepare ctx epochId participantId preparationData w).1
  = Chaincode.Throw ScimpCoordinatorChaincode.RuntimeError
  ∧ ScimpCoordinatorChaincode.run
      (ScimpCoordinatorChaincode.CallPrepare ctx epochId participantId preparationData) w
    = w.
Proof.
  intros w Hid Hp He Hst Hin Hprep Hto.
  pose proof (prepare_timeout_syntax_error ctx epochId participantId preparationData w e
                (after_ok calls) Hid Hp He Hst Hin Hprep Hto) as Herr.
  split; [exact Herr|].
  cbn [ScimpCoordinatorChaincode.run]. unfold Chaincode.submit.
  destruct (ScimpCoordinatorChaincode.prepare _ _ _ _ w) as [[r|err] w']; [done|done].
Qed.

(** The theorem in the scenario: e1 was begun at time 0 with a timeout of
    1000 ms, A has prepared, and B calls [prepare] at time 2000; the epoch is
    PREPARING afterwards. *)
Lemma prepare_past_deadline_throws_syntax_error_witness :
  (ScimpCoordinatorChaincode.prepare (Scenario.ctx_at 2000) "e1" "B"
     (ScimpCoordinatorChaincode.Parsed "{}") Scenario.Coordinator.w_one_prepared).1
  = Chaincode.Throw ScimpCoordinatorChaincode.RuntimeError
  ∧ ScimpCoordinatorChaincode.status
      <$> ScimpCoordinatorChaincode.stored_epoch
            (ScimpCoordinatorChaincode.run
               (ScimpCoordinatorChaincode.CallPrepare (Scenario.ctx_at 2000) "e1" "B"
                  (ScimpCoordinatorChaincode.Parsed "{}"))
               Scenario.Coordinator.w_one_prepared) "e1"
    = Some ScimpCoordinatorChaincode.Status.PREPARING.
Proof.
  destruct (ScimpCoordinatorChaincode.stored_epoch Scenario.Coordinator.w_one_prepared "e1")
    as [e|] eqn:He; [|exfalso; vm_compute in He; discriminate He].
  assert (Hfields :
    ScimpCoordinatorChaincode.status e = ScimpCoordinatorChaincode.Status.PREPARING
    ∧ ScimpCoordinatorChaincode.participants e = ["A"; "B"]
    ∧ ScimpCoordinatorChaincode.preparation_of e "B"
      = Some ScimpCoordinatorChaincode.Preparation.WAITING
    ∧ ScimpCoordinatorChaincode.timedOut (Scenario.ctx_at 2000) e = true).
  { vm_compute in He. injection He as <-. vm_compute. done. }
  destruct Hfields as (Hst & Hps & Hprep & Hto).
  assert (Hin : "B" ∈ ScimpCoordinatorChaincode.participants e)
    by (rewrite Hps; set_solver).
  destruct (prepare_past_deadline_throws_syntax_error
              [Scenario.Coordinator.begin_e1; Scenario.Coordinator.prepare_A]
              (Scenario.ctx_at 2000) "e1" "B" (ScimpCoordinatorChaincode.Parsed "{}") e
              eq_refl eq_refl He Hst Hin Hprep Hto) as [Herr Hrun].
  split; [exact Herr|].
  unfold Scenario.Coordinator.w_one_prepared. rewrite Hrun.
  fold Scenario.Coordinator.w_one_prepared. rewrite He. cbn. by rewrite Hst.
Defined.

(** ** Claim C8 *)

(** C8 (code defect).  The chaincode's [commit] never succeeds.  On every
    ledger reached from the initialised one the call throws and the
    transaction commits nothing: past its tests it reads [COMPLETED_EPOCHS],
    which no transaction has written, the default [|| Buffer.from('{}')] is
    not taken for the empty buffer of the unwritten key, and [JSON.parse]
    throws.  In the scenario e1 exists, is PREPARED and both participants are
    PREPARED; [commit] ends with that error. *)
Theorem commit_never_returns (calls : list ScimpCoordinatorChaincode.Call) ctx epochId :
  (∃ err, (ScimpCoordinatorChaincode.commit ctx epochId
             (ScimpCoordinatorChaincode.after calls)).1 = Chaincode.Throw err)
  ∧ ScimpCoordinatorChaincode.run (ScimpCoordinatorChaincode.CallCommit ctx epochId)
      (ScimpCoordinatorChaincode.after calls)
    = ScimpCoordinatorChaincode.after calls
  ∧ (∃ e,
       ScimpCoordinatorChaincode.stored_epoch Scenario.Coordinator.w_prepared "e1" = Some e
       ∧ ScimpCoordinatorChaincode.status e = ScimpCoordinatorChaincode.Status.PREPARED
       ∧ ScimpCoordinatorChaincode.preparation_of e "A"
         = Some ScimpCoordinatorChaincode.Preparation.PREPARED
       ∧ ScimpCoordinatorChaincode.preparation_of e "B"
         = Some ScimpCoordinatorChaincode.Preparation.PREPARED)
  ∧ (ScimpCoordinatorChaincode.commit (Scenario.ctx_at 300) "e1"
       Scenario.Coordinator.w_prepared).1
    = Chaincode.Throw ScimpCoordinatorChaincode.RuntimeError.
Proof.
  pose proof (after_ok calls) as (_ & Hco & _).
  destruct (commit_throws ctx epochId _ Hco) as (err & w' & Hrun).
  split_and!.
  - exists err. by rewrite Hrun.
  - cbn [ScimpCoordinatorChaincode.run]. unfold Chaincode.submit. by rewrite Hrun.
  - destruct (ScimpCoordinatorChaincode.stored_epoch Scenario.Coordinator.w_prepared "e1")
      as [e|] eqn:He; [|exfalso; vm_compute in He; discriminate He].
    exists e. split; [done|]. vm_compute in He. injection He as <-. vm_compute. done.
  - vm_compute. reflexivity.
Qed.

(** ** Claim C9 *)

(** C9 (code defect).  The chaincode's [confirmCommit] never succeeds and
    never fails with the wrong-state error.  Its first statement reads
    [COMPLETED_EPOCHS], which [commit] would write and never does (C8); the
    default [|| Buffer.from('{}')] is not taken for the empty buffer of the
    unwritten key, and [JSON.parse] throws.  On every ledger reached from the
    initialised one, for every epoch and every caller, the call ends with
    that error and writes nothing: no epoch becomes COMPLETED. *)
Theorem confirmCommit_never_returns (calls : list ScimpCoordinatorChaincode.Call)
    ctx epochId participantId :
  ScimpCoordinatorChaincode.confirmCommit ctx epochId participantId
    (ScimpCoordinatorChaincode.after calls)
  = (Chaincode.Throw ScimpCoordinatorChaincode.RuntimeError,
     ScimpCoordinatorChaincode.after calls)
  ∧ ScimpCoordinatorChaincode.run
      (ScimpCoordinatorChaincode.CallConfirmCommit ctx epochId participantId)
      (ScimpCoordinatorChaincode.after calls)
    = ScimpCoordinatorChaincode.after calls
  ∧ match ScimpCoordinatorChaincode.stored_epoch
            (ScimpCoordinatorChaincode.after calls) epochId with
    | Some e =>
        ScimpCoordinatorChaincode.status e ≠ ScimpCoordinatorChaincode.Status.COMMITTED
        ∧ ScimpCoordinatorChaincode.status e ≠ ScimpCoordinatorChaincode.Status.COMPLETED
    | None => True
    end.
Proof.
  pose proof (after_ok calls) as (_ & Hco & _ & _ & Hst & _).
  pose proof (confirmCommit_syntax_error ctx epochId participantId _ Hco) as Hrun.
  split_and!.
  - exact Hrun.
  - cbn [ScimpCoordinatorChaincode.run]. unfold Chaincode.submit. by rewrite Hrun.
  - destruct (ScimpCoordinatorChaincode.stored_epoch _ epochId) as [e|] eqn:He; [|done].
    apply stored_epoch_Some in He. apply Hst in He as [He|He]; rewrite He; done.
Qed.
